(** * Reference convolution kernel of armnn: [ConvImpl.hpp]

    A shallow embedding of [armnn::ConvImpl] (the implementation shared by
    normal and depthwise convolution) in its quantized instantiation
    [InputType = uint8_t], [BiasType = AccumulatorType = int32_t], and of the
    integer part of [QuantizedMultiplierSmallerThanOne].

    Conventions:
    - [unsigned int] values are [Z] in [0, 2^32); every unsigned operation is
      written with its wrap-around ([+u], [*u], [-u]);
    - [int32_t] values are [Z]; signed overflow has no defined result in C++
      and is an explicit [UndefinedBehaviour] outcome;
    - buffers are lists read and written by index; an access outside the
      buffer is [UndefinedBehaviour] as well;
    - [boost::numeric_cast] raises [BadNumericCast] when the value does not
      fit the target type; [BOOST_ASSERT] raises [AssertionFailure];
    - [float] is kept abstract: the kernel only multiplies and divides the
      scales, compares one with [0.0f] and hands the quotient to the
      multiplier's constructor. *)

From stdpp Require Import base list numbers.
From Stdlib Require Import ZArith Lia QArith.
From Stdlib Require Strings.String.
Local Open Scope Z_scope.

(** ** Outcomes of a run *)

Inductive error : Set :=
| AssertionFailure      (* BOOST_ASSERT failed *)
| BadNumericCast        (* boost::numeric::bad_numeric_cast thrown *)
| UndefinedBehaviour    (* signed overflow, division by zero, wild access *)
| OutOfFuel.            (* the model's loop bound was too small *)

Inductive outcome (A : Type) : Type :=
| Ok (a : A)
| Err (e : error).
Arguments Ok {A} a.
Arguments Err {A} e.

#[global] Instance outcome_ret : MRet outcome := fun A a => Ok a.
#[global] Instance outcome_bind : MBind outcome := fun A B f m =>
  match m with
  | Ok a => f a
  | Err e => Err e
  end.

(** ** Machine integers *)

Definition UINT_MODULUS : Z := 2 ^ 32.
Definition INT32_MIN : Z := - 2 ^ 31.
Definition INT32_MAX : Z := 2 ^ 31 - 1.

(** Wrap-around of [unsigned int]. *)
Definition u32 (z : Z) : Z := z mod UINT_MODULUS.

Definition uadd (a b : Z) : Z := u32 (a + b).
Definition usub (a b : Z) : Z := u32 (a - b).
Definition umul (a b : Z) : Z := u32 (a * b).
Infix "+u" := uadd (at level 50, left associativity).
Infix "-u" := usub (at level 50, left associativity).
Infix "*u" := umul (at level 40, left associativity).

Definition is_uint (z : Z) : Prop := 0 <= z < UINT_MODULUS.

Definition in_int32 (z : Z) : bool := (INT32_MIN <=? z) && (z <=? INT32_MAX).

(** The result of an [int32_t] operation whose mathematical value is [z]. *)
Definition int32_result (z : Z) : outcome Z :=
  if in_int32 z then Ok z else Err UndefinedBehaviour.

(** [boost::numeric_cast<uint8_t>] of an [int32_t]. *)
Definition numeric_cast_uint8 (z : Z) : outcome Z :=
  if (0 <=? z) && (z <=? 255) then Ok z else Err BadNumericCast.

(** ** Buffers *)

Definition read (buf : list Z) (i : Z) : outcome Z :=
  match buf !! Z.to_nat i with
  | Some v => Ok v
  | None => Err UndefinedBehaviour
  end.

Definition write (buf : list Z) (i v : Z) : outcome (list Z) :=
  if i <? Z.of_nat (length buf)
  then Ok (<[Z.to_nat i := v]> buf)
  else Err UndefinedBehaviour.

(** ** Loops *)

(** [for (unsigned int i = from; i < from + k; i++) s = body(i, s);] for a
    loop variable the body does not assign. *)
Fixpoint for_from {S : Type} (k : nat) (from : Z)
    (body : Z -> S -> outcome S) (s : S) : outcome S :=
  match k with
  | O => Ok s
  | Datatypes.S k' => s' ← body from s; for_from k' (from + 1) body s'
  end.

(** [for (unsigned int i = 0; i < n; i++) s = body(i, s);] *)
Definition for_loop {S : Type} (n : Z) (body : Z -> S -> outcome S) (s : S)
  : outcome S :=
  for_from (Z.to_nat n) 0 body s.

(** ** QuantizedMultiplierSmallerThanOne *)

Record QuantizedMultiplierSmallerThanOne : Set := {
  m_Multiplier : Z;
  m_RightShift : Z
}.

(** Modelled from the spec: the body of
    [QuantizedMultiplierSmallerThanOne::SaturatingRoundingDoublingHighMul]
    (declared in ConvImpl.hpp, adapted from gemmlowp, defined in a file that
    is not among the sources).  The rounded high 32 bits of the doubled signed
    64-bit product, the division truncating as C++ does, saturated to
    INT32_MAX when both operands are INT32_MIN. *)
Definition SaturatingRoundingDoublingHighMul (a b : Z) : Z :=
  let overflow := (a =? b) && (a =? INT32_MIN) in
  let ab_64 := a * b in
  let nudge := if 0 <=? ab_64 then 2 ^ 30 else 1 - 2 ^ 30 in
  let ab_x2_high32 := (ab_64 + nudge) ÷ 2 ^ 31 in
  if overflow then INT32_MAX else ab_x2_high32.

(** Modelled from the spec: the body of
    [QuantizedMultiplierSmallerThanOne::RoundingDivideByPOT] (declared in
    ConvImpl.hpp, adapted from gemmlowp, defined elsewhere).  An arithmetic
    right shift that rounds halves away from zero. *)
Definition RoundingDivideByPOT (x exponent : Z) : Z :=
  let mask := Z.shiftl 1 exponent - 1 in
  let remainder := Z.land x mask in
  let threshold := Z.shiftr mask 1 + (if x <? 0 then 1 else 0) in
  Z.shiftr x exponent + (if threshold <? remainder then 1 else 0).

(** Modelled from the spec: the body of
    [QuantizedMultiplierSmallerThanOne::operator*] (declared in ConvImpl.hpp,
    defined elsewhere): the doubling high multiply by the significand, then
    the rounding right shift. *)
Definition QuantizedMultiplierSmallerThanOne_mul
    (q : QuantizedMultiplierSmallerThanOne) (rhs : Z) : Z :=
  let x := SaturatingRoundingDoublingHighMul (m_Multiplier q) rhs in
  RoundingDivideByPOT x (m_RightShift q).

(** ** Shapes and the queue descriptor *)

(** A four-dimensional shape, batch x channel x height x width;
    [dimK s] is [s.GetShape()[K]]. *)
Record TensorShape : Set := {
  dim0 : Z;
  dim1 : Z;
  dim2 : Z;
  dim3 : Z
}.

(** The fields of the convolution descriptor that the kernel reads. *)
Record Convolution2dDescriptor : Set := {
  m_PadTop : Z;
  m_PadLeft : Z;
  m_StrideY : Z;
  m_StrideX : Z;
  m_BiasEnabled : bool
}.

(** What the kernel takes from its [ConvData]: the shapes of [m_Inputs[0]],
    [m_Outputs[0]] and [m_Weight], and [m_Parameters]. *)
Record ConvData : Set := {
  inputInfo0 : TensorShape;
  outputInfo0 : TensorShape;
  filterInfo : TensorShape;
  m_Parameters : Convolution2dDescriptor
}.

Definition shape_ok (s : TensorShape) : Prop :=
  is_uint (dim0 s) /\ is_uint (dim1 s) /\ is_uint (dim2 s) /\ is_uint (dim3 s).

Definition params_ok (p : Convolution2dDescriptor) : Prop :=
  is_uint (m_PadTop p) /\ is_uint (m_PadLeft p) /\
  is_uint (m_StrideY p) /\ is_uint (m_StrideX p).

(** The descriptor holds [unsigned int]s. *)
Definition data_ok (d : ConvData) : Prop :=
  shape_ok (inputInfo0 d) /\ shape_ok (outputInfo0 d) /\
  shape_ok (filterInfo d) /\ params_ok (m_Parameters d).

(** ** The kernel *)

Section ConvImpl.

(** The scales are [float]s; the constructor of the multiplier is defined
    in a file that is not among the sources. *)
Variable float : Type.
Variable float_mul : float -> float -> float.
Variable float_div : float -> float -> float.
(** [x != 0.0f] *)
Variable float_nonzero : float -> bool.
Variable QuantizedMultiplierSmallerThanOne_new :
  float -> outcome QuantizedMultiplierSmallerThanOne.

Variable data : ConvData.
Variable inputData : list Z.
Variable inputScale : float.
Variable inputOffset : Z.
Variable filterData : list Z.
Variable filterScale : float.
Variable filterOffset : Z.
(** [None] is the null pointer. *)
Variable biasData : option (list Z).
Variable outputScale : float.
Variable outputOffset : Z.
Variable depthwise : bool.

Definition depthMult : Z := if depthwise then dim0 (filterInfo data) else 1.
Definition channelsInput : Z := dim1 (filterInfo data).
Definition channelsOutput : Z :=
  if depthwise then channelsInput *u depthMult else dim0 (filterInfo data).

Definition batchSize : Z := dim0 (outputInfo0 data).
Definition heightOutput : Z := dim2 (outputInfo0 data).
Definition widthOutput : Z := dim3 (outputInfo0 data).
Definition heightInput : Z := dim2 (inputInfo0 data).
Definition widthInput : Z := dim3 (inputInfo0 data).

Definition heightFilter : Z := dim2 (filterInfo data).
Definition widthFilter : Z := dim3 (filterInfo data).

Definition paddingTop : Z := m_PadTop (m_Parameters data).
Definition paddingLeft : Z := m_PadLeft (m_Parameters data).
Definition hStride : Z := m_StrideY (m_Parameters data).
Definition xStride : Z := m_StrideX (m_Parameters data).

(** Lines 116-129: the index into the filter. *)
Definition filterIndex
    (cOutput cInput depthwiseMultiplierIdx yFilter xFilter : Z) : Z :=
  if depthwise
  then depthwiseMultiplierIdx *u widthFilter *u heightFilter *u channelsInput +u
       cInput *u widthFilter *u heightFilter +u
       yFilter *u widthFilter +u
       xFilter
  else cOutput *u widthFilter *u heightFilter *u channelsInput +u
       cInput *u widthFilter *u heightFilter +u
       yFilter *u widthFilter +u
       xFilter.

(** Lines 139-140: "check if we're in the padding". *)
Definition inPadding (yInput xInput : Z) : bool :=
  (yInput <? paddingTop) || (heightInput +u paddingTop <=? yInput) ||
  (xInput <? paddingLeft) || (widthInput +u paddingLeft <=? xInput).

(** Lines 146-149: the index into the input. *)
Definition inputIndex (batchIdx cInput yInput xInput : Z) : Z :=
  batchIdx *u widthInput *u heightInput *u channelsInput +u
  widthInput *u heightInput *u cInput +u
  widthInput *u (yInput -u paddingTop) +u
  xInput -u paddingLeft.

(** Lines 136-151: the input operand of one multiply-accumulate. *)
Definition inputValueAt (batchIdx cInput yInput xInput : Z) : outcome Z :=
  if inPadding yInput xInput
  then Ok 0
  else v ← read inputData (inputIndex batchIdx cInput yInput xInput);
       int32_result (v - inputOffset).

(** Lines 111-152: the body of the innermost loop. *)
Definition macStep
    (batchIdx cOutput yOutput xOutput cInput depthwiseMultiplierIdx yFilter xFilter : Z)
    (sum : Z) : outcome Z :=
  let filterIndex :=
    filterIndex cOutput cInput depthwiseMultiplierIdx yFilter xFilter in
  f ← read filterData filterIndex;
  filterValue ← int32_result (f - filterOffset);
  let yInput := yOutput *u hStride +u yFilter in
  let xInput := xOutput *u xStride +u xFilter in
  inputValue ← inputValueAt batchIdx cInput yInput xInput;
  product ← int32_result (filterValue * inputValue);
  int32_result (sum + product).

(** Lines 107-154: the two loops over the kernel window. *)
Definition windowLoop
    (batchIdx cOutput yOutput xOutput cInput depthwiseMultiplierIdx : Z)
    (sum : Z) : outcome Z :=
  for_loop heightFilter (fun yFilter sum =>
    for_loop widthFilter (fun xFilter sum =>
      macStep batchIdx cOutput yOutput xOutput cInput depthwiseMultiplierIdx
              yFilter xFilter sum) sum) sum.

(** Lines 98-155: the loop over [cInput], whose variable the depthwise
    branch assigns inside the body; one unit of fuel per evaluation of the
    loop test. *)
Fixpoint cInputLoop (fuel : nat) (batchIdx cOutput yOutput xOutput : Z)
    (cInput : Z) (sum : Z) : outcome Z :=
  match fuel with
  | O => Err OutOfFuel
  | S fuel' =>
    if cInput <? (if depthwise then 1 else channelsInput)
    then
      '(cInput, depthwiseMultiplierIdx) ←
        (if depthwise
         then if depthMult =? 0
              then Err UndefinedBehaviour
              else Ok (cOutput / depthMult, cOutput mod depthMult)
         else Ok (cInput, 0));
      sum ← windowLoop batchIdx cOutput yOutput xOutput
              cInput depthwiseMultiplierIdx sum;
      cInputLoop fuel' batchIdx cOutput yOutput xOutput (cInput +u 1) sum
    else Ok sum
  end.

Definition cInputFuel : nat := S (S (Z.to_nat channelsInput)).

(** Lines 94-155: the accumulator of one output element before the bias. *)
Definition accumulate (batchIdx cOutput yOutput xOutput : Z) : outcome Z :=
  cInputLoop cInputFuel batchIdx cOutput yOutput xOutput 0 0.

(** Lines 157-160. *)
Definition addBias (cOutput : Z) (sum : Z) : outcome Z :=
  if m_BiasEnabled (m_Parameters data)
  then match biasData with
       | Some bias => b ← read bias cOutput; int32_result (sum + b)
       | None => Err UndefinedBehaviour
       end
  else Ok sum.

(** Lines 162-172. *)
Definition requantize (sum : Z) : outcome Z :=
  if float_nonzero outputScale
  then
    let multiplier := float_div (float_mul inputScale filterScale) outputScale in
    q ← QuantizedMultiplierSmallerThanOne_new multiplier;
    sum ← int32_result (QuantizedMultiplierSmallerThanOne_mul q sum + outputOffset);
    Ok (Z.min (Z.max sum 0) 255)
  else Ok sum.

(** Lines 174-177: the index into the output. *)
Definition outputIndex (batchIdx cOutput yOutput xOutput : Z) : Z :=
  batchIdx *u widthOutput *u heightOutput *u channelsOutput +u
  widthOutput *u heightOutput *u cOutput +u
  widthOutput *u yOutput +u
  xOutput.

(** Lines 93-177, right-hand side: the value stored for one output
    element. *)
Definition outputElement (batchIdx cOutput yOutput xOutput : Z) : outcome Z :=
  sum ← accumulate batchIdx cOutput yOutput xOutput;
  sum ← addBias cOutput sum;
  sum ← requantize sum;
  numeric_cast_uint8 sum.

(** Lines 85-181: the loop nest over the output elements. *)
Definition convLoops (outputData : list Z) : outcome (list Z) :=
  for_loop batchSize (fun batchIdx outputData =>
    for_loop channelsOutput (fun cOutput outputData =>
      for_loop heightOutput (fun yOutput outputData =>
        for_loop widthOutput (fun xOutput outputData =>
          v ← outputElement batchIdx cOutput yOutput xOutput;
          write outputData (outputIndex batchIdx cOutput yOutput xOutput) v)
        outputData) outputData) outputData) outputData.

(** Lines 47-182. *)
Definition ConvImpl (outputData : list Z) : outcome (list Z) :=
  if negb (m_BiasEnabled (m_Parameters data)) || bool_decide (biasData <> None)
  then convLoops outputData
  else Err AssertionFailure.

End ConvImpl.

(** ** Exact rationals in place of [float], for running the kernel *)

Definition Q_nonzero (q : Q) : bool := negb (Qeq_bool q 0).

Fixpoint Q_normalise (fuel : nat) (q : Q) (shift : Z) : Q * Z :=
  match fuel with
  | O => (q, shift)
  | S fuel' =>
    if Qle_bool (1 # 2) q then (q, shift)
    else Q_normalise fuel' (q * 2)%Q (shift + 1)
  end.

(** Rounding to the nearest integer, halves away from zero as [std::round]. *)
Definition Q_round (q : Q) : Z :=
  let n := Qnum q in
  let d := Zpos (Qden q) in
  if 0 <=? n then (2 * n + d) / (2 * d) else - ((2 * (- n) + d) / (2 * d)).

(** Modelled from the spec: the constructor
    [QuantizedMultiplierSmallerThanOne(float)] (declared in ConvImpl.hpp,
    defined elsewhere), here on exact rationals: a multiplier is split
    into a significand in [2^30, 2^31) and a right shift that is not
    negative, [multiplier ~ significand / 2^31 / 2^shift]; a multiplier
    outside (0,1], and 1 itself, for which no such pair exists, fails an
    assertion. *)
Definition Q_QuantizedMultiplierSmallerThanOne_new (multiplier : Q)
  : outcome QuantizedMultiplierSmallerThanOne :=
  if Qle_bool multiplier 0 || negb (Qle_bool multiplier 1)
  then Err AssertionFailure
  else
    let '(q, shift) :=
      Q_normalise (S (Pos.to_nat (Pos.size (Qden multiplier)))) multiplier 0 in
    let qFixed := Q_round (q * (2 ^ 31 # 1))%Q in
    let '(qFixed, shift) :=
      if qFixed =? 2 ^ 31 then (qFixed / 2, shift - 1) else (qFixed, shift) in
    if shift <? 0 then Err AssertionFailure
    else Ok {| m_Multiplier := qFixed; m_RightShift := shift |}.

(** [ConvImpl] with rational scales. *)
Definition ConvImplQ :=
  ConvImpl Q Qmult Qdiv Q_nonzero Q_QuantizedMultiplierSmallerThanOne_new.

Definition outputElementQ :=
  outputElement Q Qmult Qdiv Q_nonzero Q_QuantizedMultiplierSmallerThanOne_new.

(** ** Sample jobs *)

Definition shape (n c h w : Z) : TensorShape :=
  {| dim0 := n; dim1 := c; dim2 := h; dim3 := w |}.

(** A 1x1 filter over a 2x2 single-channel image, stride 1, no padding,
    no bias. *)
Definition identityJob : ConvData :=
  {| inputInfo0 := shape 1 1 2 2;
     outputInfo0 := shape 1 1 2 2;
     filterInfo := shape 1 1 1 1;
     m_Parameters := {| m_PadTop := 0; m_PadLeft := 0;
                        m_StrideY := 1; m_StrideX := 1;
                        m_BiasEnabled := false |} |}.

(** A 2x2 kernel over a 2x2 image of two channels padded by two rows and two
    columns, bias enabled: the window of output element (0,0) lies in the
    padding altogether.  The filter shape reads as depth multiplier 1 in
    depthwise mode and as one output channel in standard mode. *)
Definition paddedJob : ConvData :=
  {| inputInfo0 := shape 1 2 2 2;
     outputInfo0 := shape 1 2 5 5;
     filterInfo := shape 1 2 2 2;
     m_Parameters := {| m_PadTop := 2; m_PadLeft := 2;
                        m_StrideY := 1; m_StrideX := 1;
                        m_BiasEnabled := true |} |}.

Definition paddedInput : list Z := [11; 12; 13; 14; 21; 22; 23; 24].
Definition paddedFilter : list Z := [1; 2; 3; 4; 5; 6; 7; 8].
Definition paddedBias : list Z := [300; -40].

(** ** Vocabulary of the statements *)

(** Congruence modulo 2^32, so that inner wrap-arounds can be rewritten
    away under [+], [-] and [*]. *)
Definition cong32 (a b : Z) : Prop := u32 a = u32 b.

(** The offset of element [(n, c, y, x)] in an NCHW buffer of shape
    [N x C x H x W]. *)
Definition nchw (C H W n c y x : Z) : Z := n * W * H * C + c * W * H + y * W + x.

(** The number of elements of a tensor. *)
Definition numElements (s : TensorShape) : Z := dim0 s * dim1 s * dim2 s * dim3 s.

(** The coordinate lies in the image once the padding is taken off. *)
Definition insideInput (data : ConvData) (yInput xInput : Z) : Prop :=
  0 <= yInput - paddingTop data < heightInput data /\
  0 <= xInput - paddingLeft data < widthInput data.

(** The filter element of a window position can be read and its offset
    subtracted. *)
Definition filterValueOk (data : ConvData) (filterData : list Z) (filterOffset : Z)
    (depthwise : bool) (cOutput cInput depthwiseMultiplierIdx yFilter xFilter : Z) : Prop :=
  exists f,
    read filterData
      (filterIndex data depthwise cOutput cInput depthwiseMultiplierIdx yFilter xFilter) = Ok f /\
    in_int32 (f - filterOffset) = true.

(** Every window position of the output element lies outside the image,
    and the filter can be read there. *)
Definition windowInPadding (data : ConvData) (filterData : list Z) (filterOffset : Z)
    (depthwise : bool) (cOutput yOutput xOutput : Z) : Prop :=
  forall cInput dmIdx yFilter xFilter,
    0 <= cInput < channelsInput data -> 0 <= dmIdx < depthMult data depthwise ->
    0 <= yFilter < heightFilter data -> 0 <= xFilter < widthFilter data ->
    ~ insideInput data (yOutput *u hStride data +u yFilter)
                       (xOutput *u xStride data +u xFilter) /\
    filterValueOk data filterData filterOffset depthwise cOutput cInput dmIdx yFilter xFilter.

(** The accumulator of an output element when the requantization starts:
    the sum over the window, then the bias. *)
Definition rawAccumulator (data : ConvData) (inputData : list Z) (inputOffset : Z)
    (filterData : list Z) (filterOffset : Z) (biasData : option (list Z))
    (depthwise : bool) (batchIdx cOutput yOutput xOutput : Z) : outcome Z :=
  sum ← accumulate data inputData inputOffset filterData filterOffset depthwise
          batchIdx cOutput yOutput xOutput;
  addBias data biasData cOutput sum.

(** What a run of stores has done to the output buffer: [out'] is [out]
    with the value of every element whose coordinates satisfy [P] stored at
    the element's index, and nothing else changed. *)
Definition Wrote (elem : Z -> Z -> Z -> Z -> outcome Z) (idx : Z -> Z -> Z -> Z -> Z)
    (P : Z -> Z -> Z -> Z -> Prop) (out out' : list Z) : Prop :=
  length out' = length out /\
  (forall b c y x, P b c y x ->
     exists v, elem b c y x = Ok v /\ out' !! Z.to_nat (idx b c y x) = Some v) /\
  (forall i : nat,
     (forall b c y x, P b c y x -> Z.to_nat (idx b c y x) <> i) -> out' !! i = out !! i).

(** The coordinates of the output elements of a job. *)
Definition inOutput (data : ConvData) (depthwise : bool) (b c y x : Z) : Prop :=
  0 <= b < batchSize data /\ 0 <= c < channelsOutput data depthwise /\
  0 <= y < heightOutput data /\ 0 <= x < widthOutput data.

(** The number of output elements the loop nest visits. *)
Definition outputCount (data : ConvData) (depthwise : bool) : Z :=
  batchSize data * channelsOutput data depthwise * heightOutput data * widthOutput data.

(** Channel [c] of an NCHW tensor of shape [N x C x H x W], [HW = H * W],
    as the tensor of shape [N x 1 x H x W]: its element [i] is element
    [(i / HW, c, i mod HW)] of the whole. *)
Definition channelSlice (N C HW c : Z) (buf : list Z) : list Z :=
  (fun i : Z => default 0 (buf !! Z.to_nat ((i / HW * C + c) * HW + i mod HW)))
    <$> seqZ 0 (N * HW).

(** The job of convolving one channel on its own: every shape of [d] with
    its channel dimension set to one. *)
Definition perChannelJob (d : ConvData) : ConvData :=
  {| inputInfo0 := shape (dim0 (inputInfo0 d)) 1 (dim2 (inputInfo0 d)) (dim3 (inputInfo0 d));
     outputInfo0 := shape (dim0 (outputInfo0 d)) 1 (dim2 (outputInfo0 d)) (dim3 (outputInfo0 d));
     filterInfo := shape 1 1 (dim2 (filterInfo d)) (dim3 (filterInfo d));
     m_Parameters := m_Parameters d |}.

(** The buffers of the convolution of channel [c] on its own: the channel's
    slice of the input, of the depthwise filter (shape
    [1 x C x kH x kW]) and of the bias. *)
Definition inputChannel (d : ConvData) (inputData : list Z) (c : Z) : list Z :=
  channelSlice (dim0 (inputInfo0 d)) (channelsInput d)
    (heightInput d * widthInput d) c inputData.

Definition filterChannel (d : ConvData) (filterData : list Z) (c : Z) : list Z :=
  channelSlice 1 (channelsInput d) (heightFilter d * widthFilter d) c filterData.

Definition biasChannel (d : ConvData) (biasData : option (list Z)) (c : Z)
  : option (list Z) :=
  channelSlice 1 (channelsInput d) 1 c <$> biasData.

(** Channel [c] of an output of [batch x C x Hout x Wout] elements. *)
Definition outputChannel (d : ConvData) (outputData : list Z) (c : Z) : list Z :=
  channelSlice (batchSize d) (channelsInput d)
    (heightOutput d * widthOutput d) c outputData.

(** Two tensors of shape [N x 1 x H x W], [HW = H * W], concatenated along
    the channel dimension into one of shape [N x 2 x H x W]: in every batch
    the block of [r0] comes first, the block of [r1] second. *)
Definition concatChannels (N HW : Z) (r0 r1 : list Z) : list Z :=
  (fun i : Z =>
     let b := i / (2 * HW) in
     let r := i mod (2 * HW) in
     if r <? HW
     then default 0 (r0 !! Z.to_nat (b * HW + r))
     else default 0 (r1 !! Z.to_nat (b * HW + (r - HW))))
    <$> seqZ 0 (N * (2 * HW)).

(** ** The accumulator as a sum *)

(** [f lo + f (lo+1) + ... + f (lo+k-1)] *)
Fixpoint sum_from (k : nat) (lo : Z) (f : Z -> Z) : Z :=
  match k with
  | O => 0
  | S k' => f lo + sum_from k' (lo + 1) f
  end.

Definition sumZ (n : Z) (f : Z -> Z) : Z := sum_from (Z.to_nat n) 0 f.

(** The filter operand of a window position: the element at the position's
    filter index less the filter's zero point. *)
Definition filterOperand (data : ConvData) (filterData : list Z) (filterOffset : Z)
    (depthwise : bool) (cOutput cInput depthwiseMultiplierIdx yFilter xFilter : Z) : Z :=
  default 0 (filterData !! Z.to_nat
    (filterIndex data depthwise cOutput cInput depthwiseMultiplierIdx yFilter xFilter))
  - filterOffset.

(** The input operand of a window position: zero in the padding, else the
    element at the position's input index less the input's zero point. *)
Definition inputOperand (data : ConvData) (inputData : list Z) (inputOffset : Z)
    (batchIdx cInput yInput xInput : Z) : Z :=
  if inPadding data yInput xInput then 0
  else default 0 (inputData !! Z.to_nat (inputIndex data batchIdx cInput yInput xInput))
       - inputOffset.

(** The product one window position adds. *)
Definition macTerm (data : ConvData) (inputData : list Z) (inputOffset : Z)
    (filterData : list Z) (filterOffset : Z) (depthwise : bool)
    (batchIdx cOutput yOutput xOutput cInput depthwiseMultiplierIdx yFilter xFilter : Z) : Z :=
  filterOperand data filterData filterOffset depthwise
    cOutput cInput depthwiseMultiplierIdx yFilter xFilter *
  inputOperand data inputData inputOffset batchIdx cInput
    (yOutput *u hStride data +u yFilter) (xOutput *u xStride data +u xFilter).

(** The sum of the products over the kernel window of one input channel. *)
Definition windowSum (data : ConvData) (inputData : list Z) (inputOffset : Z)
    (filterData : list Z) (filterOffset : Z) (depthwise : bool)
    (batchIdx cOutput yOutput xOutput cInput depthwiseMultiplierIdx : Z) : Z :=
  sumZ (heightFilter data) (fun yFilter =>
    sumZ (widthFilter data) (fun xFilter =>
      macTerm data inputData inputOffset filterData filterOffset depthwise
        batchIdx cOutput yOutput xOutput cInput depthwiseMultiplierIdx yFilter xFilter)).

(** The sum an output element accumulates: over the window of its one
    input channel in depthwise mode, over the windows of all input channels
    in standard mode. *)
Definition accumulatorSum (data : ConvData) (inputData : list Z) (inputOffset : Z)
    (filterData : list Z) (filterOffset : Z) (depthwise : bool)
    (batchIdx cOutput yOutput xOutput : Z) : Z :=
  if depthwise
  then windowSum data inputData inputOffset filterData filterOffset true
         batchIdx cOutput yOutput xOutput
         (cOutput / depthMult data true) (cOutput mod depthMult data true)
  else sumZ (channelsInput data) (fun cInput =>
         windowSum data inputData inputOffset filterData filterOffset false
           batchIdx cOutput yOutput xOutput cInput 0).

(** The number of products an output element accumulates. *)
Definition macCount (data : ConvData) (depthwise : bool) : Z :=
  (if depthwise then 1 else channelsInput data) * (heightFilter data * widthFilter data).

(** The elements of an unsigned 8-bit tensor. *)
Definition quantizedTensor (buf : list Z) : Prop :=
  Forall (fun v => 0 <= v <= 255) buf.

(** The input and filter buffers hold the tensors the shapes describe, and
    the shapes agree on the input channels and the batches. *)
Definition buffersFit (data : ConvData) (inputData filterData : list Z) : Prop :=
  dim1 (inputInfo0 data) = channelsInput data /\
  batchSize data <= dim0 (inputInfo0 data) /\
  numElements (inputInfo0 data) < UINT_MODULUS /\
  numElements (inputInfo0 data) <= Z.of_nat (length inputData) /\
  numElements (filterInfo data) < UINT_MODULUS /\
  numElements (filterInfo data) <= Z.of_nat (length filterData).

(** The leading coordinate the filter index is formed with is within the
    filter's first dimension. *)
Definition filterLeadOk (data : ConvData) (depthwise : bool) (cOutput dmIdx : Z) : Prop :=
  if depthwise then 0 <= dmIdx < dim0 (filterInfo data)
  else 0 <= cOutput < dim0 (filterInfo data).

(** * The classifier test case: [InferenceTest.inl]

    [ClassifierTestCase::ProcessResult] and the members of
    [ClassifierTestCaseProvider] that build a test case and hold the
    statistics.  The element type [DataType] of the model's output and its
    [operator<] are kept abstract; [resultMap] is keyed by [float], which is
    the [DataType] that [ClassifierInferenceTestMain] instantiates (line
    291), so the keys are compared as the elements are.  A test case holds references into its
    provider, so [ProcessResult] runs on the provider's state.  What is
    logged is kept as records, not as text. *)

(** The enumerators of [TestCaseResult] that the file returns; the enum is
    declared in InferenceTest.hpp. *)
Module TestCaseResult.
Inductive t : Set := Ok | Failed.
End TestCaseResult.

(** [boost::numeric_cast<unsigned int>] of a [std::ptrdiff_t]. *)
Definition numeric_cast_uint (z : Z) : outcome Z :=
  if (0 <=? z) && (z <? UINT_MODULUS) then Ok z else Err BadNumericCast.

(** The members of [ClassifierTestCaseProvider] that the test cases refer
    to. *)
Record ClassifierTestCaseProvider : Set := {
  m_NumInferences : Z;
  m_NumCorrectInferences : Z;
  m_ValidationPredictions : list Z;
  m_ValidationPredictionsOut : list Z;
  m_ValidationFileOut : String.string
}.

(** Lines 115-122: the constructor's initial statistics; the vectors and
    the file name are default-constructed. *)
Definition ClassifierTestCaseProvider_new : ClassifierTestCaseProvider :=
  {| m_NumInferences := 0;
     m_NumCorrectInferences := 0;
     m_ValidationPredictions := [];
     m_ValidationPredictionsOut := [];
     m_ValidationFileOut := String.EmptyString |}.

Definition string_empty (s : String.string) : bool :=
  match s with
  | String.EmptyString => true
  | String.String _ _ => false
  end.

Definition vector_empty {A : Type} (v : list A) : bool :=
  match v with
  | [] => true
  | _ :: _ => false
  end.

Section ClassifierTestCase.

Variable DataType : Type.
(** [operator<] on [DataType]. *)
Variable less : DataType -> DataType -> bool.
Variable InputType : Type.

(** The members of a test case: the label, the id, the input handed to the
    model, and whether [m_ValidationPredictionsOut] points to the provider's
    vector ([true]) or is null ([false]). *)
Record ClassifierTestCase : Type := {
  m_Label : Z;
  m_TestCaseId : Z;
  m_ModelInput : list InputType;
  m_ValidationPredictionsOutSet : bool
}.

Inductive LogRecord : Type :=
| LogPredictionValues (testCaseId : Z)
| LogTop (rank : Z) (index : Z) (confidence : DataType)
| LogIncorrect (testCaseId prediction label : Z)
| LogValidationMismatch (testCaseId prediction expected : Z).

(** [resultMap[key] = index] on a [std::map] kept as its sequence of
    entries in ascending key order: an entry with an equivalent key gets the
    new index, else a new entry is put in its place. *)
Fixpoint map_assign (key : DataType) (index : Z) (m : list (DataType * Z))
  : list (DataType * Z) :=
  match m with
  | [] => [(key, index)]
  | (k, v) :: m' =>
    if less key k then (key, index) :: (k, v) :: m'
    else if less k key then (k, v) :: map_assign key index m'
    else (k, index) :: m'
  end.

(** Lines 60-64: [for (const auto & o : output) resultMap[o] = index++;]
    with [int index]. *)
Fixpoint fill_resultMap (output : list DataType) (index : Z) (resultMap : list (DataType * Z))
  : outcome (list (DataType * Z)) :=
  match output with
  | [] => Ok resultMap
  | o :: output' =>
    let resultMap := map_assign o index resultMap in
    index ← int32_result (index + 1);
    fill_resultMap output' index resultMap
  end.

(** Lines 69-75: the five greatest keys, read from [rbegin()] on. *)
Definition log_top (resultMap : list (DataType * Z)) : list LogRecord :=
  imap (fun i entry => LogTop (Z.of_nat i + 1) (snd entry) (fst entry))
       (take 5 (reverse resultMap)).

(** [std::max_element] from [largest] on: the position moves only to an
    element that [largest] is less than. *)
Fixpoint max_element_from (largest : nat) (largestValue : DataType) (first : nat)
    (range : list DataType) : nat :=
  match range with
  | [] => largest
  | o :: range' =>
    if less largestValue o
    then max_element_from first o (S first) range'
    else max_element_from largest largestValue (S first) range'
  end.

(** [std::distance(output.begin(), std::max_element(output.begin(),
    output.end()))]; on an empty range [max_element] returns the end. *)
Definition max_element_distance (output : list DataType) : nat :=
  match output with
  | [] => 0%nat
  | o :: range => max_element_from 0 o 1 range
  end.

(** Lines 53-111. *)
Definition ProcessResult (this : ClassifierTestCase) (m_IterationCount : Z)
    (output : list DataType) (provider : ClassifierTestCaseProvider)
  : outcome (TestCaseResult.t * ClassifierTestCaseProvider * list LogRecord) :=
  let testCaseId := m_TestCaseId this in
  resultMap ← fill_resultMap output 0 [];
  let log := LogPredictionValues testCaseId :: log_top resultMap in
  prediction ← numeric_cast_uint (Z.of_nat (max_element_distance output));
  if (m_IterationCount =? 0) && negb (prediction =? m_Label this)
  then Ok (TestCaseResult.Failed, provider,
           log ++ [LogIncorrect testCaseId prediction (m_Label this)])
  else
    mismatch ←
      (if vector_empty (m_ValidationPredictions provider) then Ok None
       else expected ← read (m_ValidationPredictions provider) testCaseId;
            Ok (if negb (prediction =? expected) then Some expected else None));
    match mismatch with
    | Some expected =>
      Ok (TestCaseResult.Failed, provider,
          log ++ [LogValidationMismatch testCaseId prediction expected])
    | None =>
      let validationPredictionsOut :=
        if m_ValidationPredictionsOutSet this
        then m_ValidationPredictionsOut provider ++ [prediction]
        else m_ValidationPredictionsOut provider in
      numInferences ← int32_result (m_NumInferences provider + 1);
      numCorrectInferences ←
        (if prediction =? m_Label this
         then int32_result (m_NumCorrectInferences provider + 1)
         else Ok (m_NumCorrectInferences provider));
      Ok (TestCaseResult.Ok,
          {| m_NumInferences := numInferences;
             m_NumCorrectInferences := numCorrectInferences;
             m_ValidationPredictions := m_ValidationPredictions provider;
             m_ValidationPredictionsOut := validationPredictionsOut;
             m_ValidationFileOut := m_ValidationFileOut provider |},
          log)
    end.

(** Lines 166-185: the test case of an id, or [None] for the null pointer
    when the database has no data for it ([GetTestCaseData] returns a label
    and an input image, or null). *)
Definition GetTestCase (GetTestCaseData : Z -> option (Z * list InputType))
    (provider : ClassifierTestCaseProvider) (testCaseId : Z)
  : option ClassifierTestCase :=
  match GetTestCaseData testCaseId with
  | None => None
  | Some (label, inputImage) =>
    Some {| m_Label := label;
            m_TestCaseId := testCaseId;
            m_ModelInput := inputImage;
            m_ValidationPredictionsOutSet :=
              negb (string_empty (m_ValidationFileOut provider)) |}
  end.

End ClassifierTestCase.

(** The statistics of a provider are consistent: the correct inferences
    are among the inferences, and the predictions kept for the validation
    file are one per inference when the file was asked for, none
    otherwise. *)
Definition stats_consistent (p : ClassifierTestCaseProvider) : Prop :=
  0 <= m_NumCorrectInferences p <= m_NumInferences p /\
  if string_empty (m_ValidationFileOut p)
  then m_ValidationPredictionsOut p = []
  else Z.of_nat (length (m_ValidationPredictionsOut p)) = m_NumInferences p.

(** Two values are equivalent for [operator<]: neither is less than the
    other. *)
Definition equivalent {DataType : Type} (less : DataType -> DataType -> bool)
    (a b : DataType) : Prop :=
  less a b = false /\ less b a = false.

(** The keys of a map's entries go strictly up. *)
Fixpoint keys_ascending {DataType : Type} (less : DataType -> DataType -> bool)
    (m : list (DataType * Z)) : Prop :=
  match m with
  | [] => True
  | (k, _) :: m' => Forall (fun e => less k (fst e) = true) m' /\ keys_ascending less m'
  end.

(** What [resultMap] holds once the elements [pre] of the output have been
    assigned: every entry's index is the last position of an element
    equivalent to its key, and every element has its entry. *)
Definition resultMap_of {DataType : Type} (less : DataType -> DataType -> bool)
    (pre : list DataType) (m : list (DataType * Z)) : Prop :=
  keys_ascending less m /\
  (forall k v, (k, v) ∈ m ->
     0 <= v /\
     (exists x, pre !! Z.to_nat v = Some x /\ equivalent less x k) /\
     (forall j x, (Z.to_nat v < j)%nat -> pre !! j = Some x -> ~ equivalent less x k)) /\
  (forall j x, pre !! j = Some x -> exists k v, (k, v) ∈ m /\ equivalent less x k).

(** ** Sample runs of the classifier test case *)

(** [paddedJob] with an output tensor of height zero. *)
Definition emptyJob : ConvData :=
  {| inputInfo0 := shape 1 2 2 2;
     outputInfo0 := shape 1 2 0 5;
     filterInfo := shape 1 2 2 2;
     m_Parameters := {| m_PadTop := 2; m_PadLeft := 2;
                        m_StrideY := 1; m_StrideX := 1;
                        m_BiasEnabled := true |} |}.

(** An output whose greatest value 7 is at the positions 1 and 2. *)
Definition sampleOutput : list Z := [3; 7; 7; 1].

(** The one-letter file name [p]. *)
Definition sampleFileName : String.string :=
  String.String (Ascii.Ascii false false false false true true true false)
    String.EmptyString.

(** A provider after three inferences, two of them correct, that reads and
    writes validation predictions. *)
Definition sampleProvider : ClassifierTestCaseProvider :=
  {| m_NumInferences := 3;
     m_NumCorrectInferences := 2;
     m_ValidationPredictions := [0; 4; 1];
     m_ValidationPredictionsOut := [0; 4; 1];
     m_ValidationFileOut := sampleFileName |}.

(** A database with the one test case 2, of label 1. *)
Definition sampleDatabase (testCaseId : Z) : option (Z * list Z) :=
  if testCaseId =? 2 then Some (1, [0]) else None.

Definition sampleTestCase : ClassifierTestCase Z :=
  {| m_Label := 1; m_TestCaseId := 2; m_ModelInput := [0];
     m_ValidationPredictionsOutSet := true |}.

(** The same test case with label 2. *)
Definition wrongTestCase : ClassifierTestCase Z :=
  {| m_Label := 2; m_TestCaseId := 2; m_ModelInput := [0];
     m_ValidationPredictionsOutSet := true |}.

(** The same test case with the id 5, which the three validation predictions
    of [sampleProvider] do not reach. *)
Definition strayTestCase : ClassifierTestCase Z :=
  {| m_Label := 1; m_TestCaseId := 5; m_ModelInput := [0];
     m_ValidationPredictionsOutSet := true |}.

(** A test case of label 0 that keeps no prediction. *)
Definition zeroTestCase : ClassifierTestCase Z :=
  {| m_Label := 0; m_TestCaseId := 2; m_ModelInput := [0];
     m_ValidationPredictionsOutSet := false |}.

(** ** The kernel window as a sum, and further sample jobs *)

(** The sum of the products over the kernel window of one input channel,
    the filter element of a window position [(yFilter, xFilter)] being the
    one at [index yFilter xFilter] less the filter's zero point. *)
Definition windowProducts (data : ConvData) (inputData : list Z) (inputOffset : Z)
    (filterData : list Z) (filterOffset : Z) (index : Z -> Z -> Z)
    (batchIdx cInput yOutput xOutput : Z) : Z :=
  sumZ (heightFilter data) (fun yFilter =>
    sumZ (widthFilter data) (fun xFilter =>
      (default 0 (filterData !! Z.to_nat (index yFilter xFilter)) - filterOffset) *
      inputOperand data inputData inputOffset batchIdx cInput
        (yOutput *u hStride data +u yFilter) (xOutput *u xStride data +u xFilter))).

(** A bias of INT32_MAX for channel 0 of [paddedJob]. *)
Definition overflowBias : list Z := [2147483647; -40].

(** [identityJob] with the bias enabled. *)
Definition biasedJob : ConvData :=
  {| inputInfo0 := shape 1 1 2 2;
     outputInfo0 := shape 1 1 2 2;
     filterInfo := shape 1 1 1 1;
     m_Parameters := {| m_PadTop := 0; m_PadLeft := 0;
                        m_StrideY := 1; m_StrideX := 1;
                        m_BiasEnabled := true |} |}.

(** * Properties *)

(** ** The doubling high multiply *)

Lemma srdhm_comm (a b : Z) :
  SaturatingRoundingDoublingHighMul a b = SaturatingRoundingDoublingHighMul b a.
Proof.
  unfold SaturatingRoundingDoublingHighMul.
  rewrite (Z.mul_comm b a).
  destruct (Z.eqb_spec a b) as [->|Hab].
  - rewrite Z.eqb_refl. reflexivity.
  - destruct (Z.eqb_spec b a) as [Hba|_]; [congruence|reflexivity].
Qed.

(** Away from the saturating pair the truncating division with its
    sign-dependent nudge is the floor of [(a*b + 2^30) / 2^31]. *)
Lemma srdhm_floor (a b : Z) :
  (a =? b) && (a =? INT32_MIN) = false ->
  SaturatingRoundingDoublingHighMul a b = (a * b + 2 ^ 30) / 2 ^ 31.
Proof.
  intros Hno. unfold SaturatingRoundingDoublingHighMul. rewrite Hno.
  destruct (Z.leb_spec 0 (a * b)) as [Hpos|Hneg].
  - apply Z.quot_div_nonneg; lia.
  - generalize dependent (a * b). intros p Hneg.
    change (2 ^ 31) with 2147483648. change (2 ^ 30) with 1073741824.
    rewrite <- (Z.opp_involutive (p + (1 - 1073741824))) at 1.
    rewrite Z.quot_opp_l by lia.
    rewrite Z.quot_div_nonneg by lia.
    Z.to_euclidean_division_equations. lia.
Qed.

Lemma srdhm_in_int32 (a b : Z) :
  in_int32 a = true -> in_int32 b = true ->
  (a =? b) && (a =? INT32_MIN) = false ->
  in_int32 ((a * b + 2 ^ 30) / 2 ^ 31) = true.
Proof.
  unfold in_int32, INT32_MIN, INT32_MAX.
  change (2 ^ 31) with 2147483648. change (2 ^ 30) with 1073741824.
  intros Ha Hb Hno.
  apply andb_true_iff in Ha as [Ha1 Ha2]. apply andb_true_iff in Hb as [Hb1 Hb2].
  apply Z.leb_le in Ha1, Ha2, Hb1, Hb2.
  assert (Hpair : a <> -2147483648 \/ b <> -2147483648).
  { destruct (Z.eqb_spec a b) as [->|Hab]; simpl in Hno.
    - apply Z.eqb_neq in Hno. now left.
    - lia. }
  assert (Hprod : -4611686016279904256 <= a * b <= 4611686016279904256) by nia.
  apply andb_true_iff. split; apply Z.leb_le.
  - apply Z.div_le_lower_bound; lia.
  - apply Z.lt_succ_r. apply Z.div_lt_upper_bound; lia.
Qed.

(** C7: SaturatingRoundingDoublingHighMul is commutative; at
    (INT32_MIN, INT32_MIN) it yields INT32_MAX; for every other pair of
    int32 operands it is the high 32 bits of the doubled product
    [2*a*b] after adding the rounding constant [2^31], and that value is an
    int32, so the pair named is the only one that saturates. *)
Theorem srdhm_commutative_saturating_rounded :
  (forall a b : Z,
      SaturatingRoundingDoublingHighMul a b = SaturatingRoundingDoublingHighMul b a) /\
  SaturatingRoundingDoublingHighMul INT32_MIN INT32_MIN = INT32_MAX /\
  (forall a b : Z,
      in_int32 a = true -> in_int32 b = true ->
      ~ (a = INT32_MIN /\ b = INT32_MIN) ->
      SaturatingRoundingDoublingHighMul a b = (2 * (a * b) + 2 ^ 31) / 2 ^ 32 /\
      in_int32 (SaturatingRoundingDoublingHighMul a b) = true /\
      - 2 ^ 30 <= a * b - 2 ^ 31 * SaturatingRoundingDoublingHighMul a b < 2 ^ 30).
Proof.
  split; [exact srdhm_comm|]. split; [reflexivity|].
  intros a b Ha Hb Hpair.
  assert (Hno : (a =? b) && (a =? INT32_MIN) = false).
  { destruct (Z.eqb_spec a b) as [->|Hab]; simpl; [|reflexivity].
    apply Z.eqb_neq. intros ->. apply Hpair. split; reflexivity. }
  rewrite (srdhm_floor a b Hno).
  split; [|split].
  - change (2 ^ 32) with (2 * 2 ^ 31).
    replace (2 * (a * b) + 2 ^ 31) with (2 * (a * b + 2 ^ 30)) by (change (2 ^ 31) with (2 * 2 ^ 30); lia).
    rewrite Z.div_mul_cancel_l by lia. reflexivity.
  - apply srdhm_in_int32; assumption.
  - change (2 ^ 31) with 2147483648. change (2 ^ 30) with 1073741824.
    generalize dependent (a * b). intros p.
    Z.to_euclidean_division_equations. lia.
Qed.

(** ** The rounding right shift and the multiplier *)

(** Shifting by zero changes nothing. *)
Lemma RoundingDivideByPOT_zero (x : Z) : RoundingDivideByPOT x 0 = x.
Proof.
  unfold RoundingDivideByPOT. cbv zeta. change (Z.shiftl 1 0 - 1) with 0.
  rewrite Z.land_0_r, Z.shiftr_0_r. change (Z.shiftr 0 1) with 0.
  destruct (x <? 0);
    [change (0 + 1 <? 0) with false|change (0 + 0 <? 0) with false];
    cbv iota; lia.
Qed.

(** Halves are rounded away from zero. *)
Example RoundingDivideByPOT_halves :
  RoundingDivideByPOT 5 1 = 3 /\ RoundingDivideByPOT (-5) 1 = -3 /\
  RoundingDivideByPOT 6 2 = 2 /\ RoundingDivideByPOT (-6) 2 = -2 /\
  RoundingDivideByPOT 5 2 = 1 /\ RoundingDivideByPOT (-5) 2 = -1.
Proof. repeat split; reflexivity. Qed.

(** Multiplying 10 by the multiplier of 1/2. *)
Example multiply_by_half :
  QuantizedMultiplierSmallerThanOne_mul {| m_Multiplier := 2 ^ 30; m_RightShift := 0 |} 10 = 5.
Proof. reflexivity. Qed.

(** The rounding shift moves its operand towards zero or leaves it. *)
Lemma RoundingDivideByPOT_bounds (x exponent : Z) :
  0 <= exponent ->
  Z.min x 0 <= RoundingDivideByPOT x exponent <= Z.max x 0.
Proof.
  intros He. unfold RoundingDivideByPOT. cbv zeta.
  rewrite Z.shiftl_1_l.
  replace (2 ^ exponent - 1) with (Z.ones exponent) by (rewrite Z.ones_equiv; lia).
  rewrite Z.land_ones, Z.shiftr_div_pow2 by assumption.
  assert (HP : 0 < 2 ^ exponent) by (apply Z.pow_pos_nonneg; lia).
  pose proof (Z.div_mod x (2 ^ exponent) ltac:(lia)) as Hdm.
  pose proof (Z.mod_pos_bound x (2 ^ exponent) HP) as Hr.
  assert (Ht : 0 <= Z.shiftr (Z.ones exponent) 1).
  { apply Z.shiftr_nonneg. rewrite Z.ones_equiv. lia. }
  set (P := 2 ^ exponent) in *. set (q := x / P) in *. set (r := x mod P) in *.
  set (t := Z.shiftr (Z.ones exponent) 1) in *.
  destruct (Z.ltb_spec x 0) as [Hneg|Hpos].
  - assert (Hq : q <= -1) by (unfold q; apply Z.lt_succ_r, Z.div_lt_upper_bound; lia).
    assert (Hq' : x <= q) by nia.
    destruct (t + 1 <? r); lia.
  - assert (Hq : 0 <= q) by (unfold q; apply Z.div_pos; lia).
    destruct (Z.ltb_spec (t + 0) r) as [Hlt|Hge]; [|nia].
    assert (q + 1 <= x) by nia. lia.
Qed.

(** So does the doubling high multiply by a significand that is not
    negative. *)
Lemma srdhm_bounds (m x : Z) :
  0 <= m <= INT32_MAX ->
  Z.min x 0 <= SaturatingRoundingDoublingHighMul m x <= Z.max x 0.
Proof.
  intros Hm. rewrite srdhm_floor.
  2:{ apply andb_false_iff. right. apply Z.eqb_neq. unfold INT32_MIN. lia. }
  unfold INT32_MAX in Hm. change (2 ^ 31) with 2147483648 in *. change (2 ^ 30) with 1073741824.
  destruct (Z.le_gt_cases 0 x) as [Hpos|Hneg].
  - assert (0 <= m * x <= 2147483647 * x) by nia.
    split.
    + rewrite Z.min_r by lia. apply Z.div_pos; lia.
    + rewrite Z.max_l by lia. apply Z.lt_succ_r, Z.div_lt_upper_bound; lia.
  - assert (2147483647 * x <= m * x <= 0) by nia.
    split.
    + rewrite Z.min_l by lia. apply Z.div_le_lower_bound; lia.
    + rewrite Z.max_r by lia. apply Z.lt_succ_r, Z.div_lt_upper_bound; lia.
Qed.

(** A multiplier with such a significand and a shift that is not negative
    never enlarges its operand. *)
Lemma multiplier_shrinks (q : QuantizedMultiplierSmallerThanOne) (x : Z) :
  0 <= m_Multiplier q <= INT32_MAX -> 0 <= m_RightShift q ->
  Z.min x 0 <= QuantizedMultiplierSmallerThanOne_mul q x <= Z.max x 0.
Proof.
  intros Hm Hs. unfold QuantizedMultiplierSmallerThanOne_mul. cbv zeta.
  pose proof (srdhm_bounds _ x Hm) as H1.
  pose proof (RoundingDivideByPOT_bounds
                (SaturatingRoundingDoublingHighMul (m_Multiplier q) x) _ Hs) as H2.
  lia.
Qed.

(** ** Unsigned arithmetic *)

Lemma u32_small (z : Z) : is_uint z -> u32 z = z.
Proof. intros H. apply Z.mod_small. exact H. Qed.

Lemma u32_is_uint (z : Z) : is_uint (u32 z).
Proof. apply Z.mod_pos_bound. reflexivity. Qed.

#[local] Instance cong32_equiv : Equivalence cong32.
Proof.
  split.
  - intros a. reflexivity.
  - intros a b H. symmetry. exact H.
  - intros a b c H1 H2. unfold cong32 in *. congruence.
Qed.

#[local] Instance cong32_add : Proper (cong32 ==> cong32 ==> cong32) Z.add.
Proof.
  intros a a' Ha b b' Hb. unfold cong32, u32 in *.
  rewrite (Z.add_mod a b), (Z.add_mod a' b') by discriminate. now rewrite Ha, Hb.
Qed.

#[local] Instance cong32_sub : Proper (cong32 ==> cong32 ==> cong32) Z.sub.
Proof.
  intros a a' Ha b b' Hb. unfold cong32, u32 in *.
  rewrite (Zminus_mod a b), (Zminus_mod a' b'). now rewrite Ha, Hb.
Qed.

#[local] Instance cong32_mul : Proper (cong32 ==> cong32 ==> cong32) Z.mul.
Proof.
  intros a a' Ha b b' Hb. unfold cong32, u32 in *.
  rewrite (Z.mul_mod a b), (Z.mul_mod a' b') by discriminate. now rewrite Ha, Hb.
Qed.

Lemma cong32_u32 (a : Z) : cong32 (u32 a) a.
Proof. unfold cong32, u32. apply Z.mod_mod. discriminate. Qed.

(** Proves [e = u32 e'] for an unsigned expression [e] whose value without
    wrap-around is [e'], up to ring identities. *)
Ltac u32_out :=
  unfold uadd, usub, umul;
  match goal with
  | |- u32 ?a = u32 ?b => change (cong32 a b)
  end;
  rewrite ?cong32_u32;
  match goal with
  | |- cong32 ?a ?b => replace a with b by ring
  end;
  reflexivity.

Lemma mul_add_bound (a b A B : Z) :
  0 <= a <= A - 1 -> 0 <= b < B -> 0 <= a * B + b <= A * B - 1.
Proof.
  intros Ha Hb.
  assert (H1 : 0 <= a * B) by (apply Z.mul_nonneg_nonneg; lia).
  assert (H2 : a * B <= (A - 1) * B) by (apply Z.mul_le_mono_nonneg_r; lia).
  rewrite Z.mul_sub_distr_r in H2. lia.
Qed.

Lemma nchw_bound (N C H W n c y x : Z) :
  0 <= n < N -> 0 <= c < C -> 0 <= y < H -> 0 <= x < W ->
  0 <= nchw C H W n c y x < N * C * H * W.
Proof.
  intros Hn Hc Hy Hx. unfold nchw.
  assert (E : n * W * H * C + c * W * H + y * W + x = ((n * C + c) * H + y) * W + x) by ring.
  rewrite E.
  pose proof (mul_add_bound n c N C ltac:(lia) Hc) as H1.
  pose proof (mul_add_bound _ y _ H H1 Hy) as H2.
  pose proof (mul_add_bound _ x _ W H2 Hx) as H3.
  lia.
Qed.

Lemma mul_add_inj (a b a' b' B : Z) :
  0 <= b < B -> 0 <= b' < B -> a * B + b = a' * B + b' -> a = a' /\ b = b'.
Proof.
  intros Hb Hb' E.
  assert (Ha : a = a').
  { destruct (Z.lt_trichotomy a a') as [Hlt|[Heq|Hgt]]; [exfalso|exact Heq|exfalso].
    - assert ((a + 1) * B <= a' * B) by (apply Z.mul_le_mono_nonneg_r; lia). lia.
    - assert ((a' + 1) * B <= a * B) by (apply Z.mul_le_mono_nonneg_r; lia). lia. }
  subst a'. split; [reflexivity|lia].
Qed.

Lemma nchw_inj (C H W n c y x n' c' y' x' : Z) :
  0 <= c < C -> 0 <= y < H -> 0 <= x < W ->
  0 <= c' < C -> 0 <= y' < H -> 0 <= x' < W ->
  nchw C H W n c y x = nchw C H W n' c' y' x' ->
  n = n' /\ c = c' /\ y = y' /\ x = x'.
Proof.
  intros Hc Hy Hx Hc' Hy' Hx'. unfold nchw. intros E.
  assert (E1 : ((n * C + c) * H + y) * W + x = ((n' * C + c') * H + y') * W + x') by lia.
  apply mul_add_inj in E1 as [E2 ->]; [|assumption..].
  apply mul_add_inj in E2 as [E3 ->]; [|assumption..].
  apply mul_add_inj in E3 as [-> ->]; [|assumption..].
  tauto.
Qed.

(** ** Outcomes and loops *)

Lemma bind_Ok {A B : Type} (a : A) (f : A -> outcome B) : (Ok a ≫= f) = f a.
Proof. reflexivity. Qed.

Lemma bind_Ok_r {A : Type} (m : outcome A) : (m ≫= fun a => Ok a) = m.
Proof. destruct m; reflexivity. Qed.

Lemma bind_Ok_inv {A B : Type} (m : outcome A) (f : A -> outcome B) (b : B) :
  (m ≫= f) = Ok b -> exists a, m = Ok a /\ f a = Ok b.
Proof. destruct m as [a|e]; [eauto|discriminate]. Qed.

Lemma int32_result_Ok (z : Z) : in_int32 z = true -> int32_result z = Ok z.
Proof. unfold int32_result. now intros ->. Qed.

Lemma for_from_ext {S : Type} (k : nat) (from : Z) (f g : Z -> S -> outcome S) (s : S) :
  (forall i s, from <= i < from + Z.of_nat k -> f i s = g i s) ->
  for_from k from f s = for_from k from g s.
Proof.
  revert from s. induction k as [|k IH]; intros from s Hfg; [reflexivity|].
  simpl. rewrite Hfg by lia. destruct (g from s) as [s'|e]; [|reflexivity].
  simpl. apply IH. intros i s0 Hi. apply Hfg. lia.
Qed.

Lemma for_loop_ext {S : Type} (n : Z) (f g : Z -> S -> outcome S) (s : S) :
  (forall i s, 0 <= i < n -> f i s = g i s) ->
  for_loop n f s = for_loop n g s.
Proof. intros Hfg. apply for_from_ext. intros i s0 Hi. apply Hfg. lia. Qed.

(** A loop whose body leaves the state alone leaves it alone. *)
Lemma for_from_id {S : Type} (k : nat) (from : Z) (f : Z -> S -> outcome S) (s : S) :
  (forall i, from <= i < from + Z.of_nat k -> f i s = Ok s) ->
  for_from k from f s = Ok s.
Proof.
  revert from. induction k as [|k IH]; intros from Hf; [reflexivity|].
  simpl. rewrite Hf by lia. simpl. apply IH. intros i Hi. apply Hf. lia.
Qed.

Lemma for_loop_id {S : Type} (n : Z) (f : Z -> S -> outcome S) (s : S) :
  (forall i, 0 <= i < n -> f i s = Ok s) -> for_loop n f s = Ok s.
Proof. intros Hf. apply for_from_id. intros i Hi. apply Hf. lia. Qed.

(** ** Index arithmetic of the kernel *)

Section Indices.

Variable data : ConvData.

Lemma filterIndex_depthwise (cOutput cInput depthwiseMultiplierIdx yFilter xFilter : Z) :
  filterIndex data true cOutput cInput depthwiseMultiplierIdx yFilter xFilter =
  u32 (nchw (channelsInput data) (heightFilter data) (widthFilter data)
            depthwiseMultiplierIdx cInput yFilter xFilter).
Proof. unfold filterIndex, nchw. u32_out. Qed.

Lemma filterIndex_standard (cOutput cInput depthwiseMultiplierIdx yFilter xFilter : Z) :
  filterIndex data false cOutput cInput depthwiseMultiplierIdx yFilter xFilter =
  u32 (nchw (channelsInput data) (heightFilter data) (widthFilter data)
            cOutput cInput yFilter xFilter).
Proof. unfold filterIndex, nchw. u32_out. Qed.

Lemma inputIndex_nchw (batchIdx cInput yInput xInput : Z) :
  inputIndex data batchIdx cInput yInput xInput =
  u32 (nchw (channelsInput data) (heightInput data) (widthInput data)
            batchIdx cInput (yInput - paddingTop data) (xInput - paddingLeft data)).
Proof. unfold inputIndex, nchw. u32_out. Qed.

Lemma outputIndex_nchw (depthwise : bool) (batchIdx cOutput yOutput xOutput : Z) :
  outputIndex data depthwise batchIdx cOutput yOutput xOutput =
  u32 (nchw (channelsOutput data depthwise) (heightOutput data) (widthOutput data)
            batchIdx cOutput yOutput xOutput).
Proof. unfold outputIndex, nchw. u32_out. Qed.

End Indices.

(** ** The loop over the input channels *)

Section Channels.

Variable data : ConvData.
Variable inputData : list Z.
Variable inputOffset : Z.
Variable filterData : list Z.
Variable filterOffset : Z.

Local Abbreviation windowLoop' := (windowLoop data inputData inputOffset filterData filterOffset).
Local Abbreviation cInputLoop' := (cInputLoop data inputData inputOffset filterData filterOffset).
Local Abbreviation accumulate' := (accumulate data inputData inputOffset filterData filterOffset).

Hypothesis data_wf : data_ok data.

Lemma channelsInput_uint : is_uint (channelsInput data).
Proof. unfold channelsInput. destruct data_wf as (_ & _ & (_ & H & _) & _). exact H. Qed.

Lemma depthMult_pos (cOutput : Z) :
  0 <= cOutput < channelsOutput data true -> 0 < depthMult data true < UINT_MODULUS.
Proof.
  unfold channelsOutput, depthMult. intros Hc.
  destruct data_wf as (_ & _ & ((H0 & H0') & _) & _).
  split; [|exact H0'].
  destruct (Z.eq_dec (dim0 (filterInfo data)) 0) as [E|NE]; [|lia].
  rewrite E in Hc. unfold umul in Hc. rewrite Z.mul_0_r in Hc.
  change (u32 0) with 0 in Hc. lia.
Qed.

Lemma cInputLoop_S (depthwise : bool) (fuel : nat)
    (batchIdx cOutput yOutput xOutput cInput sum : Z) :
  cInputLoop' depthwise (S fuel) batchIdx cOutput yOutput xOutput cInput sum =
  if cInput <? (if depthwise then 1 else channelsInput data)
  then
    '(cInput, depthwiseMultiplierIdx) ←
      (if depthwise
       then if depthMult data depthwise =? 0
            then Err UndefinedBehaviour
            else Ok (cOutput / depthMult data depthwise, cOutput mod depthMult data depthwise)
       else Ok (cInput, 0));
    sum ← windowLoop' depthwise batchIdx cOutput yOutput xOutput
            cInput depthwiseMultiplierIdx sum;
    cInputLoop' depthwise fuel batchIdx cOutput yOutput xOutput (cInput +u 1) sum
  else Ok sum.
Proof. reflexivity. Qed.

(** In standard mode the loop visits the input channels from [cInput] on,
    one after the other. *)
Lemma cInputLoop_standard (k fuel : nat) (batchIdx cOutput yOutput xOutput cInput sum : Z) :
  0 <= cInput -> cInput + Z.of_nat k = channelsInput data -> (k < fuel)%nat ->
  cInputLoop' false fuel batchIdx cOutput yOutput xOutput cInput sum =
  for_from k cInput
    (fun cInput sum => windowLoop' false batchIdx cOutput yOutput xOutput cInput 0 sum) sum.
Proof.
  pose proof channelsInput_uint as [_ HC].
  revert fuel cInput sum. induction k as [|k IH]; intros fuel cInput sum H0 Hk Hfuel.
  - destruct fuel as [|fuel]; [lia|]. rewrite cInputLoop_S. cbv iota.
    destruct (Z.ltb_spec cInput (channelsInput data)); [lia|reflexivity].
  - destruct fuel as [|fuel]; [lia|]. rewrite cInputLoop_S. cbv iota.
    destruct (Z.ltb_spec cInput (channelsInput data)); [|lia].
    rewrite bind_Ok. cbn [for_from].
    destruct (windowLoop' false _ _ _ _ _ _ _) as [sum'|e]; [|reflexivity].
    rewrite !bind_Ok. unfold uadd. rewrite u32_small by (unfold is_uint; lia).
    apply IH; lia.
Qed.

Lemma accumulate_standard (batchIdx cOutput yOutput xOutput : Z) :
  accumulate' false batchIdx cOutput yOutput xOutput =
  for_loop (channelsInput data)
    (fun cInput sum => windowLoop' false batchIdx cOutput yOutput xOutput cInput 0 sum) 0.
Proof.
  pose proof channelsInput_uint as [HC _].
  unfold accumulate, cInputFuel, for_loop.
  apply cInputLoop_standard; lia.
Qed.

(** In depthwise mode the body runs once, for the channel the output
    channel maps to. *)
Lemma accumulate_depthwise (batchIdx cOutput yOutput xOutput : Z) :
  0 <= cOutput < channelsOutput data true ->
  accumulate' true batchIdx cOutput yOutput xOutput =
  windowLoop' true batchIdx cOutput yOutput xOutput
    (cOutput / depthMult data true) (cOutput mod depthMult data true) 0.
Proof.
  intros Hc. pose proof (depthMult_pos _ Hc) as Hd.
  assert (HcU : cOutput < UINT_MODULUS - 1).
  { pose proof (u32_is_uint (channelsInput data * depthMult data true)) as [_ Hu].
    unfold channelsOutput in Hc. fold (depthMult data true) in Hc. unfold umul in Hc. lia. }
  assert (Hq : 0 <= cOutput / depthMult data true <= cOutput).
  { split; [apply Z.div_pos; lia|]. apply Z.div_le_upper_bound; nia. }
  unfold accumulate, cInputFuel. rewrite cInputLoop_S.
  change (0 <? 1) with true. cbv iota.
  destruct (Z.eqb_spec (depthMult data true) 0) as [E|_]; [lia|].
  rewrite bind_Ok.
  destruct (windowLoop' true _ _ _ _ _ _ _) as [sum'|e]; [|reflexivity].
  rewrite bind_Ok, cInputLoop_S.
  unfold uadd. rewrite u32_small by (unfold is_uint; lia).
  destruct (Z.ltb_spec (cOutput / depthMult data true + 1) 1); [lia|reflexivity].
Qed.

End Channels.

(** ** One multiply-accumulate *)

Section Window.

Variable data : ConvData.
Variable inputData : list Z.
Variable inputOffset : Z.
Variable filterData : list Z.
Variable filterOffset : Z.
Variable depthwise : bool.

Local Abbreviation inputValueAt' := (inputValueAt data inputData inputOffset).
Local Abbreviation macStep' := (macStep data inputData inputOffset filterData filterOffset depthwise).
Local Abbreviation windowLoop' := (windowLoop data inputData inputOffset filterData filterOffset depthwise).
Local Abbreviation accumulate' := (accumulate data inputData inputOffset filterData filterOffset depthwise).
Local Abbreviation insideInput' := (insideInput data).
Local Abbreviation filterValueOk' := (filterValueOk data filterData filterOffset depthwise).

Hypothesis data_wf : data_ok data.

Lemma heightInput_uint : is_uint (heightInput data).
Proof. destruct data_wf as ((_ & _ & H & _) & _). exact H. Qed.

Lemma widthInput_uint : is_uint (widthInput data).
Proof. destruct data_wf as ((_ & _ & _ & H) & _). exact H. Qed.

Lemma paddingTop_uint : is_uint (paddingTop data).
Proof. destruct data_wf as (_ & _ & _ & H & _). exact H. Qed.

Lemma paddingLeft_uint : is_uint (paddingLeft data).
Proof. destruct data_wf as (_ & _ & _ & _ & H & _). exact H. Qed.

Lemma u32_le (z : Z) : 0 <= z -> u32 z <= z.
Proof. intros H. apply Z.mod_le; [exact H|reflexivity]. Qed.

(** A coordinate outside the image is one the kernel's test sends to the
    padding branch, also when [heightInput + paddingTop] wraps around. *)
Lemma outside_inPadding (yInput xInput : Z) :
  ~ insideInput' yInput xInput -> inPadding data yInput xInput = true.
Proof.
  pose proof heightInput_uint as [HH _]. pose proof widthInput_uint as [HW _].
  pose proof paddingTop_uint as [HT _]. pose proof paddingLeft_uint as [HL _].
  pose proof (u32_le (heightInput data + paddingTop data) ltac:(lia)).
  pose proof (u32_le (widthInput data + paddingLeft data) ltac:(lia)).
  unfold insideInput, inPadding, uadd. intros Hout.
  rewrite !orb_true_iff, !Z.ltb_lt, !Z.leb_le. lia.
Qed.

(** Conversely the test passes only for coordinates inside the image. *)
Lemma inPadding_false_inside (yInput xInput : Z) :
  inPadding data yInput xInput = false -> insideInput' yInput xInput.
Proof.
  pose proof heightInput_uint as [HH _]. pose proof widthInput_uint as [HW _].
  pose proof paddingTop_uint as [HT _]. pose proof paddingLeft_uint as [HL _].
  pose proof (u32_le (heightInput data + paddingTop data) ltac:(lia)).
  pose proof (u32_le (widthInput data + paddingLeft data) ltac:(lia)).
  unfold insideInput, inPadding, uadd. intros Hin.
  rewrite !orb_false_iff, !Z.ltb_ge, !Z.leb_gt in Hin. lia.
Qed.

Lemma macStep_padding (batchIdx cOutput yOutput xOutput cInput dmIdx yFilter xFilter sum : Z) :
  inPadding data (yOutput *u hStride data +u yFilter) (xOutput *u xStride data +u xFilter) = true ->
  filterValueOk' cOutput cInput dmIdx yFilter xFilter ->
  in_int32 sum = true ->
  macStep' batchIdx cOutput yOutput xOutput cInput dmIdx yFilter xFilter sum = Ok sum.
Proof.
  intros Hpad (f & Hf & Hsub) Hsum. unfold macStep, inputValueAt.
  rewrite Hf, bind_Ok, (int32_result_Ok _ Hsub), bind_Ok, Hpad, bind_Ok.
  rewrite Z.mul_0_r. change (int32_result 0) with (Ok (A:=Z) 0). rewrite bind_Ok.
  rewrite Z.add_0_r. apply int32_result_Ok, Hsum.
Qed.

(** A window that lies in the padding altogether adds nothing. *)
Lemma windowLoop_padding (batchIdx cOutput yOutput xOutput cInput dmIdx sum : Z) :
  (forall yFilter xFilter,
      0 <= yFilter < heightFilter data -> 0 <= xFilter < widthFilter data ->
      inPadding data (yOutput *u hStride data +u yFilter)
                     (xOutput *u xStride data +u xFilter) = true /\
      filterValueOk' cOutput cInput dmIdx yFilter xFilter) ->
  in_int32 sum = true ->
  windowLoop' batchIdx cOutput yOutput xOutput cInput dmIdx sum = Ok sum.
Proof.
  intros Hwin Hsum. unfold windowLoop.
  apply for_loop_id. intros yFilter Hy.
  apply for_loop_id. intros xFilter Hx.
  destruct (Hwin yFilter xFilter Hy Hx) as [Hpad Hf].
  apply macStep_padding; assumption.
Qed.

End Window.

(** ** One output element *)

Section Element.

Variable float : Type.
Variable float_mul : float -> float -> float.
Variable float_div : float -> float -> float.
Variable float_nonzero : float -> bool.
Variable QuantizedMultiplierSmallerThanOne_new :
  float -> outcome QuantizedMultiplierSmallerThanOne.

Variable data : ConvData.
Variable inputData : list Z.
Variable inputScale : float.
Variable inputOffset : Z.
Variable filterData : list Z.
Variable filterScale : float.
Variable filterOffset : Z.
Variable biasData : option (list Z).
Variable outputScale : float.
Variable outputOffset : Z.
Variable depthwise : bool.

Local Abbreviation accumulate' :=
  (accumulate data inputData inputOffset filterData filterOffset depthwise).
Local Abbreviation rawAccumulator' :=
  (rawAccumulator data inputData inputOffset filterData filterOffset biasData depthwise).
Local Abbreviation requantize' :=
  (requantize float float_mul float_div float_nonzero
     QuantizedMultiplierSmallerThanOne_new inputScale filterScale outputScale outputOffset).
Local Abbreviation outputElement' :=
  (outputElement float float_mul float_div float_nonzero
     QuantizedMultiplierSmallerThanOne_new data inputData inputScale inputOffset
     filterData filterScale filterOffset biasData outputScale outputOffset depthwise).
Local Abbreviation convLoops' :=
  (convLoops float float_mul float_div float_nonzero
     QuantizedMultiplierSmallerThanOne_new data inputData inputScale inputOffset
     filterData filterScale filterOffset biasData outputScale outputOffset depthwise).
Local Abbreviation ConvImpl' :=
  (ConvImpl float float_mul float_div float_nonzero
     QuantizedMultiplierSmallerThanOne_new data inputData inputScale inputOffset
     filterData filterScale filterOffset biasData outputScale outputOffset depthwise).

Lemma outputElement_raw (batchIdx cOutput yOutput xOutput : Z) :
  outputElement' batchIdx cOutput yOutput xOutput =
  (sum ← rawAccumulator' batchIdx cOutput yOutput xOutput;
   sum ← requantize' sum;
   numeric_cast_uint8 sum).
Proof.
  unfold outputElement, rawAccumulator.
  destruct (accumulate' _ _ _ _) as [sum|e]; reflexivity.
Qed.

Lemma numeric_cast_uint8_Ok (z : Z) : 0 <= z <= 255 -> numeric_cast_uint8 z = Ok z.
Proof.
  intros H. unfold numeric_cast_uint8.
  destruct (Z.leb_spec 0 z); [|lia]. destruct (Z.leb_spec z 255); [reflexivity|lia].
Qed.

Lemma numeric_cast_uint8_Err (z : Z) :
  ~ 0 <= z <= 255 -> numeric_cast_uint8 z = Err BadNumericCast.
Proof.
  intros H. unfold numeric_cast_uint8.
  destruct (Z.leb_spec 0 z); [|reflexivity]. destruct (Z.leb_spec z 255); [lia|reflexivity].
Qed.

Lemma numeric_cast_uint8_inv (z r : Z) :
  numeric_cast_uint8 z = Ok r -> r = z /\ 0 <= z <= 255.
Proof.
  unfold numeric_cast_uint8.
  destruct (Z.leb_spec 0 z); [|discriminate]. destruct (Z.leb_spec z 255); [|discriminate].
  intros [= <-]. lia.
Qed.

Lemma requantize_zero_scale (sum : Z) :
  float_nonzero outputScale = false -> requantize' sum = Ok sum.
Proof. unfold requantize. now intros ->. Qed.

Lemma requantize_range (sum r : Z) :
  float_nonzero outputScale = true -> requantize' sum = Ok r -> 0 <= r <= 255.
Proof.
  unfold requantize. intros ->. intros H.
  apply bind_Ok_inv in H as (q & _ & H).
  apply bind_Ok_inv in H as (s & _ & [= <-]). lia.
Qed.

(** With [outputScale == 0] the value of an output element is the
    narrowing cast of the raw accumulator (window sum, plus the bias when
    enabled) and nothing else, whatever [outputOffset] and the scales
    are. *)
Lemma passthrough_element (batchIdx cOutput yOutput xOutput : Z) :
  float_nonzero outputScale = false ->
  outputElement' batchIdx cOutput yOutput xOutput =
    (sum ← rawAccumulator' batchIdx cOutput yOutput xOutput; numeric_cast_uint8 sum) /\
  (forall v, outputElement' batchIdx cOutput yOutput xOutput = Ok v ->
             rawAccumulator' batchIdx cOutput yOutput xOutput = Ok v) /\
  (forall acc, rawAccumulator' batchIdx cOutput yOutput xOutput = Ok acc ->
               0 <= acc <= 255 ->
               outputElement' batchIdx cOutput yOutput xOutput = Ok acc).
Proof.
  intros Hzero. rewrite outputElement_raw.
  destruct (rawAccumulator' _ _ _ _) as [acc|e].
  - rewrite !bind_Ok, (requantize_zero_scale _ Hzero), bind_Ok.
    split; [reflexivity|]. split.
    + intros v Hv. apply numeric_cast_uint8_inv in Hv as [-> _]. reflexivity.
    + intros acc' [= <-] Hr. apply numeric_cast_uint8_Ok, Hr.
  - split; [reflexivity|]. split; intros; discriminate.
Qed.

(** With [outputScale != 0] the value of an output element lies in
    [0, 255]; it is the rescaled accumulator plus [outputOffset], clamped to
    that range, wherever that int32 sum is defined, which for an offset in
    [0, 255] and a multiplier below one is every accumulator from INT32_MIN
    up to INT32_MAX - 255. *)
Lemma quantized_element_clamped (batchIdx cOutput yOutput xOutput : Z) :
  float_nonzero outputScale = true ->
  (forall v, outputElement' batchIdx cOutput yOutput xOutput = Ok v -> 0 <= v <= 255) /\
  (forall acc q,
      rawAccumulator' batchIdx cOutput yOutput xOutput = Ok acc ->
      QuantizedMultiplierSmallerThanOne_new
        (float_div (float_mul inputScale filterScale) outputScale) = Ok q ->
      in_int32 (QuantizedMultiplierSmallerThanOne_mul q acc + outputOffset) = true ->
      outputElement' batchIdx cOutput yOutput xOutput =
      Ok (Z.min (Z.max (QuantizedMultiplierSmallerThanOne_mul q acc + outputOffset) 0) 255)) /\
  (forall acc q,
      rawAccumulator' batchIdx cOutput yOutput xOutput = Ok acc ->
      QuantizedMultiplierSmallerThanOne_new
        (float_div (float_mul inputScale filterScale) outputScale) = Ok q ->
      0 <= m_Multiplier q <= INT32_MAX -> 0 <= m_RightShift q ->
      0 <= outputOffset <= 255 ->
      INT32_MIN <= acc <= INT32_MAX - 255 ->
      in_int32 (QuantizedMultiplierSmallerThanOne_mul q acc + outputOffset) = true).
Proof.
  intros Hnz. rewrite outputElement_raw. split; [|split].
  - intros v Hv.
    apply bind_Ok_inv in Hv as (acc & _ & Hv).
    apply bind_Ok_inv in Hv as (r & Hr & Hv).
    apply numeric_cast_uint8_inv in Hv as [-> Hv]. exact Hv.
  - intros acc q Hacc Hq Hin. rewrite Hacc, bind_Ok.
    unfold requantize. rewrite Hnz, Hq, bind_Ok, (int32_result_Ok _ Hin), !bind_Ok.
    apply numeric_cast_uint8_Ok. lia.
  - intros acc q _ _ Hm Hs Hoff Hacc.
    pose proof (multiplier_shrinks q acc Hm Hs) as Hshrink.
    unfold in_int32. apply andb_true_iff. rewrite !Z.leb_le.
    unfold INT32_MIN, INT32_MAX in *. lia.
Qed.

(** C10: the final narrowing never wraps.  With [outputScale != 0] the
    value handed to the cast is already in [0, 255], so the cast to the
    unsigned 8-bit element succeeds and changes nothing; with
    [outputScale == 0] an accumulator outside [0, 255] makes the cast raise
    instead of storing a wrapped value. *)
Theorem narrowing_never_wraps (batchIdx cOutput yOutput xOutput : Z) :
  (float_nonzero outputScale = true ->
   forall sum r, requantize' sum = Ok r ->
                 0 <= r <= 255 /\ numeric_cast_uint8 r = Ok r) /\
  (float_nonzero outputScale = false ->
   forall acc, rawAccumulator' batchIdx cOutput yOutput xOutput = Ok acc ->
               (0 <= acc <= 255 ->
                outputElement' batchIdx cOutput yOutput xOutput = Ok acc) /\
               (~ 0 <= acc <= 255 ->
                outputElement' batchIdx cOutput yOutput xOutput = Err BadNumericCast)).
Proof.
  split.
  - intros Hnz sum r Hr. pose proof (requantize_range _ _ Hnz Hr) as Hrange.
    split; [exact Hrange|]. apply numeric_cast_uint8_Ok, Hrange.
  - intros Hzero acc Hacc. rewrite outputElement_raw, Hacc, bind_Ok.
    rewrite (requantize_zero_scale _ Hzero), bind_Ok. split.
    + apply numeric_cast_uint8_Ok.
    + apply numeric_cast_uint8_Err.
Qed.

(** C8: with the bias enabled and a null bias pointer the kernel stops at
    its assertion, before any output element; when an enabled bias comes with
    a buffer the assertion passes and the loop nest runs, and there the bias
    of the output channel is added to the window sum before the
    requantization. *)
Theorem bias_assertion_and_order :
  (m_BiasEnabled (m_Parameters data) = true -> biasData = None ->
   forall outputData, ConvImpl' outputData = Err AssertionFailure) /\
  ((m_BiasEnabled (m_Parameters data) = true -> biasData <> None) ->
   forall outputData, ConvImpl' outputData = convLoops' outputData) /\
  (m_BiasEnabled (m_Parameters data) = true ->
   forall bias, biasData = Some bias ->
   forall batchIdx cOutput yOutput xOutput,
     outputElement' batchIdx cOutput yOutput xOutput =
     (sum ← accumulate' batchIdx cOutput yOutput xOutput;
      b ← read bias cOutput;
      sum ← int32_result (sum + b);
      sum ← requantize' sum;
      numeric_cast_uint8 sum)).
Proof.
  split; [|split].
  - intros Hen Hnull outputData. unfold ConvImpl. rewrite Hen, Hnull.
    rewrite bool_decide_eq_false_2 by (intros H; now apply H). reflexivity.
  - intros Hpre outputData. unfold ConvImpl.
    destruct (m_BiasEnabled (m_Parameters data)) eqn:Hen; [|reflexivity].
    rewrite bool_decide_eq_true_2 by (now apply Hpre). reflexivity.
  - intros Hen bias Hbias batchIdx cOutput yOutput xOutput.
    unfold outputElement, addBias. rewrite Hen, Hbias.
    destruct (accumulate' _ _ _ _) as [sum|e]; [|reflexivity]. rewrite !bind_Ok.
    destruct (read bias cOutput) as [b|e]; [|reflexivity]. rewrite !bind_Ok.
    reflexivity.
Qed.

End Element.

(** ** Channel mapping and addresses *)

Section Addresses.

Variable data : ConvData.
Variable inputData : list Z.
Variable inputOffset : Z.
Variable filterData : list Z.
Variable filterOffset : Z.

Local Abbreviation inputValueAt' := (inputValueAt data inputData inputOffset).
Local Abbreviation macStep' := (macStep data inputData inputOffset filterData filterOffset).
Local Abbreviation windowLoop' := (windowLoop data inputData inputOffset filterData filterOffset).
Local Abbreviation accumulate' := (accumulate data inputData inputOffset filterData filterOffset).

Hypothesis data_wf : data_ok data.

Lemma filter_dims_uint :
  is_uint (dim0 (filterInfo data)) /\ is_uint (channelsInput data) /\
  is_uint (heightFilter data) /\ is_uint (widthFilter data).
Proof. destruct data_wf as (_ & _ & H & _). exact H. Qed.

(** The channel and the multiplier index a depthwise output channel maps to
    are within the filter's first two dimensions. *)
Lemma depthwise_mapping_bounds (cOutput : Z) :
  0 <= cOutput < channelsOutput data true ->
  0 <= cOutput / depthMult data true < channelsInput data /\
  0 <= cOutput mod depthMult data true < depthMult data true.
Proof.
  intros Hc. pose proof (depthMult_pos data data_wf _ Hc) as Hd.
  pose proof filter_dims_uint as (_ & [HC _] & _).
  assert (Hlt : cOutput < depthMult data true * channelsInput data).
  { unfold channelsOutput in Hc. fold (depthMult data true) in Hc. unfold umul in Hc.
    pose proof (u32_le (channelsInput data * depthMult data true) ltac:(nia)). lia. }
  split.
  - split; [apply Z.div_pos; lia|]. apply Z.div_lt_upper_bound; lia.
  - apply Z.mod_pos_bound. lia.
Qed.

Lemma macStep_unfold (depthwise : bool)
    (batchIdx cOutput yOutput xOutput cInput dmIdx yFilter xFilter sum i : Z) :
  filterIndex data depthwise cOutput cInput dmIdx yFilter xFilter = i ->
  macStep' depthwise batchIdx cOutput yOutput xOutput cInput dmIdx yFilter xFilter sum =
  (f ← read filterData i;
   filterValue ← int32_result (f - filterOffset);
   inputValue ← inputValueAt' batchIdx cInput
                  (yOutput *u hStride data +u yFilter) (xOutput *u xStride data +u xFilter);
   product ← int32_result (filterValue * inputValue);
   int32_result (sum + product)).
Proof. intros <-. reflexivity. Qed.

(** The steps of the channel loop: in depthwise mode the accumulator of
    an output element is the window loop of the single input channel
    [cOutput / depthMult], taken with the multiplier index
    [cOutput % depthMult]; in standard mode the window loops of all input
    channels follow one another; and the filter index of a window position
    is the unwrapped formula. *)
Lemma channel_mapping_steps
    (batchIdx cOutput yOutput xOutput : Z) :
  numElements (filterInfo data) < UINT_MODULUS ->
  (0 <= cOutput < channelsOutput data true ->
   let inChannel := cOutput / depthMult data true in
   let multiplierIdx := cOutput mod depthMult data true in
   accumulate' true batchIdx cOutput yOutput xOutput =
     windowLoop' true batchIdx cOutput yOutput xOutput inChannel multiplierIdx 0 /\
   0 <= inChannel < channelsInput data /\
   forall yFilter xFilter sum,
     0 <= yFilter < heightFilter data -> 0 <= xFilter < widthFilter data ->
     let i := multiplierIdx * widthFilter data * heightFilter data * channelsInput data +
              inChannel * widthFilter data * heightFilter data +
              yFilter * widthFilter data + xFilter in
     filterIndex data true cOutput inChannel multiplierIdx yFilter xFilter = i /\
     macStep' true batchIdx cOutput yOutput xOutput inChannel multiplierIdx yFilter xFilter sum =
     (f ← read filterData i;
      filterValue ← int32_result (f - filterOffset);
      inputValue ← inputValueAt' batchIdx inChannel
                     (yOutput *u hStride data +u yFilter) (xOutput *u xStride data +u xFilter);
      product ← int32_result (filterValue * inputValue);
      int32_result (sum + product))) /\
  (0 <= cOutput < channelsOutput data false ->
   accumulate' false batchIdx cOutput yOutput xOutput =
     for_loop (channelsInput data)
       (fun inChannel sum =>
          windowLoop' false batchIdx cOutput yOutput xOutput inChannel 0 sum) 0 /\
   forall inChannel yFilter xFilter sum,
     0 <= inChannel < channelsInput data ->
     0 <= yFilter < heightFilter data -> 0 <= xFilter < widthFilter data ->
     let i := cOutput * widthFilter data * heightFilter data * channelsInput data +
              inChannel * widthFilter data * heightFilter data +
              yFilter * widthFilter data + xFilter in
     filterIndex data false cOutput inChannel 0 yFilter xFilter = i /\
     macStep' false batchIdx cOutput yOutput xOutput inChannel 0 yFilter xFilter sum =
     (f ← read filterData i;
      filterValue ← int32_result (f - filterOffset);
      inputValue ← inputValueAt' batchIdx inChannel
                     (yOutput *u hStride data +u yFilter) (xOutput *u xStride data +u xFilter);
      product ← int32_result (filterValue * inputValue);
      int32_result (sum + product))).
Proof.
  intros Hfit. unfold numElements in Hfit.
  fold (channelsInput data) (heightFilter data) (widthFilter data) in Hfit.
  split.
  - intros Hc inChannel multiplierIdx.
    destruct (depthwise_mapping_bounds _ Hc) as [Hin Hm].
    fold inChannel in Hin. fold multiplierIdx in Hm.
    split; [apply accumulate_depthwise; assumption|]. split; [exact Hin|].
    intros yFilter xFilter sum Hy Hx i.
    assert (Hi : filterIndex data true cOutput inChannel multiplierIdx yFilter xFilter = i).
    { rewrite filterIndex_depthwise. apply u32_small.
      pose proof (nchw_bound (depthMult data true) (channelsInput data)
                    (heightFilter data) (widthFilter data) multiplierIdx inChannel
                    yFilter xFilter Hm Hin Hy Hx) as Hb.
      unfold is_uint. fold (nchw (channelsInput data) (heightFilter data) (widthFilter data)
                              multiplierIdx inChannel yFilter xFilter) in i.
      unfold depthMult in Hb. lia. }
    split; [exact Hi|]. apply macStep_unfold, Hi.
  - intros Hc. split; [apply accumulate_standard; assumption|].
    intros inChannel yFilter xFilter sum Hin Hy Hx i.
    assert (Hi : filterIndex data false cOutput inChannel 0 yFilter xFilter = i).
    { rewrite filterIndex_standard. apply u32_small.
      unfold channelsOutput in Hc.
      pose proof (nchw_bound (dim0 (filterInfo data)) (channelsInput data)
                    (heightFilter data) (widthFilter data) cOutput inChannel
                    yFilter xFilter Hc Hin Hy Hx) as Hb.
      unfold is_uint. fold (nchw (channelsInput data) (heightFilter data) (widthFilter data)
                              cOutput inChannel yFilter xFilter) in i.
      lia. }
    split; [exact Hi|]. apply macStep_unfold, Hi.
Qed.

End Addresses.

(** ** Reads inside the image *)

Section InRegion.

Variable data : ConvData.
Variable inputData : list Z.
Variable inputOffset : Z.

Local Abbreviation inputValueAt' := (inputValueAt data inputData inputOffset).

Hypothesis data_wf : data_ok data.

Lemma inside_not_inPadding (yInput xInput : Z) :
  heightInput data + paddingTop data < UINT_MODULUS ->
  widthInput data + paddingLeft data < UINT_MODULUS ->
  insideInput data yInput xInput -> inPadding data yInput xInput = false.
Proof.
  pose proof (heightInput_uint data data_wf) as [HH _].
  pose proof (widthInput_uint data data_wf) as [HW _].
  pose proof (paddingTop_uint data data_wf) as [HT _].
  pose proof (paddingLeft_uint data data_wf) as [HL _].
  intros HnoY HnoX [Hy Hx]. unfold inPadding, uadd.
  rewrite !u32_small by (unfold is_uint; lia).
  rewrite !orb_false_iff, !Z.ltb_ge, !Z.leb_gt. lia.
Qed.

Lemma read_in_bounds (buf : list Z) (i : Z) :
  0 <= i < Z.of_nat (length buf) -> exists v, read buf i = Ok v.
Proof.
  intros Hi. unfold read.
  destruct (buf !! Z.to_nat i) as [v|] eqn:E; [eauto|].
  apply lookup_ge_None in E. lia.
Qed.

(** C9: at a coordinate inside the image the input operand is the element
    at the NCHW offset
    [batchIdx*Win*Hin*Cin + inChannel*Win*Hin + (inRow - padTop)*Win + (inCol - padLeft)]
    minus [inputOffset], computed in the accumulator type; that offset is
    formed without wrap-around and lies within the input tensor, so a buffer
    holding the tensor is read inside its bounds. *)
Theorem in_region_input_address (batchIdx cInput yInput xInput : Z) :
  dim1 (inputInfo0 data) = channelsInput data ->
  numElements (inputInfo0 data) < UINT_MODULUS ->
  heightInput data + paddingTop data < UINT_MODULUS ->
  widthInput data + paddingLeft data < UINT_MODULUS ->
  0 <= batchIdx < dim0 (inputInfo0 data) ->
  0 <= cInput < channelsInput data ->
  insideInput data yInput xInput ->
  let i := batchIdx * widthInput data * heightInput data * channelsInput data +
           cInput * widthInput data * heightInput data +
           (yInput - paddingTop data) * widthInput data +
           (xInput - paddingLeft data) in
  inputIndex data batchIdx cInput yInput xInput = i /\
  0 <= i < numElements (inputInfo0 data) /\
  inputValueAt' batchIdx cInput yInput xInput =
    (v ← read inputData i; int32_result (v - inputOffset)) /\
  (numElements (inputInfo0 data) <= Z.of_nat (length inputData) ->
   exists v, read inputData i = Ok v /\
             inputValueAt' batchIdx cInput yInput xInput = int32_result (v - inputOffset)).
Proof.
  intros HC Hfit HnoY HnoX Hb Hc Hin i.
  pose proof Hin as [Hy Hx].
  pose proof (nchw_bound (dim0 (inputInfo0 data)) (channelsInput data)
                (heightInput data) (widthInput data) batchIdx cInput
                (yInput - paddingTop data) (xInput - paddingLeft data) Hb Hc Hy Hx) as Hbound.
  change (nchw _ _ _ _ _ _ _) with i in Hbound.
  assert (Hnum : dim0 (inputInfo0 data) * channelsInput data *
                 heightInput data * widthInput data = numElements (inputInfo0 data)).
  { unfold numElements. rewrite HC. reflexivity. }
  rewrite Hnum in Hbound.
  assert (Hi : inputIndex data batchIdx cInput yInput xInput = i).
  { rewrite inputIndex_nchw. change (nchw _ _ _ _ _ _ _) with i.
    apply u32_small. unfold is_uint. lia. }
  assert (Hval : inputValueAt' batchIdx cInput yInput xInput =
                 (v ← read inputData i; int32_result (v - inputOffset))).
  { unfold inputValueAt. rewrite (inside_not_inPadding _ _ HnoY HnoX Hin), Hi. reflexivity. }
  split; [exact Hi|]. split; [exact Hbound|]. split; [exact Hval|].
  intros Hlen. destruct (read_in_bounds inputData i ltac:(lia)) as [v Hv].
  exists v. split; [exact Hv|]. rewrite Hval, Hv. reflexivity.
Qed.

End InRegion.

(** ** Windows in the padding *)

Section Padding.

Variable float : Type.
Variable float_mul : float -> float -> float.
Variable float_div : float -> float -> float.
Variable float_nonzero : float -> bool.
Variable QuantizedMultiplierSmallerThanOne_new :
  float -> outcome QuantizedMultiplierSmallerThanOne.

Variable data : ConvData.
Variable inputData : list Z.
Variable inputScale : float.
Variable inputOffset : Z.
Variable filterData : list Z.
Variable filterScale : float.
Variable filterOffset : Z.
Variable biasData : option (list Z).
Variable outputScale : float.
Variable outputOffset : Z.
Variable depthwise : bool.

Local Abbreviation macStep' :=
  (macStep data inputData inputOffset filterData filterOffset depthwise).
Local Abbreviation accumulate' :=
  (accumulate data inputData inputOffset filterData filterOffset depthwise).
Local Abbreviation rawAccumulator' :=
  (rawAccumulator data inputData inputOffset filterData filterOffset biasData depthwise).
Local Abbreviation outputElement' :=
  (outputElement float float_mul float_div float_nonzero
     QuantizedMultiplierSmallerThanOne_new data inputData inputScale inputOffset
     filterData filterScale filterOffset biasData outputScale outputOffset depthwise).
Local Abbreviation filterValueOk' := (filterValueOk data filterData filterOffset depthwise).

Local Abbreviation windowInPadding' := (windowInPadding data filterData filterOffset depthwise).

Hypothesis data_wf : data_ok data.

Lemma accumulate_padding (batchIdx cOutput yOutput xOutput : Z) :
  0 <= cOutput < channelsOutput data depthwise ->
  windowInPadding' cOutput yOutput xOutput ->
  accumulate' batchIdx cOutput yOutput xOutput = Ok 0.
Proof.
  unfold windowInPadding. intros Hc Hwin.
  destruct depthwise.
  - rewrite accumulate_depthwise by assumption.
    destruct (depthwise_mapping_bounds data data_wf _ Hc) as [Hin Hm].
    apply windowLoop_padding; [|reflexivity].
    intros yFilter xFilter Hy Hx.
    destruct (Hwin _ _ yFilter xFilter Hin Hm Hy Hx) as [Hout Hf].
    split; [apply outside_inPadding; assumption|exact Hf].
  - rewrite accumulate_standard by assumption.
    apply for_loop_id. intros cInput HcIn.
    apply windowLoop_padding; [|reflexivity].
    intros yFilter xFilter Hy Hx.
    destruct (Hwin cInput 0 yFilter xFilter HcIn ltac:(unfold depthMult; lia) Hy Hx)
      as [Hout Hf].
    split; [apply outside_inPadding; assumption|exact Hf].
Qed.

(** C1 (amended): a window position whose input coordinate falls outside
    the image adds exactly zero to the accumulator.  Hence, when the whole
    window of an output element lies in the padding, the accumulator after
    the bias step is the bias of the output channel, or zero with the bias
    disabled; with [outputScale == 0] that accumulator is what is stored
    (zero with the bias disabled, the bias itself when it fits the unsigned
    8-bit element). *)
Theorem padding_contributes_zero (batchIdx cOutput yOutput xOutput : Z) :
  (forall cInput dmIdx yFilter xFilter sum,
      ~ insideInput data (yOutput *u hStride data +u yFilter)
                         (xOutput *u xStride data +u xFilter) ->
      filterValueOk' cOutput cInput dmIdx yFilter xFilter ->
      in_int32 sum = true ->
      macStep' batchIdx cOutput yOutput xOutput cInput dmIdx yFilter xFilter sum = Ok sum) /\
  (0 <= cOutput < channelsOutput data depthwise ->
   windowInPadding' cOutput yOutput xOutput ->
   accumulate' batchIdx cOutput yOutput xOutput = Ok 0 /\
   (m_BiasEnabled (m_Parameters data) = false ->
    rawAccumulator' batchIdx cOutput yOutput xOutput = Ok 0 /\
    (float_nonzero outputScale = false ->
     outputElement' batchIdx cOutput yOutput xOutput = Ok 0)) /\
   (m_BiasEnabled (m_Parameters data) = true ->
    forall bias b,
      biasData = Some bias -> read bias cOutput = Ok b -> in_int32 b = true ->
      rawAccumulator' batchIdx cOutput yOutput xOutput = Ok b /\
      (float_nonzero outputScale = false -> 0 <= b <= 255 ->
       outputElement' batchIdx cOutput yOutput xOutput = Ok b))).
Proof.
  split.
  - intros cInput dmIdx yFilter xFilter sum Hout Hf Hsum.
    apply macStep_padding; [apply outside_inPadding| |]; assumption.
  - intros Hc Hwin. pose proof (accumulate_padding batchIdx _ _ _ Hc Hwin) as Hacc.
    split; [exact Hacc|]. split.
    + intros Hdis.
      assert (Hraw : rawAccumulator' batchIdx cOutput yOutput xOutput = Ok 0).
      { unfold rawAccumulator, addBias. rewrite Hacc, Hdis. reflexivity. }
      split; [exact Hraw|]. intros Hzero.
      rewrite outputElement_raw, Hraw, bind_Ok.
      rewrite (requantize_zero_scale _ _ _ _ _ _ _ _ _ _ Hzero). reflexivity.
    + intros Hen bias b Hbias Hread Hb.
      assert (Hraw : rawAccumulator' batchIdx cOutput yOutput xOutput = Ok b).
      { unfold rawAccumulator, addBias. rewrite Hacc, Hen, Hbias, bind_Ok, Hread, bind_Ok.
        apply int32_result_Ok. exact Hb. }
      split; [exact Hraw|]. intros Hzero Hrange.
      rewrite outputElement_raw, Hraw, bind_Ok.
      rewrite (requantize_zero_scale _ _ _ _ _ _ _ _ _ _ Hzero), bind_Ok.
      apply numeric_cast_uint8_Ok. exact Hrange.
Qed.

End Padding.

(** ** Loops that store *)

Lemma for_from_total_len {S : Type} (len : S -> nat) (L : nat) (k : nat) (lo : Z)
    (body : Z -> S -> outcome S) (s : S) :
  (forall i s0, lo <= i < lo + Z.of_nat k -> len s0 = L ->
                exists s1, body i s0 = Ok s1 /\ len s1 = L) ->
  len s = L ->
  exists s', for_from k lo body s = Ok s' /\ len s' = L.
Proof.
  revert lo s. induction k as [|k IH]; intros lo s Hbody Hlen.
  - exists s. split; [reflexivity|exact Hlen].
  - destruct (Hbody lo s ltac:(lia) Hlen) as (s1 & Hs1 & Hlen1).
    cbn [for_from]. rewrite Hs1, bind_Ok.
    apply IH; [|exact Hlen1]. intros i s0 Hi. apply Hbody. lia.
Qed.

Lemma for_from_Ok_inv {S : Type} (k : nat) (lo : Z) (body : Z -> S -> outcome S) (s s' : S) :
  for_from (Datatypes.S k) lo body s = Ok s' ->
  exists s1, body lo s = Ok s1 /\ for_from k (lo + 1) body s1 = Ok s'.
Proof. cbn [for_from]. apply bind_Ok_inv. Qed.

Section StoreLoops.

Variable elem : Z -> Z -> Z -> Z -> outcome Z.
Variable idx : Z -> Z -> Z -> Z -> Z.

Local Abbreviation Wrote' := (Wrote elem idx).

Lemma Wrote_ext (P Q : Z -> Z -> Z -> Z -> Prop) (out out' : list Z) :
  (forall b c y x, P b c y x <-> Q b c y x) -> Wrote' P out out' -> Wrote' Q out out'.
Proof.
  intros HPQ (Hlen & Hin & Hout). split; [exact Hlen|]. split.
  - intros b c y x HQ. apply Hin, HPQ, HQ.
  - intros i Hi. apply Hout. intros b c y x HP. apply Hi, HPQ, HP.
Qed.

Lemma Wrote_nothing (out : list Z) : Wrote' (fun _ _ _ _ => False) out out.
Proof. split; [reflexivity|]. split; [intros b c y x []|reflexivity]. Qed.

(** Two runs one after the other, when the second stores nowhere the
    first has stored. *)
Lemma Wrote_seq (P Q : Z -> Z -> Z -> Z -> Prop) (out out1 out2 : list Z) :
  (forall b c y x b' c' y' x',
      P b c y x -> Q b' c' y' x' -> Z.to_nat (idx b c y x) <> Z.to_nat (idx b' c' y' x')) ->
  Wrote' P out out1 -> Wrote' Q out1 out2 ->
  Wrote' (fun b c y x => P b c y x \/ Q b c y x) out out2.
Proof.
  intros Hdisj (Hlen1 & Hin1 & Hout1) (Hlen2 & Hin2 & Hout2).
  split; [congruence|]. split.
  - intros b c y x [HP|HQ].
    + destruct (Hin1 b c y x HP) as (v & Hv & Hlook). exists v. split; [exact Hv|].
      rewrite Hout2; [exact Hlook|].
      intros b' c' y' x' HQ E. exact (Hdisj _ _ _ _ _ _ _ _ HP HQ (eq_sym E)).
    + apply Hin2, HQ.
  - intros i Hi. transitivity (out1 !! i); [apply Hout2|apply Hout1].
    + intros b c y x HQ. apply Hi. right. exact HQ.
    + intros b c y x HP. apply Hi. left. exact HP.
Qed.

(** A loop whose iterations store disjoint sets of elements stores their
    union. *)
Lemma for_from_Wrote (Q : Z -> Z -> Z -> Z -> Z -> Prop) (k : nat) (lo : Z)
    (body : Z -> list Z -> outcome (list Z)) (out out' : list Z) :
  (forall i j b c y x b' c' y' x',
      lo <= i < j -> j < lo + Z.of_nat k -> Q i b c y x -> Q j b' c' y' x' ->
      Z.to_nat (idx b c y x) <> Z.to_nat (idx b' c' y' x')) ->
  (forall i o o', lo <= i < lo + Z.of_nat k -> body i o = Ok o' -> Wrote' (Q i) o o') ->
  for_from k lo body out = Ok out' ->
  Wrote' (fun b c y x => exists i, lo <= i < lo + Z.of_nat k /\ Q i b c y x) out out'.
Proof.
  revert lo out. induction k as [|k IH]; intros lo out Hdisj Hbody Hrun.
  - injection Hrun as <-.
    apply (Wrote_ext (fun _ _ _ _ => False)); [|apply Wrote_nothing].
    intros b c y x. split; [intros []|intros (i & Hi & _); lia].
  - apply for_from_Ok_inv in Hrun as (out1 & Hfirst & Hrest).
    pose proof (Hbody lo out out1 ltac:(lia) Hfirst) as H1.
    assert (H2 : Wrote' (fun b c y x =>
                   exists i, lo + 1 <= i < lo + 1 + Z.of_nat k /\ Q i b c y x) out1 out').
    { apply IH; [| |exact Hrest].
      - intros i j b c y x b' c' y' x' Hij Hj. apply (Hdisj i j); lia.
      - intros i o o' Hi. apply Hbody. lia. }
    assert (H12 : Wrote' (fun b c y x =>
                    Q lo b c y x \/
                    exists i, lo + 1 <= i < lo + 1 + Z.of_nat k /\ Q i b c y x) out out').
    { apply (Wrote_seq _ _ out out1 out'); [|exact H1|exact H2].
      intros b c y x b' c' y' x' HP (j & Hj & HQ).
      apply (Hdisj lo j); [lia|lia|assumption..]. }
    revert H12. apply Wrote_ext.
    intros b c y x. split.
    + intros [HQ|(i & Hi & HQ)]; [exists lo|exists i]; (split; [lia|assumption]).
    + intros (i & Hi & HQ). destruct (Z.eq_dec i lo) as [->|Hne]; [left; exact HQ|].
      right. exists i. split; [lia|exact HQ].
Qed.

Lemma for_loop_Wrote (Q : Z -> Z -> Z -> Z -> Z -> Prop) (n : Z)
    (body : Z -> list Z -> outcome (list Z)) (out out' : list Z) :
  (forall i j b c y x b' c' y' x',
      0 <= i < j -> j < n -> Q i b c y x -> Q j b' c' y' x' ->
      Z.to_nat (idx b c y x) <> Z.to_nat (idx b' c' y' x')) ->
  (forall i o o', 0 <= i < n -> body i o = Ok o' -> Wrote' (Q i) o o') ->
  for_loop n body out = Ok out' ->
  Wrote' (fun b c y x => exists i, 0 <= i < n /\ Q i b c y x) out out'.
Proof.
  intros Hdisj Hbody Hrun. unfold for_loop in Hrun.
  eapply Wrote_ext; [|eapply (for_from_Wrote Q _ 0 body); [| |exact Hrun]].
  - intros b c y x. split; intros (i & Hi & HQ); exists i; (split; [lia|exact HQ]).
  - intros i j b c y x b' c' y' x' Hij Hj. apply (Hdisj i j); lia.
  - intros i o o' Hi. apply Hbody. lia.
Qed.

(** One store. *)
Lemma store_Wrote (b c y x : Z) (out out' : list Z) :
  0 <= idx b c y x ->
  (v ← elem b c y x; write out (idx b c y x) v) = Ok out' ->
  Wrote' (fun b' c' y' x' => b' = b /\ c' = c /\ y' = y /\ x' = x) out out'.
Proof.
  intros Hidx Hrun. apply bind_Ok_inv in Hrun as (v & Hv & Hw).
  unfold write in Hw. destruct (Z.ltb_spec (idx b c y x) (Z.of_nat (length out))) as [Hlt|]; [|discriminate].
  injection Hw as <-. split; [apply length_insert|]. split.
  - intros b' c' y' x' (-> & -> & -> & ->). exists v. split; [exact Hv|].
    apply list_lookup_insert_eq. lia.
  - intros i Hi. apply list_lookup_insert_ne. apply (Hi b c y x). tauto.
Qed.

End StoreLoops.

(** ** The loop nest over the output *)

Section OutputLoops.

Variable float : Type.
Variable float_mul : float -> float -> float.
Variable float_div : float -> float -> float.
Variable float_nonzero : float -> bool.
Variable QuantizedMultiplierSmallerThanOne_new :
  float -> outcome QuantizedMultiplierSmallerThanOne.

Variable data : ConvData.
Variable inputData : list Z.
Variable inputScale : float.
Variable inputOffset : Z.
Variable filterData : list Z.
Variable filterScale : float.
Variable filterOffset : Z.
Variable biasData : option (list Z).
Variable outputScale : float.
Variable outputOffset : Z.
Variable depthwise : bool.

Local Abbreviation outputElement' :=
  (outputElement float float_mul float_div float_nonzero
     QuantizedMultiplierSmallerThanOne_new data inputData inputScale inputOffset
     filterData filterScale filterOffset biasData outputScale outputOffset depthwise).
Local Abbreviation convLoops' :=
  (convLoops float float_mul float_div float_nonzero
     QuantizedMultiplierSmallerThanOne_new data inputData inputScale inputOffset
     filterData filterScale filterOffset biasData outputScale outputOffset depthwise).
Local Abbreviation outputIndex' := (outputIndex data depthwise).
Local Abbreviation inOutput' := (inOutput data depthwise).
Local Abbreviation Wrote' := (Wrote outputElement' outputIndex').

Local Abbreviation outputCount' := (outputCount data depthwise).

Hypothesis output_fits : outputCount' < UINT_MODULUS.

Lemma outputIndex_exact (b c y x : Z) :
  inOutput' b c y x ->
  outputIndex' b c y x =
    nchw (channelsOutput data depthwise) (heightOutput data) (widthOutput data) b c y x /\
  0 <= outputIndex' b c y x < outputCount'.
Proof.
  intros (Hb & Hc & Hy & Hx).
  pose proof (nchw_bound _ _ _ _ _ _ _ _ Hb Hc Hy Hx) as Hbound.
  change (_ * _ * _ * _) with outputCount' in Hbound.
  rewrite outputIndex_nchw, u32_small by (unfold is_uint; lia). split; [reflexivity|exact Hbound].
Qed.

Lemma outputIndex_inj (b c y x b' c' y' x' : Z) :
  inOutput' b c y x -> inOutput' b' c' y' x' ->
  Z.to_nat (outputIndex' b c y x) = Z.to_nat (outputIndex' b' c' y' x') ->
  b = b' /\ c = c' /\ y = y' /\ x = x'.
Proof.
  intros Hp Hp' E.
  destruct (outputIndex_exact _ _ _ _ Hp) as [E1 B1].
  destruct (outputIndex_exact _ _ _ _ Hp') as [E2 B2].
  assert (E' : outputIndex' b c y x = outputIndex' b' c' y' x') by lia.
  rewrite E1, E2 in E'.
  destruct Hp as (_ & Hc & Hy & Hx), Hp' as (_ & Hc' & Hy' & Hx').
  exact (nchw_inj _ _ _ _ _ _ _ _ _ _ _ Hc Hy Hx Hc' Hy' Hx' E').
Qed.

Lemma xLoop_Wrote (b c y : Z) (out out' : list Z) :
  0 <= b < batchSize data -> 0 <= c < channelsOutput data depthwise ->
  0 <= y < heightOutput data ->
  for_loop (widthOutput data) (fun xOutput outputData =>
    v ← outputElement' b c y xOutput;
    write outputData (outputIndex' b c y xOutput) v) out = Ok out' ->
  Wrote' (fun b' c' y' x' => b' = b /\ c' = c /\ y' = y /\ 0 <= x' < widthOutput data) out out'.
Proof.
  intros Hb Hc Hy Hrun.
  apply (for_loop_Wrote outputElement' outputIndex' (fun i b' c' y' x' => b' = b /\ c' = c /\ y' = y /\ x' = i)) in Hrun.
  - revert Hrun. apply Wrote_ext. intros b' c' y' x'. split.
    + intros (i & Hi & -> & -> & -> & ->). tauto.
    + intros (-> & -> & -> & Hx). exists x'. tauto.
  - intros i j b1 c1 y1 x1 b2 c2 y2 x2 Hij Hj (-> & -> & -> & ->) (-> & -> & -> & ->) E.
    apply outputIndex_inj in E; [lia| |]; unfold inOutput; (repeat split; lia).
  - intros i o o' Hi Hstore. apply store_Wrote in Hstore; [exact Hstore|].
    apply outputIndex_exact. unfold inOutput. lia.
Qed.

Lemma yLoop_Wrote (b c : Z) (out out' : list Z) :
  0 <= b < batchSize data -> 0 <= c < channelsOutput data depthwise ->
  for_loop (heightOutput data) (fun yOutput outputData =>
    for_loop (widthOutput data) (fun xOutput outputData =>
      v ← outputElement' b c yOutput xOutput;
      write outputData (outputIndex' b c yOutput xOutput) v) outputData) out = Ok out' ->
  Wrote' (fun b' c' y' x' =>
            b' = b /\ c' = c /\ 0 <= y' < heightOutput data /\ 0 <= x' < widthOutput data)
         out out'.
Proof.
  intros Hb Hc Hrun.
  apply (for_loop_Wrote outputElement' outputIndex' (fun i b' c' y' x' =>
           b' = b /\ c' = c /\ y' = i /\ 0 <= x' < widthOutput data)) in Hrun.
  - revert Hrun. apply Wrote_ext. intros b' c' y' x'. split.
    + intros (i & Hi & -> & -> & -> & Hx). tauto.
    + intros (-> & -> & Hy & Hx). exists y'. tauto.
  - intros i j b1 c1 y1 x1 b2 c2 y2 x2 Hij Hj (-> & -> & -> & Hx1) (-> & -> & -> & Hx2) E.
    apply outputIndex_inj in E; [lia| |]; unfold inOutput; (repeat split; lia).
  - intros i o o' Hi. apply xLoop_Wrote; assumption.
Qed.

Lemma cLoop_Wrote (b : Z) (out out' : list Z) :
  0 <= b < batchSize data ->
  for_loop (channelsOutput data depthwise) (fun cOutput outputData =>
    for_loop (heightOutput data) (fun yOutput outputData =>
      for_loop (widthOutput data) (fun xOutput outputData =>
        v ← outputElement' b cOutput yOutput xOutput;
        write outputData (outputIndex' b cOutput yOutput xOutput) v) outputData)
      outputData) out = Ok out' ->
  Wrote' (fun b' c' y' x' =>
            b' = b /\ 0 <= c' < channelsOutput data depthwise /\
            0 <= y' < heightOutput data /\ 0 <= x' < widthOutput data)
         out out'.
Proof.
  intros Hb Hrun.
  apply (for_loop_Wrote outputElement' outputIndex' (fun i b' c' y' x' =>
           b' = b /\ c' = i /\ 0 <= y' < heightOutput data /\
           0 <= x' < widthOutput data)) in Hrun.
  - revert Hrun. apply Wrote_ext. intros b' c' y' x'. split.
    + intros (i & Hi & -> & -> & Hy & Hx). tauto.
    + intros (-> & Hc & Hy & Hx). exists c'. tauto.
  - intros i j b1 c1 y1 x1 b2 c2 y2 x2 Hij Hj (-> & -> & Hy1 & Hx1) (-> & -> & Hy2 & Hx2) E.
    apply outputIndex_inj in E; [lia| |]; unfold inOutput; (repeat split; lia).
  - intros i o o' Hi. apply yLoop_Wrote; assumption.
Qed.

(** A run of the loop nest that returns has stored every output element at
    its index and has touched nothing else. *)
Lemma convLoops_Wrote (out out' : list Z) :
  convLoops' out = Ok out' -> Wrote' inOutput' out out'.
Proof.
  intros Hrun. unfold convLoops in Hrun.
  apply (for_loop_Wrote outputElement' outputIndex' (fun i b' c' y' x' =>
           b' = i /\ 0 <= c' < channelsOutput data depthwise /\
           0 <= y' < heightOutput data /\ 0 <= x' < widthOutput data)) in Hrun.
  - revert Hrun. apply Wrote_ext. intros b' c' y' x'. unfold inOutput. split.
    + intros (i & Hi & -> & Hc & Hy & Hx). tauto.
    + intros (Hb & Hc & Hy & Hx). exists b'. tauto.
  - intros i j b1 c1 y1 x1 b2 c2 y2 x2 Hij Hj (-> & Hc1 & Hy1 & Hx1) (-> & Hc2 & Hy2 & Hx2) E.
    apply outputIndex_inj in E; [lia| |]; unfold inOutput; (repeat split; lia).
  - intros i o o' Hi. apply cLoop_Wrote; assumption.
Qed.

(** The loop nest returns when every output element has a value and the
    buffer holds the output tensor. *)
Lemma convLoops_total (out : list Z) :
  (forall b c y x, inOutput' b c y x -> exists v, outputElement' b c y x = Ok v) ->
  outputCount' <= Z.of_nat (length out) ->
  exists out', convLoops' out = Ok out'.
Proof.
  intros Helem Hlen. unfold convLoops, for_loop.
  destruct (for_from_total_len (@length Z) (length out) (Z.to_nat (batchSize data)) 0
              (fun batchIdx outputData =>
                 for_from (Z.to_nat (channelsOutput data depthwise)) 0
                   (fun cOutput outputData =>
                      for_from (Z.to_nat (heightOutput data)) 0
                        (fun yOutput outputData =>
                           for_from (Z.to_nat (widthOutput data)) 0
                             (fun xOutput outputData =>
                                v ← outputElement' batchIdx cOutput yOutput xOutput;
                                write outputData
                                  (outputIndex' batchIdx cOutput yOutput xOutput) v)
                             outputData) outputData) outputData) out) as (out' & Hout' & _);
    [|reflexivity|exists out'; exact Hout'].
  intros b o Hb Ho. apply for_from_total_len; [|exact Ho].
  intros c o1 Hc Ho1. apply for_from_total_len; [|exact Ho1].
  intros y o2 Hy Ho2. apply for_from_total_len; [|exact Ho2].
  intros x o3 Hx Ho3.
  assert (Hin : inOutput' b c y x) by (unfold inOutput; lia).
  destruct (Helem b c y x Hin) as [v Hv].
  destruct (outputIndex_exact _ _ _ _ Hin) as [_ Hidx].
  rewrite Hv, bind_Ok. unfold write.
  destruct (Z.ltb_spec (outputIndex' b c y x) (Z.of_nat (length o3))) as [_|Hge]; [|lia].
  eexists. split; [reflexivity|]. rewrite length_insert. exact Ho3.
Qed.

End OutputLoops.

(** ** Channel slices *)

Lemma channelSlice_length (N C HW c : Z) (buf : list Z) :
  length (channelSlice N C HW c buf) = Z.to_nat (N * HW).
Proof. unfold channelSlice. rewrite length_fmap. apply length_seqZ. Qed.

Lemma channelSlice_lookup (N C HW c : Z) (buf : list Z) (b r : Z) :
  0 <= b < N -> 0 <= r < HW ->
  channelSlice N C HW c buf !! Z.to_nat (b * HW + r) =
  Some (default 0 (buf !! Z.to_nat ((b * C + c) * HW + r))).
Proof.
  intros Hb Hr. unfold channelSlice.
  pose proof (mul_add_bound b r N HW ltac:(lia) Hr) as Hi.
  rewrite list_lookup_fmap, lookup_seqZ_lt by lia. cbn [fmap option_fmap option_map].
  rewrite Z2Nat.id, Z.add_0_l by lia.
  assert (Hdiv : (b * HW + r) / HW = b).
  { rewrite Z.div_add_l, Z.div_small by lia. lia. }
  assert (Hmod : (b * HW + r) mod HW = r).
  { rewrite Z.add_comm, Z.mod_add, Z.mod_small by lia. reflexivity. }
  rewrite Hdiv, Hmod. reflexivity.
Qed.

(** Reading the slice of channel [c] at [(b, r)] is reading the whole at
    [(b, c, r)]. *)
Lemma read_channelSlice (N C HW c : Z) (buf : list Z) (b r : Z) :
  0 <= b < N -> 0 <= c < C -> 0 <= r < HW ->
  N * C * HW <= Z.of_nat (length buf) ->
  read (channelSlice N C HW c buf) (b * HW + r) = read buf ((b * C + c) * HW + r).
Proof.
  intros Hb Hc Hr Hlen. unfold read. rewrite channelSlice_lookup by assumption.
  pose proof (mul_add_bound b c N C ltac:(lia) Hc) as H1.
  pose proof (mul_add_bound _ r _ HW H1 Hr) as H2.
  destruct (buf !! Z.to_nat ((b * C + c) * HW + r)) as [v|] eqn:E; [reflexivity|].
  apply lookup_ge_None in E. lia.
Qed.

(** Every offset into an [N x 1 x H x W] tensor is the offset of an
    element. *)
Lemma single_channel_decode (N H W i : Z) :
  0 <= H -> 0 <= W -> 0 <= i < N * (H * W) ->
  exists b y x, 0 <= b < N /\ 0 <= y < H /\ 0 <= x < W /\ i = b * (H * W) + (y * W + x).
Proof.
  intros HH HW Hi.
  assert (HHW : 0 < H * W).
  { pose proof (Z.mul_nonneg_nonneg H W HH HW).
    destruct (Z.eq_dec (H * W) 0) as [E|NE]; [rewrite E in Hi|]; lia. }
  assert (HWpos : 0 < W) by (destruct (Z.eq_dec W 0) as [->|NE]; lia).
  exists (i / (H * W)), (i mod (H * W) / W), (i mod (H * W) mod W).
  pose proof (Z.mod_pos_bound i (H * W) HHW) as Hrem.
  pose proof (Z.mod_pos_bound (i mod (H * W)) W HWpos) as Hx.
  split; [split; [apply Z.div_pos; lia|apply Z.div_lt_upper_bound; lia]|].
  split; [split; [apply Z.div_pos; lia|apply Z.div_lt_upper_bound; lia]|].
  split; [exact Hx|].
  rewrite (Z.mul_comm (i mod (H * W) / W) W), <- Z.div_mod by lia.
  rewrite (Z.mul_comm (i / (H * W)) (H * W)), <- Z.div_mod by lia. reflexivity.
Qed.

Example concatChannels_one_batch :
  concatChannels 1 2 [1; 2] [3; 4] = [1; 2; 3; 4].
Proof. reflexivity. Qed.

Example concatChannels_two_batches :
  concatChannels 2 2 [1; 2; 5; 6] [3; 4; 7; 8] = [1; 2; 3; 4; 5; 6; 7; 8].
Proof. reflexivity. Qed.

(** A two-channel tensor is the concatenation of its two channels. *)
Lemma concat_of_slices (N HW : Z) (buf : list Z) :
  0 <= N -> 0 <= HW -> Z.of_nat (length buf) = N * (2 * HW) ->
  buf = concatChannels N HW (channelSlice N 2 HW 0 buf) (channelSlice N 2 HW 1 buf).
Proof.
  intros HN HHW Hlen. apply list_eq. intros i.
  destruct (Z.lt_ge_cases (Z.of_nat i) (N * (2 * HW))) as [Hlt|Hge].
  - assert (Hpos : 0 < 2 * HW).
    { destruct (Z.eq_dec HW 0) as [->|NE]; [rewrite Z.mul_0_r in Hlt|]; lia. }
    unfold concatChannels.
    rewrite list_lookup_fmap, lookup_seqZ_lt by lia. cbn [fmap option_fmap option_map].
    rewrite Z.add_0_l.
    pose proof (Z.mod_pos_bound (Z.of_nat i) (2 * HW) Hpos) as Hr.
    pose proof (Z.div_mod (Z.of_nat i) (2 * HW) ltac:(lia)) as Hdm.
    assert (Hb : 0 <= Z.of_nat i / (2 * HW) < N).
    { split; [apply Z.div_pos; lia|apply Z.div_lt_upper_bound; lia]. }
    set (b := Z.of_nat i / (2 * HW)) in *. set (r := Z.of_nat i mod (2 * HW)) in *.
    destruct (buf !! i) as [v|] eqn:Hv; [|apply lookup_ge_None in Hv; lia].
    cbv zeta. destruct (Z.ltb_spec r HW) as [Hlow|Hhigh].
    + rewrite channelSlice_lookup by lia.
      replace (Z.to_nat ((b * 2 + 0) * HW + r)) with i by lia.
      rewrite Hv. reflexivity.
    + rewrite channelSlice_lookup by lia.
      replace (Z.to_nat ((b * 2 + 1) * HW + (r - HW))) with i by lia.
      rewrite Hv. reflexivity.
  - rewrite !lookup_ge_None_2; [reflexivity| |lia].
    unfold concatChannels. rewrite length_fmap, length_seqZ. lia.
Qed.

(** ** Depthwise convolution with depth multiplier one, channel by channel *)

Section DepthwisePerChannel.

Variable float : Type.
Variable float_mul : float -> float -> float.
Variable float_div : float -> float -> float.
Variable float_nonzero : float -> bool.
Variable QuantizedMultiplierSmallerThanOne_new :
  float -> outcome QuantizedMultiplierSmallerThanOne.

Variable d : ConvData.
Variable inputData : list Z.
Variable inputScale : float.
Variable inputOffset : Z.
Variable filterData : list Z.
Variable filterScale : float.
Variable filterOffset : Z.
Variable biasData : option (list Z).
Variable outputScale : float.
Variable outputOffset : Z.

Local Abbreviation outputElementD :=
  (outputElement float float_mul float_div float_nonzero
     QuantizedMultiplierSmallerThanOne_new d inputData inputScale inputOffset
     filterData filterScale filterOffset biasData outputScale outputOffset true).
Local Abbreviation outputElementS c :=
  (outputElement float float_mul float_div float_nonzero
     QuantizedMultiplierSmallerThanOne_new (perChannelJob d)
     (inputChannel d inputData c) inputScale inputOffset
     (filterChannel d filterData c) filterScale filterOffset
     (biasChannel d biasData c) outputScale outputOffset false).

Hypothesis data_wf : data_ok d.
Hypothesis depth_one : dim0 (filterInfo d) = 1.
Hypothesis input_channels : dim1 (inputInfo0 d) = channelsInput d.
Hypothesis input_fits : numElements (inputInfo0 d) < UINT_MODULUS.
Hypothesis input_len : numElements (inputInfo0 d) <= Z.of_nat (length inputData).
Hypothesis filter_fits : numElements (filterInfo d) < UINT_MODULUS.
Hypothesis filter_len : numElements (filterInfo d) <= Z.of_nat (length filterData).
Hypothesis bias_len :
  forall bias, biasData = Some bias -> channelsInput d <= Z.of_nat (length bias).

Lemma perChannelJob_ok : data_ok (perChannelJob d).
Proof.
  destruct data_wf as ((I0 & I1 & I2 & I3) & (O0 & O1 & O2 & O3) & (F0 & F1 & F2 & F3) & P).
  unfold data_ok, shape_ok, perChannelJob, shape. cbn.
  assert (is_uint 1) by (unfold is_uint, UINT_MODULUS; lia). tauto.
Qed.

Lemma channelsOutput_depth_one : channelsOutput d true = channelsInput d.
Proof.
  unfold channelsOutput, depthMult. rewrite depth_one. unfold umul. rewrite Z.mul_1_r.
  apply u32_small. apply (channelsInput_uint d data_wf).
Qed.

Lemma inputValueAt_perChannel (b c yInput xInput : Z) :
  0 <= b < dim0 (inputInfo0 d) -> 0 <= c < channelsInput d ->
  inputValueAt d inputData inputOffset b c yInput xInput =
  inputValueAt (perChannelJob d) (inputChannel d inputData c) inputOffset b 0 yInput xInput.
Proof.
  intros Hb Hc. unfold inputValueAt.
  change (inPadding (perChannelJob d) yInput xInput) with (inPadding d yInput xInput).
  destruct (inPadding d yInput xInput) eqn:Hpad; [reflexivity|].
  apply (inPadding_false_inside d data_wf) in Hpad as [Hy Hx].
  set (y' := yInput - paddingTop d) in *. set (x' := xInput - paddingLeft d) in *.
  pose proof (mul_add_bound y' x' (heightInput d) (widthInput d) ltac:(lia) Hx) as Hr.
  set (r := y' * widthInput d + x') in *.
  set (HW := heightInput d * widthInput d).
  assert (HrHW : 0 <= r < HW) by (unfold HW; lia).
  assert (Hnum : dim0 (inputInfo0 d) * channelsInput d * HW = numElements (inputInfo0 d)).
  { unfold numElements, HW, heightInput, widthInput. rewrite input_channels. ring. }
  pose proof (mul_add_bound b c (dim0 (inputInfo0 d)) (channelsInput d) ltac:(lia) Hc) as H1.
  pose proof (mul_add_bound _ r _ HW H1 HrHW) as H2.
  pose proof (mul_add_bound b r (dim0 (inputInfo0 d)) HW ltac:(lia) HrHW) as H3.
  assert (H4 : dim0 (inputInfo0 d) * HW <= dim0 (inputInfo0 d) * channelsInput d * HW).
  { rewrite <- Z.mul_assoc. apply Z.mul_le_mono_nonneg_l; [lia|]. nia. }
  assert (ED : inputIndex d b c yInput xInput = (b * channelsInput d + c) * HW + r).
  { rewrite inputIndex_nchw. fold y' x'.
    replace (nchw _ _ _ _ _ _ _) with ((b * channelsInput d + c) * HW + r)
      by (unfold nchw, HW, r; ring).
    apply u32_small. unfold is_uint. lia. }
  assert (ES : inputIndex (perChannelJob d) b 0 yInput xInput = b * HW + r).
  { rewrite inputIndex_nchw.
    change (paddingTop (perChannelJob d)) with (paddingTop d).
    change (paddingLeft (perChannelJob d)) with (paddingLeft d).
    change (channelsInput (perChannelJob d)) with 1.
    change (heightInput (perChannelJob d)) with (heightInput d).
    change (widthInput (perChannelJob d)) with (widthInput d).
    fold y' x'.
    replace (nchw _ _ _ _ _ _ _) with (b * HW + r) by (unfold nchw, HW, r; ring).
    apply u32_small. unfold is_uint. lia. }
  rewrite ED, ES. unfold inputChannel. fold HW.
  rewrite read_channelSlice by (assumption || lia). reflexivity.
Qed.

Lemma macStep_perChannel (b c y x yFilter xFilter sum : Z) :
  0 <= b < dim0 (inputInfo0 d) -> 0 <= c < channelsInput d ->
  0 <= yFilter < heightFilter d -> 0 <= xFilter < widthFilter d ->
  macStep d inputData inputOffset filterData filterOffset true
    b c y x c 0 yFilter xFilter sum =
  macStep (perChannelJob d) (inputChannel d inputData c) inputOffset
    (filterChannel d filterData c) filterOffset false
    b 0 y x 0 0 yFilter xFilter sum.
Proof.
  intros Hb Hc Hy Hx. unfold macStep.
  pose proof (mul_add_bound yFilter xFilter (heightFilter d) (widthFilter d) ltac:(lia) Hx) as Hr.
  set (r := yFilter * widthFilter d + xFilter) in *.
  set (HW := heightFilter d * widthFilter d).
  assert (HrHW : 0 <= r < HW) by (unfold HW; lia).
  assert (Hnum : 1 * channelsInput d * HW = numElements (filterInfo d)).
  { unfold numElements, HW, heightFilter, widthFilter, channelsInput. rewrite depth_one. ring. }
  pose proof (mul_add_bound 0 c 1 (channelsInput d) ltac:(lia) Hc) as H1.
  pose proof (mul_add_bound _ r _ HW H1 HrHW) as H2.
  assert (H3 : 0 <= c * HW) by (apply Z.mul_nonneg_nonneg; lia).
  assert (ED : filterIndex d true c c 0 yFilter xFilter = (0 * channelsInput d + c) * HW + r).
  { rewrite filterIndex_depthwise.
    replace (nchw _ _ _ _ _ _ _) with ((0 * channelsInput d + c) * HW + r)
      by (unfold nchw, HW, r; ring).
    apply u32_small. unfold is_uint. lia. }
  assert (ES : filterIndex (perChannelJob d) false 0 0 0 yFilter xFilter = 0 * HW + r).
  { rewrite filterIndex_standard.
    change (channelsInput (perChannelJob d)) with 1.
    change (heightFilter (perChannelJob d)) with (heightFilter d).
    change (widthFilter (perChannelJob d)) with (widthFilter d).
    replace (nchw _ _ _ _ _ _ _) with (0 * HW + r) by (unfold nchw, HW, r; ring).
    apply u32_small. unfold is_uint. lia. }
  rewrite ED, ES. unfold filterChannel. fold HW.
  rewrite read_channelSlice by (assumption || lia).
  change (hStride (perChannelJob d)) with (hStride d).
  change (xStride (perChannelJob d)) with (xStride d).
  rewrite <- inputValueAt_perChannel by assumption. reflexivity.
Qed.

Lemma accumulate_perChannel (b c y x : Z) :
  0 <= b < dim0 (inputInfo0 d) -> 0 <= c < channelsInput d ->
  accumulate d inputData inputOffset filterData filterOffset true b c y x =
  accumulate (perChannelJob d) (inputChannel d inputData c) inputOffset
    (filterChannel d filterData c) filterOffset false b 0 y x.
Proof.
  intros Hb Hc.
  rewrite accumulate_depthwise by (assumption || (rewrite channelsOutput_depth_one; exact Hc)).
  rewrite accumulate_standard by exact perChannelJob_ok.
  unfold depthMult. rewrite depth_one, Z.div_1_r, Z.mod_1_r.
  change (channelsInput (perChannelJob d)) with 1.
  unfold for_loop at 1. change (Z.to_nat 1) with 1%nat. cbn [for_from].
  rewrite bind_Ok_r. unfold windowLoop.
  change (heightFilter (perChannelJob d)) with (heightFilter d).
  change (widthFilter (perChannelJob d)) with (widthFilter d).
  apply for_loop_ext. intros yFilter s Hy.
  apply for_loop_ext. intros xFilter s' Hx.
  apply macStep_perChannel; assumption.
Qed.

Lemma addBias_perChannel (c sum : Z) :
  0 <= c < channelsInput d ->
  addBias d biasData c sum = addBias (perChannelJob d) (biasChannel d biasData c) 0 sum.
Proof.
  intros Hc. unfold addBias.
  change (m_Parameters (perChannelJob d)) with (m_Parameters d).
  destruct (m_BiasEnabled (m_Parameters d)); [|reflexivity].
  destruct biasData as [bias|] eqn:Hbias; [|reflexivity].
  cbn [biasChannel fmap option_fmap option_map].
  change 0 with (0 * 1 + 0) at 1.
  rewrite read_channelSlice; [|lia|exact Hc|lia|].
  - replace ((0 * channelsInput d + c) * 1 + 0) with c by ring. reflexivity.
  - pose proof (bias_len bias eq_refl). lia.
Qed.

Lemma outputElement_perChannel (b c y x : Z) :
  0 <= b < dim0 (inputInfo0 d) -> 0 <= c < channelsInput d ->
  outputElementD b c y x = outputElementS c b 0 y x.
Proof.
  intros Hb Hc. unfold outputElement.
  rewrite accumulate_perChannel by assumption.
  destruct (accumulate (perChannelJob d) _ _ _ _ false b 0 y x) as [sum|e]; [|reflexivity].
  rewrite !bind_Ok, addBias_perChannel by assumption. reflexivity.
Qed.

Local Abbreviation ConvImplD :=
  (ConvImpl float float_mul float_div float_nonzero
     QuantizedMultiplierSmallerThanOne_new d inputData inputScale inputOffset
     filterData filterScale filterOffset biasData outputScale outputOffset true).
Local Abbreviation ConvImplS c :=
  (ConvImpl float float_mul float_div float_nonzero
     QuantizedMultiplierSmallerThanOne_new (perChannelJob d)
     (inputChannel d inputData c) inputScale inputOffset
     (filterChannel d filterData c) filterScale filterOffset
     (biasChannel d biasData c) outputScale outputOffset false).
Local Abbreviation convLoopsD :=
  (convLoops float float_mul float_div float_nonzero
     QuantizedMultiplierSmallerThanOne_new d inputData inputScale inputOffset
     filterData filterScale filterOffset biasData outputScale outputOffset true).
Local Abbreviation convLoopsS c :=
  (convLoops float float_mul float_div float_nonzero
     QuantizedMultiplierSmallerThanOne_new (perChannelJob d)
     (inputChannel d inputData c) inputScale inputOffset
     (filterChannel d filterData c) filterScale filterOffset
     (biasChannel d biasData c) outputScale outputOffset false).

Hypothesis same_batch : dim0 (inputInfo0 d) = batchSize d.
Hypothesis output_fits : outputCount d true < UINT_MODULUS.

Lemma ConvImpl_guard_perChannel (c : Z) (outD outS : list Z) :
  (ConvImplD outD = convLoopsD outD /\ ConvImplS c outS = convLoopsS c outS) \/
  (ConvImplD outD = Err AssertionFailure /\ ConvImplS c outS = Err AssertionFailure).
Proof.
  unfold ConvImpl. change (m_Parameters (perChannelJob d)) with (m_Parameters d).
  destruct (m_BiasEnabled (m_Parameters d)); [|left; split; reflexivity].
  destruct biasData as [bias|]; [left|right]; split; reflexivity.
Qed.

Lemma outputCount_depthwise :
  outputCount d true =
  batchSize d * channelsInput d * (heightOutput d * widthOutput d).
Proof. unfold outputCount. rewrite channelsOutput_depth_one. ring. Qed.

Lemma outputCount_perChannel :
  outputCount (perChannelJob d) false = batchSize d * (heightOutput d * widthOutput d).
Proof.
  unfold outputCount.
  change (batchSize (perChannelJob d)) with (batchSize d).
  change (channelsOutput (perChannelJob d) false) with 1.
  change (heightOutput (perChannelJob d)) with (heightOutput d).
  change (widthOutput (perChannelJob d)) with (widthOutput d). ring.
Qed.

Lemma output_dims_nonneg :
  0 <= batchSize d /\ 0 <= heightOutput d /\ 0 <= widthOutput d.
Proof.
  destruct data_wf as (_ & ([H0 _] & _ & [H2 _] & [H3 _]) & _). tauto.
Qed.

Lemma outputCount_perChannel_le (c : Z) :
  0 <= c < channelsInput d ->
  outputCount (perChannelJob d) false <= outputCount d true.
Proof.
  intros Hc. rewrite outputCount_depthwise, outputCount_perChannel.
  destruct output_dims_nonneg as (HN & HH & HW).
  pose proof (Z.mul_nonneg_nonneg _ _ HH HW) as HHW.
  rewrite <- Z.mul_assoc. apply Z.mul_le_mono_nonneg_l; [exact HN|]. nia.
Qed.

Lemma inOutput_perChannel (b c' y x : Z) :
  inOutput (perChannelJob d) false b c' y x <->
  0 <= b < batchSize d /\ c' = 0 /\ 0 <= y < heightOutput d /\ 0 <= x < widthOutput d.
Proof.
  unfold inOutput.
  change (batchSize (perChannelJob d)) with (batchSize d).
  change (channelsOutput (perChannelJob d) false) with 1.
  change (heightOutput (perChannelJob d)) with (heightOutput d).
  change (widthOutput (perChannelJob d)) with (widthOutput d). lia.
Qed.

Lemma inOutput_depthwise (b c y x : Z) :
  inOutput d true b c y x <->
  0 <= b < batchSize d /\ 0 <= c < channelsInput d /\
  0 <= y < heightOutput d /\ 0 <= x < widthOutput d.
Proof. unfold inOutput. rewrite channelsOutput_depth_one. tauto. Qed.

(** When the depthwise run returns, the run on channel [c] alone returns
    channel [c] of its output. *)
Lemma perChannel_of_depthwise (c : Z) (outD outS rD : list Z) :
  0 <= c < channelsInput d ->
  Z.of_nat (length outS) = outputCount (perChannelJob d) false ->
  ConvImplD outD = Ok rD ->
  ConvImplS c outS = Ok (outputChannel d rD c).
Proof.
  intros Hc HlenS HD.
  destruct (ConvImpl_guard_perChannel c outD outS) as [[ED ES]|[ED _]];
    [|rewrite ED in HD; discriminate].
  rewrite ED in HD. rewrite ES. clear ED ES.
  apply convLoops_Wrote in HD as (_ & HinD & _); [|exact output_fits].
  pose proof (outputCount_perChannel_le c Hc) as Hle.
  assert (HfitS : outputCount (perChannelJob d) false < UINT_MODULUS) by lia.
  assert (HelemS : forall b c' y x, inOutput (perChannelJob d) false b c' y x ->
                     exists v, outputElementS c b c' y x = Ok v).
  { intros b c' y x Hin. apply inOutput_perChannel in Hin as (Hb & -> & Hy & Hx).
    destruct (HinD b c y x) as (v & Hv & _); [apply inOutput_depthwise; tauto|].
    exists v. rewrite <- outputElement_perChannel; [exact Hv|lia|exact Hc]. }
  destruct (convLoops_total _ _ _ _ _ _ _ _ _ _ _ _ _ _ _ _ HfitS outS HelemS ltac:(lia))
    as [rS HrS].
  rewrite HrS. f_equal.
  apply convLoops_Wrote in HrS as (HlenrS & HinS & _); [|exact HfitS].
  pose proof HfitS as HfitS'.
  rewrite outputCount_perChannel in HlenS, HfitS.
  destruct output_dims_nonneg as (HN & HH & HW).
  apply list_eq. intros i.
  destruct (Z.lt_ge_cases (Z.of_nat i) (batchSize d * (heightOutput d * widthOutput d)))
    as [Hlt|Hge].
  - destruct (single_channel_decode (batchSize d) _ _ (Z.of_nat i) HH HW
                (conj (Nat2Z.is_nonneg i) Hlt))
      as (b & y & x & Hb & Hy & Hx & Ei).
    pose proof (mul_add_bound y x (heightOutput d) (widthOutput d) ltac:(lia) Hx) as Hr.
    assert (HinS' : inOutput (perChannelJob d) false b 0 y x)
      by (apply inOutput_perChannel; tauto).
    assert (HinD' : inOutput d true b c y x) by (apply inOutput_depthwise; tauto).
    destruct (HinS b 0 y x HinS') as (vS & HvS & HlookS).
    destruct (HinD b c y x HinD') as (vD & HvD & HlookD).
    destruct (outputIndex_exact _ _ HfitS' _ _ _ _ HinS') as [EidxS _].
    destruct (outputIndex_exact _ _ output_fits _ _ _ _ HinD') as [EidxD _].
    rewrite EidxS in HlookS. rewrite EidxD in HlookD.
    rewrite channelsOutput_depth_one in HlookD.
    change (channelsOutput (perChannelJob d) false) with 1 in HlookS.
    change (heightOutput (perChannelJob d)) with (heightOutput d) in HlookS.
    change (widthOutput (perChannelJob d)) with (widthOutput d) in HlookS.
    replace (nchw 1 _ _ b 0 y x) with (Z.of_nat i) in HlookS by (unfold nchw; lia).
    rewrite Nat2Z.id in HlookS. rewrite HlookS.
    replace (nchw (channelsInput d) _ _ b c y x)
      with ((b * channelsInput d + c) * (heightOutput d * widthOutput d) +
            (y * widthOutput d + x)) in HlookD by (unfold nchw; ring).
    unfold outputChannel.
    replace i with (Z.to_nat (b * (heightOutput d * widthOutput d) + (y * widthOutput d + x)))
      by lia.
    rewrite channelSlice_lookup by lia. rewrite HlookD.
    change (default 0 (Some vD)) with vD.
    rewrite outputElement_perChannel in HvD by lia. congruence.
  - rewrite !lookup_ge_None_2; [reflexivity| |].
    + unfold outputChannel. rewrite channelSlice_length. lia.
    + lia.
Qed.

(** When the runs on the single channels return, so does the depthwise
    run. *)
Lemma depthwise_of_perChannel (outD : list Z) (outS : Z -> list Z) :
  0 < channelsInput d ->
  outputCount d true <= Z.of_nat (length outD) ->
  (forall c, 0 <= c < channelsInput d -> exists rS, ConvImplS c (outS c) = Ok rS) ->
  exists rD, ConvImplD outD = Ok rD.
Proof.
  intros HC Hlen Hall.
  assert (HloopS : forall c, 0 <= c < channelsInput d ->
                     exists rS, convLoopsS c (outS c) = Ok rS /\
                                ConvImplD outD = convLoopsD outD).
  { intros c Hc. destruct (Hall c Hc) as [rS HrS]. exists rS.
    destruct (ConvImpl_guard_perChannel c outD (outS c)) as [[ED ES]|[_ ES]];
      rewrite ES in HrS; [tauto|discriminate]. }
  destruct (HloopS 0 ltac:(lia)) as (_ & _ & ->).
  apply convLoops_total; [exact output_fits| |exact Hlen].
  intros b c y x Hin. apply inOutput_depthwise in Hin as (Hb & Hc & Hy & Hx).
  destruct (HloopS c Hc) as (rS & HrS & _).
  apply convLoops_Wrote in HrS as (_ & HinS & _);
    [|pose proof (outputCount_perChannel_le c Hc); lia].
  destruct (HinS b 0 y x) as (v & Hv & _); [apply inOutput_perChannel; tauto|].
  exists v. rewrite outputElement_perChannel by lia. exact Hv.
Qed.

(** C4: for a depthwise job with depth multiplier one over a two-channel
    input, whatever the kernel size, strides, padding and quantization
    parameters: the depthwise run returns exactly when the standard-path
    runs on channel 0 and on channel 1 alone (each with its slice of the
    input, of the filter and of the bias) both return, and its output is
    then the two outputs concatenated along the channel dimension. *)
Theorem depthwise_matches_per_channel_standard (outD out0 out1 : list Z) :
  channelsInput d = 2 ->
  Z.of_nat (length outD) = outputCount d true ->
  Z.of_nat (length out0) = outputCount (perChannelJob d) false ->
  Z.of_nat (length out1) = outputCount (perChannelJob d) false ->
  (forall rD,
      ConvImplD outD = Ok rD ->
      exists r0 r1,
        ConvImplS 0 out0 = Ok r0 /\ ConvImplS 1 out1 = Ok r1 /\
        rD = concatChannels (batchSize d) (heightOutput d * widthOutput d) r0 r1) /\
  (forall r0 r1,
      ConvImplS 0 out0 = Ok r0 -> ConvImplS 1 out1 = Ok r1 ->
      ConvImplD outD =
      Ok (concatChannels (batchSize d) (heightOutput d * widthOutput d) r0 r1)).
Proof.
  intros HC HlenD Hlen0 Hlen1.
  assert (Hfwd : forall rD, ConvImplD outD = Ok rD ->
                   ConvImplS 0 out0 = Ok (outputChannel d rD 0) /\
                   ConvImplS 1 out1 = Ok (outputChannel d rD 1) /\
                   rD = concatChannels (batchSize d) (heightOutput d * widthOutput d)
                          (outputChannel d rD 0) (outputChannel d rD 1)).
  { intros rD HD.
    split; [apply (perChannel_of_depthwise _ outD); (lia || assumption)|].
    split; [apply (perChannel_of_depthwise _ outD); (lia || assumption)|].
    assert (Hlen : length rD = length outD).
    { destruct (ConvImpl_guard_perChannel 0 outD out0) as [[ED _]|[ED _]];
        rewrite ED in HD; [|discriminate].
      apply convLoops_Wrote in HD as (Hlen & _); [exact Hlen|exact output_fits]. }
    destruct output_dims_nonneg as (HN & HH & HW).
    unfold outputChannel. rewrite HC. apply concat_of_slices.
    - exact HN.
    - apply Z.mul_nonneg_nonneg; assumption.
    - rewrite Hlen, HlenD, outputCount_depthwise, HC. ring. }
  split.
  - intros rD HD. destruct (Hfwd rD HD) as (H0 & H1 & Hcat). eauto.
  - intros r0 r1 H0 H1.
    destruct (depthwise_of_perChannel outD (fun c => if c =? 0 then out0 else out1))
      as [rD HD]; [lia|lia| |].
    + intros c Hc. assert (Ec : c = 0 \/ c = 1) by lia.
      destruct Ec as [-> | ->]; cbn; eauto.
    + destruct (Hfwd rD HD) as (H0' & H1' & Hcat).
      rewrite H0 in H0'. rewrite H1 in H1'.
      injection H0' as ->. injection H1' as ->.
      rewrite HD. f_equal. exact Hcat.
Qed.

End DepthwisePerChannel.

(** ** The identity kernel *)

(** C6: a 1x1 filter holding 1, stride 1, no padding, no bias, offsets 0
    and [outputScale == 0]: the 2x2 single-channel image [[1,2],[3,4]] comes
    out as it went in, whatever the output buffer held before, and element
    [(y, x)] is stored at
    [batch*Wout*Hout*Cout + outChannel*Wout*Hout + y*Wout + x] with
    batch and channel 0. *)
Theorem identity_convolution (float : Type) (float_mul float_div : float -> float -> float)
    (float_nonzero : float -> bool)
    (QuantizedMultiplierSmallerThanOne_new : float -> outcome QuantizedMultiplierSmallerThanOne)
    (inputScale filterScale outputScale : float) (outputOffset : Z) (outputData : list Z) :
  float_nonzero outputScale = false ->
  length outputData = 4%nat ->
  ConvImpl float float_mul float_div float_nonzero QuantizedMultiplierSmallerThanOne_new
    identityJob [1; 2; 3; 4] inputScale 0 [1] filterScale 0 None
    outputScale outputOffset false outputData = Ok [1; 2; 3; 4] /\
  forall y x, 0 <= y < 2 -> 0 <= x < 2 ->
    outputIndex identityJob false 0 0 y x = 0 * 2 * 2 * 1 + 0 * 2 * 2 + y * 2 + x.
Proof.
  intros Hzero Hlen. split.
  - destruct outputData as [|o0 [|o1 [|o2 [|o3 [|]]]]]; try discriminate.
    unfold ConvImpl, convLoops, outputElement, requantize. rewrite Hzero.
    vm_compute. reflexivity.
  - intros y x Hy Hx.
    assert (Ey : y = 0 \/ y = 1) by lia. assert (Ex : x = 0 \/ x = 1) by lia.
    destruct Ey as [-> | ->], Ex as [-> | ->]; reflexivity.
Qed.

(** ** Sample runs *)

Ltac wf_tac :=
  unfold data_ok, shape_ok, params_ok, is_uint, UINT_MODULUS; simpl; lia.

Lemma paddedJob_ok : data_ok paddedJob.
Proof. wf_tac. Qed.

Lemma paddedJob_window (depthwise : bool) :
  windowInPadding paddedJob paddedFilter 0 depthwise 0 0 0.
Proof.
  intros cInput dmIdx yFilter xFilter Hc Hd Hy Hx.
  assert (Hd' : dmIdx = 0) by (destruct depthwise; cbn in Hd; lia). subst dmIdx.
  cbn in Hc, Hy, Hx.
  assert (Ec : cInput = 0 \/ cInput = 1) by lia.
  assert (Ey : yFilter = 0 \/ yFilter = 1) by lia.
  assert (Ex : xFilter = 0 \/ xFilter = 1) by lia.
  destruct Ec as [-> | ->], Ey as [-> | ->], Ex as [-> | ->], depthwise;
    (split; [intros [[H _] _]; vm_compute in H; apply H; reflexivity
            | eexists; split; [cbv; reflexivity | reflexivity]]).
Qed.

Lemma paddedJob_channel_zero : 0 <= 0 < channelsOutput paddedJob true.
Proof. vm_compute. split; [discriminate|reflexivity]. Qed.

Lemma padding_contributes_zero_witness :
  data_ok paddedJob /\
  0 <= 0 < channelsOutput paddedJob true /\
  windowInPadding paddedJob paddedFilter 0 true 0 0 0 /\
  rawAccumulator paddedJob paddedInput 0 paddedFilter 0 (Some paddedBias) true 0 0 0 0 = Ok 300.
Proof.
  split; [exact paddedJob_ok|]. split; [exact paddedJob_channel_zero|].
  split; [exact (paddedJob_window true)|].
  destruct (padding_contributes_zero Q Qmult Qdiv Q_nonzero
              Q_QuantizedMultiplierSmallerThanOne_new paddedJob paddedInput 1%Q 0
              paddedFilter 1%Q 0 (Some paddedBias) 0%Q 0 true paddedJob_ok 0 0 0 0)
    as [_ H].
  destruct (H paddedJob_channel_zero (paddedJob_window true)) as (_ & _ & Hb).
  exact (proj1 (Hb eq_refl paddedBias 300 eq_refl eq_refl eq_refl)).
Defined.

(** C1 does not hold as first stated: the window of output element
    (0,0) of channel 0 lies in the padding altogether and the bias of the
    channel is 300, yet with scales 1, 1 and 2 the element stored is 150, and
    with [outputScale == 0] the narrowing cast raises. *)
Lemma fully_padded_output_differs_from_bias :
  windowInPadding paddedJob paddedFilter 0 true 0 0 0 /\
  read paddedBias 0 = Ok 300 /\
  outputElementQ paddedJob paddedInput 1 0 paddedFilter 1 0 (Some paddedBias)
    2 0 true 0 0 0 0 = Ok 150 /\
  outputElementQ paddedJob paddedInput 1 0 paddedFilter 1 0 (Some paddedBias)
    0 0 true 0 0 0 0 = Err BadNumericCast.
Proof.
  split; [exact (paddedJob_window true)|].
  split; [reflexivity|]. split; vm_compute; reflexivity.
Qed.

Lemma identity_convolution_witness :
  Q_nonzero 0 = false /\ length [9; 9; 9; 9] = 4%nat /\
  ConvImplQ identityJob [1; 2; 3; 4] 1 0 [1] 1 0 None 0 0 false [9; 9; 9; 9] =
  Ok [1; 2; 3; 4].
Proof.
  split; [reflexivity|]. split; [reflexivity|].
  exact (proj1 (identity_convolution Q Qmult Qdiv Q_nonzero
                  Q_QuantizedMultiplierSmallerThanOne_new 1%Q 1%Q 0%Q 0 [9; 9; 9; 9]
                  eq_refl eq_refl)).
Defined.

Lemma srdhm_witness :
  in_int32 3 = true /\ in_int32 (2 ^ 30) = true /\
  ~ (3 = INT32_MIN /\ 2 ^ 30 = INT32_MIN) /\
  SaturatingRoundingDoublingHighMul 3 (2 ^ 30) = (2 * (3 * 2 ^ 30) + 2 ^ 31) / 2 ^ 32.
Proof.
  assert (Hpair : ~ (3 = INT32_MIN /\ 2 ^ 30 = INT32_MIN)) by (intros [H _]; discriminate H).
  split; [reflexivity|]. split; [reflexivity|]. split; [exact Hpair|].
  exact (proj1 (proj2 (proj2 srdhm_commutative_saturating_rounded) 3 (2 ^ 30)
                  eq_refl eq_refl Hpair)).
Defined.

Lemma bias_assertion_witness :
  m_BiasEnabled (m_Parameters paddedJob) = true /\
  ConvImplQ paddedJob paddedInput 1 0 paddedFilter 1 0 None 2 0 true (replicate 50 0) =
  Err AssertionFailure.
Proof.
  split; [reflexivity|].
  exact (proj1 (bias_assertion_and_order Q Qmult Qdiv Q_nonzero
                  Q_QuantizedMultiplierSmallerThanOne_new paddedJob paddedInput 1%Q 0
                  paddedFilter 1%Q 0 None (2 # 1)%Q 0 true) eq_refl eq_refl (replicate 50 0)).
Defined.

Lemma narrowing_never_wraps_witness :
  Q_nonzero 0 = false /\
  rawAccumulator paddedJob paddedInput 0 paddedFilter 0 (Some paddedBias) true 0 0 0 0 = Ok 300 /\
  ~ 0 <= 300 <= 255 /\
  outputElementQ paddedJob paddedInput 1 0 paddedFilter 1 0 (Some paddedBias)
    0 0 true 0 0 0 0 = Err BadNumericCast.
Proof.
  assert (Hout : ~ 0 <= 300 <= 255) by lia.
  split; [reflexivity|]. split; [reflexivity|]. split; [exact Hout|].
  exact (proj2 (proj2 (narrowing_never_wraps Q Qmult Qdiv Q_nonzero
                         Q_QuantizedMultiplierSmallerThanOne_new paddedJob paddedInput 1%Q 0
                         paddedFilter 1%Q 0 (Some paddedBias) 0%Q 0 true 0 0 0 0)
                  eq_refl 300 eq_refl) Hout).
Defined.

Lemma in_region_input_address_witness :
  data_ok paddedJob /\
  insideInput paddedJob 3 2 /\
  inputIndex paddedJob 0 1 3 2 = 6 /\
  inputValueAt paddedJob paddedInput 0 0 1 3 2 = Ok 23.
Proof.
  assert (Hb : 0 <= 0 < dim0 (inputInfo0 paddedJob)) by (cbn; lia).
  assert (Hc : 0 <= 1 < channelsInput paddedJob) by (cbn; lia).
  assert (Hin : insideInput paddedJob 3 2) by (unfold insideInput; cbn; lia).
  split; [exact paddedJob_ok|]. split; [exact Hin|].
  pose proof (in_region_input_address paddedJob paddedInput 0 paddedJob_ok 0 1 3 2
                eq_refl eq_refl eq_refl eq_refl Hb Hc Hin) as H.
  cbv zeta in H. destruct H as (Hi & _ & Hv & _).
  split; [exact Hi|exact Hv].
Defined.

Lemma depthwise_matches_per_channel_standard_witness :
  data_ok paddedJob /\
  dim0 (filterInfo paddedJob) = 1 /\
  channelsInput paddedJob = 2 /\
  numElements (inputInfo0 paddedJob) <= Z.of_nat (length paddedInput) /\
  numElements (filterInfo paddedJob) <= Z.of_nat (length paddedFilter) /\
  Z.of_nat (length (replicate 50 0)) = outputCount paddedJob true /\
  Z.of_nat (length (replicate 25 0)) = outputCount (perChannelJob paddedJob) false /\
  forall r0 r1,
    ConvImplQ (perChannelJob paddedJob) (inputChannel paddedJob paddedInput 0) 1 0
      (filterChannel paddedJob paddedFilter 0) 1 0 (biasChannel paddedJob (Some paddedBias) 0)
      (10 # 9) 0 false (replicate 25 0) = Ok r0 ->
    ConvImplQ (perChannelJob paddedJob) (inputChannel paddedJob paddedInput 1) 1 0
      (filterChannel paddedJob paddedFilter 1) 1 0 (biasChannel paddedJob (Some paddedBias) 1)
      (10 # 9) 0 false (replicate 25 0) = Ok r1 ->
    ConvImplQ paddedJob paddedInput 1 0 paddedFilter 1 0 (Some paddedBias) (10 # 9) 0 true
      (replicate 50 0) = Ok (concatChannels 1 (5 * 5) r0 r1).
Proof.
  assert (Hin : numElements (inputInfo0 paddedJob) <= Z.of_nat (length paddedInput))
    by (vm_compute; discriminate).
  assert (Hf : numElements (filterInfo paddedJob) <= Z.of_nat (length paddedFilter))
    by (vm_compute; discriminate).
  assert (Hbias : forall bias, Some paddedBias = Some bias ->
                               channelsInput paddedJob <= Z.of_nat (length bias))
    by (intros bias [= <-]; vm_compute; discriminate).
  split; [exact paddedJob_ok|]. do 2 (split; [reflexivity|]).
  split; [exact Hin|]. split; [exact Hf|]. do 2 (split; [reflexivity|]).
  exact (proj2 (depthwise_matches_per_channel_standard Q Qmult Qdiv Q_nonzero
                  Q_QuantizedMultiplierSmallerThanOne_new paddedJob paddedInput 1%Q 0
                  paddedFilter 1%Q 0 (Some paddedBias) (10 # 9)%Q 0
                  paddedJob_ok eq_refl eq_refl eq_refl Hin eq_refl Hf Hbias eq_refl eq_refl
                  (replicate 50 0) (replicate 25 0) (replicate 25 0)
                  eq_refl eq_refl eq_refl eq_refl)).
Defined.

(** The three runs on the padded job, evaluated. *)
Example paddedJob_runs_agree :
  exists r0 r1,
    ConvImplQ (perChannelJob paddedJob) (inputChannel paddedJob paddedInput 0) 1 0
      (filterChannel paddedJob paddedFilter 0) 1 0 (biasChannel paddedJob (Some paddedBias) 0)
      (10 # 9) 0 false (replicate 25 0) = Ok r0 /\
    ConvImplQ (perChannelJob paddedJob) (inputChannel paddedJob paddedInput 1) 1 0
      (filterChannel paddedJob paddedFilter 1) 1 0 (biasChannel paddedJob (Some paddedBias) 1)
      (10 # 9) 0 false (replicate 25 0) = Ok r1 /\
    ConvImplQ paddedJob paddedInput 1 0 paddedFilter 1 0 (Some paddedBias) (10 # 9) 0 true
      (replicate 50 0) = Ok (r0 ++ r1).
Proof.
  eexists. eexists. split; [vm_compute; reflexivity|].
  split; [vm_compute; reflexivity|]. vm_compute. reflexivity.
Qed.

(** * Further properties of the kernel *)

(** ** What a run leaves in the output buffer *)

(** Every offset into an [N x C x H x W] tensor is the offset of an
    element. *)
Lemma nchw_decode (N C H W i : Z) :
  0 <= C -> 0 <= H -> 0 <= W -> 0 <= i < N * C * H * W ->
  exists n c y x,
    0 <= n < N /\ 0 <= c < C /\ 0 <= y < H /\ 0 <= x < W /\ nchw C H W n c y x = i.
Proof.
  intros HC HH HW Hi.
  destruct (single_channel_decode (N * C) H W i HH HW ltac:(lia))
    as (b' & y & x & Hb' & Hy & Hx & Ei).
  assert (HCpos : 0 < C).
  { destruct (Z.eq_dec C 0) as [->|NE]; [rewrite Z.mul_0_r in Hb'|]; lia. }
  pose proof (Z.div_mod b' C ltac:(lia)) as Hdm.
  pose proof (Z.mod_pos_bound b' C HCpos) as Hc.
  exists (b' / C), (b' mod C), y, x.
  split; [split; [apply Z.div_pos; lia|apply Z.div_lt_upper_bound; lia]|].
  split; [exact Hc|]. split; [exact Hy|]. split; [exact Hx|].
  unfold nchw. rewrite Ei.
  replace (b' / C * W * H * C + b' mod C * W * H + y * W + x)
    with ((C * (b' / C) + b' mod C) * (H * W) + (y * W + x)) by ring.
  rewrite <- Hdm. reflexivity.
Qed.

Section OutputIndexOnto.

Variable data : ConvData.
Variable depthwise : bool.

Hypothesis data_wf : data_ok data.
Hypothesis output_fits : outputCount data depthwise < UINT_MODULUS.

Lemma output_dims_uint :
  0 <= batchSize data /\ 0 <= channelsOutput data depthwise /\ 0 <= heightOutput data /\ 0 <= widthOutput data.
Proof.
  destruct data_wf as (_ & ([H0 _] & _ & [H2 _] & [H3 _]) & (F0 & _) & _).
  repeat split; try assumption.
  unfold channelsOutput. destruct depthwise; [apply u32_is_uint|apply F0].
Qed.

(** An offset below the number of output elements is the index of an
    output element. *)
Lemma outputIndex_onto (i : nat) :
  Z.of_nat i < outputCount data depthwise ->
  exists b c y x,
    inOutput data depthwise b c y x /\ Z.to_nat (outputIndex data depthwise b c y x) = i.
Proof.
  intros Hi. destruct output_dims_uint as (HN & HC & HH & HW).
  destruct (nchw_decode (batchSize data) (channelsOutput data depthwise) (heightOutput data) (widthOutput data)
              (Z.of_nat i) HC HH HW ltac:(unfold outputCount in Hi; lia))
    as (b & c & y & x & Hb & Hc & Hy & Hx & E).
  exists b, c, y, x.
  assert (Hin : inOutput data depthwise b c y x) by (unfold inOutput; tauto).
  split; [exact Hin|].
  destruct (outputIndex_exact _ _ output_fits _ _ _ _ Hin) as [-> _]. lia.
Qed.

End OutputIndexOnto.

Section OutputBuffer.

Variable float : Type.
Variable float_mul : float -> float -> float.
Variable float_div : float -> float -> float.
Variable float_nonzero : float -> bool.
Variable QuantizedMultiplierSmallerThanOne_new :
  float -> outcome QuantizedMultiplierSmallerThanOne.

Variable data : ConvData.
Variable inputData : list Z.
Variable inputScale : float.
Variable inputOffset : Z.
Variable filterData : list Z.
Variable filterScale : float.
Variable filterOffset : Z.
Variable biasData : option (list Z).
Variable outputScale : float.
Variable outputOffset : Z.
Variable depthwise : bool.

Local Abbreviation outputElement' :=
  (outputElement float float_mul float_div float_nonzero
     QuantizedMultiplierSmallerThanOne_new data inputData inputScale inputOffset
     filterData filterScale filterOffset biasData outputScale outputOffset depthwise).
Local Abbreviation convLoops' :=
  (convLoops float float_mul float_div float_nonzero
     QuantizedMultiplierSmallerThanOne_new data inputData inputScale inputOffset
     filterData filterScale filterOffset biasData outputScale outputOffset depthwise).
Local Abbreviation ConvImpl' :=
  (ConvImpl float float_mul float_div float_nonzero
     QuantizedMultiplierSmallerThanOne_new data inputData inputScale inputOffset
     filterData filterScale filterOffset biasData outputScale outputOffset depthwise).
Local Abbreviation outputCount' := (outputCount data depthwise).
Local Abbreviation Cout := (channelsOutput data depthwise).

Hypothesis data_wf : data_ok data.
Hypothesis output_fits : outputCount' < UINT_MODULUS.

Lemma ConvImpl_Ok_loops (out out' : list Z) :
  ConvImpl' out = Ok out' -> convLoops' out = Ok out'.
Proof.
  unfold ConvImpl.
  destruct (negb (m_BiasEnabled (m_Parameters data)) || bool_decide (biasData <> None));
    [tauto|discriminate].
Qed.

(** X1: a run that returns has stored the value of every output element
    [(b, c, y, x)] at offset [b*Wout*Hout*Cout + c*Wout*Hout + y*Wout + x],
    in a buffer long enough for the whole output tensor; conversely, when the
    bias assertion passes, every output element has a value and the buffer
    is that long, the run returns. *)
Theorem ConvImpl_returns_iff_elements (out : list Z) :
  (forall out',
      ConvImpl' out = Ok out' ->
      outputCount' <= Z.of_nat (length out) /\
      forall b c y x,
        inOutput data depthwise b c y x ->
        exists v,
          outputElement' b c y x = Ok v /\
          out' !! Z.to_nat (b * widthOutput data * heightOutput data * Cout +
                             c * widthOutput data * heightOutput data +
                             y * widthOutput data + x) = Some v) /\
  ((m_BiasEnabled (m_Parameters data) = true -> biasData <> None) ->
   (forall b c y x, inOutput data depthwise b c y x ->
                    exists v, outputElement' b c y x = Ok v) ->
   outputCount' <= Z.of_nat (length out) ->
   exists out', ConvImpl' out = Ok out').
Proof.
  split.
  - intros out' Hrun. apply ConvImpl_Ok_loops in Hrun.
    apply convLoops_Wrote in Hrun as (Hlen & Hin & _); [|exact output_fits].
    split.
    + destruct (Z.le_gt_cases outputCount' 0) as [Hz|Hpos]; [lia|].
      destruct (outputIndex_onto data depthwise data_wf output_fits
                  (Z.to_nat (outputCount' - 1)) ltac:(lia))
        as (b & c & y & x & Hc & Hi).
      destruct (Hin b c y x Hc) as (v & _ & Hlook).
      apply lookup_lt_Some in Hlook. lia.
    + intros b c y x Hc. destruct (Hin b c y x Hc) as (v & Hv & Hlook).
      exists v. split; [exact Hv|].
      destruct (outputIndex_exact _ _ output_fits _ _ _ _ Hc) as [E _].
      rewrite E in Hlook. exact Hlook.
  - intros Hguard Helem Hlen. unfold ConvImpl.
    destruct (m_BiasEnabled (m_Parameters data)) eqn:Hen.
    + rewrite bool_decide_eq_true_2 by (now apply Hguard). cbn [negb orb].
      apply convLoops_total; assumption.
    + cbn [negb orb]. apply convLoops_total; assumption.
Qed.

(** X2: a run that returns keeps the length of the buffer and leaves
    every entry from the end of the output tensor on as it was. *)
Theorem ConvImpl_writes_only_the_output (out out' : list Z) :
  ConvImpl' out = Ok out' ->
  length out' = length out /\
  forall i : nat, outputCount data depthwise <= Z.of_nat i -> out' !! i = out !! i.
Proof.
  intros Hrun. apply ConvImpl_Ok_loops in Hrun.
  apply convLoops_Wrote in Hrun as (Hlen & _ & Hframe); [|exact output_fits].
  split; [exact Hlen|]. intros i Hi. apply Hframe.
  intros b c y x Hc E.
  destruct (outputIndex_exact _ _ output_fits _ _ _ _ Hc) as [_ Hb]. lia.
Qed.

(** X3: the output tensor is overwritten altogether: two runs that differ
    only in what the output tensor's entries held before return the same
    buffer. *)
Theorem ConvImpl_ignores_old_output (out1 out2 r : list Z) :
  length out1 = length out2 ->
  (forall i : nat, outputCount data depthwise <= Z.of_nat i -> out1 !! i = out2 !! i) ->
  ConvImpl' out1 = Ok r -> ConvImpl' out2 = Ok r.
Proof.
  intros Hlen Hsame Hrun.
  assert (Hguard : ConvImpl' out2 = convLoops' out2).
  { unfold ConvImpl in *.
    destruct (negb (m_BiasEnabled (m_Parameters data)) || bool_decide (biasData <> None));
      [reflexivity|discriminate]. }
  apply ConvImpl_Ok_loops in Hrun.
  apply convLoops_Wrote in Hrun as (Hlen1 & Hin1 & Hframe1); [|exact output_fits].
  assert (Hbig : outputCount' <= Z.of_nat (length out1)).
  { destruct (Z.le_gt_cases outputCount' 0) as [Hz|Hpos]; [lia|].
    destruct (outputIndex_onto data depthwise data_wf output_fits
                  (Z.to_nat (outputCount' - 1)) ltac:(lia))
      as (b & c & y & x & Hc & Hi).
    destruct (Hin1 b c y x Hc) as (v & _ & Hlook).
    apply lookup_lt_Some in Hlook. lia. }
  destruct (convLoops_total float float_mul float_div float_nonzero
              QuantizedMultiplierSmallerThanOne_new data inputData inputScale inputOffset
              filterData filterScale filterOffset biasData outputScale outputOffset
              depthwise output_fits out2) as [r2 Hr2].
  { intros b c y x Hc. destruct (Hin1 b c y x Hc) as (v & Hv & _). eauto. }
  { lia. }
  rewrite Hguard, Hr2. f_equal.
  apply convLoops_Wrote in Hr2 as (Hlen2 & Hin2 & Hframe2); [|exact output_fits].
  apply list_eq. intros i.
  destruct (Z.lt_ge_cases (Z.of_nat i) outputCount') as [Hlt|Hge].
  - destruct (outputIndex_onto data depthwise data_wf output_fits i Hlt)
      as (b & c & y & x & Hc & <-).
    destruct (Hin1 b c y x Hc) as (v1 & Hv1 & ->).
    destruct (Hin2 b c y x Hc) as (v2 & Hv2 & ->). congruence.
  - rewrite Hframe1, Hframe2.
    + symmetry. apply Hsame. exact Hge.
    + intros b c y x Hc E.
      destruct (outputIndex_exact _ _ output_fits _ _ _ _ Hc) as [_ Hb]. lia.
    + intros b c y x Hc E.
      destruct (outputIndex_exact _ _ output_fits _ _ _ _ Hc) as [_ Hb]. lia.
Qed.

(** X4: when the output tensor has no element (a zero batch, channel,
    height or width) and the bias assertion passes, the run returns the
    buffer as it was, whatever the input, filter and bias buffers hold. *)
Theorem ConvImpl_empty_output (out : list Z) :
  outputCount data depthwise = 0 ->
  (m_BiasEnabled (m_Parameters data) = true -> biasData <> None) ->
  ConvImpl' out = Ok out.
Proof.
  intros Hzero Hguard.
  assert (Hnone : forall b c y x, ~ inOutput data depthwise b c y x).
  { intros b c y x Hc.
    destruct (outputIndex_exact _ _ output_fits _ _ _ _ Hc) as [_ Hb]. lia. }
  assert (Hguard' : ConvImpl' out = convLoops' out).
  { unfold ConvImpl. destruct (m_BiasEnabled (m_Parameters data)); [|reflexivity].
    rewrite bool_decide_eq_true_2 by (now apply Hguard). reflexivity. }
  destruct (convLoops_total float float_mul float_div float_nonzero
              QuantizedMultiplierSmallerThanOne_new data inputData inputScale inputOffset
              filterData filterScale filterOffset biasData outputScale outputOffset
              depthwise output_fits out) as [out' Hrun].
  { intros b c y x Hc. destruct (Hnone b c y x Hc). }
  { lia. }
  rewrite Hguard', Hrun. f_equal.
  apply convLoops_Wrote in Hrun as (Hlen & _ & Hframe); [|exact output_fits].
  apply list_eq. intros i. apply Hframe.
  intros b c y x Hc. destruct (Hnone b c y x Hc).
Qed.

End OutputBuffer.

(** ** The accumulator is the sum of the products *)

Lemma for_from_sum (k : nat) (lo : Z) (body : Z -> Z -> outcome Z) (f : Z -> Z) (s s' : Z) :
  (forall i s0 s1, lo <= i < lo + Z.of_nat k -> body i s0 = Ok s1 -> s1 = s0 + f i) ->
  for_from k lo body s = Ok s' -> s' = s + sum_from k lo f.
Proof.
  revert lo s. induction k as [|k IH]; intros lo s Hbody Hrun.
  - injection Hrun as <-. cbn. lia.
  - apply for_from_Ok_inv in Hrun as (s1 & Hfirst & Hrest).
    apply Hbody in Hfirst; [|lia]. apply IH in Hrest.
    + cbn [sum_from]. lia.
    + intros i s0 s2 Hi. apply Hbody. lia.
Qed.

Lemma for_loop_sum (n : Z) (body : Z -> Z -> outcome Z) (f : Z -> Z) (s s' : Z) :
  (forall i s0 s1, 0 <= i < n -> body i s0 = Ok s1 -> s1 = s0 + f i) ->
  for_loop n body s = Ok s' -> s' = s + sumZ n f.
Proof.
  intros Hbody. apply for_from_sum. intros i s0 s1 Hi. apply Hbody. lia.
Qed.

Lemma read_Ok_default (buf : list Z) (i v : Z) :
  read buf i = Ok v -> default 0 (buf !! Z.to_nat i) = v.
Proof.
  unfold read. destruct (buf !! Z.to_nat i) as [w|]; [|discriminate].
  intros [= <-]. reflexivity.
Qed.

Section AccumulatorSum.

Variable data : ConvData.
Variable inputData : list Z.
Variable inputOffset : Z.
Variable filterData : list Z.
Variable filterOffset : Z.

Local Abbreviation macStep' := (macStep data inputData inputOffset filterData filterOffset).
Local Abbreviation windowLoop' := (windowLoop data inputData inputOffset filterData filterOffset).
Local Abbreviation accumulate' := (accumulate data inputData inputOffset filterData filterOffset).
Local Abbreviation macTerm' := (macTerm data inputData inputOffset filterData filterOffset).
Local Abbreviation windowSum' := (windowSum data inputData inputOffset filterData filterOffset).
Local Abbreviation accumulatorSum' :=
  (accumulatorSum data inputData inputOffset filterData filterOffset).

Lemma macStep_adds_term (depthwise : bool)
    (b c y x cInput dmIdx yFilter xFilter s s' : Z) :
  macStep' depthwise b c y x cInput dmIdx yFilter xFilter s = Ok s' ->
  s' = s + macTerm' depthwise b c y x cInput dmIdx yFilter xFilter.
Proof.
  unfold macStep, macTerm, filterOperand, inputOperand, inputValueAt. intros H.
  apply bind_Ok_inv in H as (f & Hf & H). apply read_Ok_default in Hf. rewrite Hf.
  apply bind_Ok_inv in H as (fv & Hfv & H).
  unfold int32_result in Hfv. destruct (in_int32 (f - filterOffset)); [|discriminate].
  injection Hfv as <-.
  apply bind_Ok_inv in H as (iv & Hiv & H).
  apply bind_Ok_inv in H as (p & Hp & H).
  unfold int32_result in Hp, H.
  destruct (in_int32 ((f - filterOffset) * iv)); [|discriminate]. injection Hp as <-.
  destruct (in_int32 (s + (f - filterOffset) * iv)); [|discriminate]. injection H as <-.
  destruct (inPadding data _ _).
  - injection Hiv as <-. reflexivity.
  - apply bind_Ok_inv in Hiv as (v & Hv & Hiv). apply read_Ok_default in Hv. rewrite Hv.
    unfold int32_result in Hiv. destruct (in_int32 (v - inputOffset)); [|discriminate].
    injection Hiv as <-. reflexivity.
Qed.

Lemma windowLoop_adds_sum (depthwise : bool) (b c y x cInput dmIdx s s' : Z) :
  windowLoop' depthwise b c y x cInput dmIdx s = Ok s' ->
  s' = s + windowSum' depthwise b c y x cInput dmIdx.
Proof.
  unfold windowLoop, windowSum. apply for_loop_sum.
  intros yFilter s0 s1 Hy. apply for_loop_sum.
  intros xFilter s2 s3 Hx. apply macStep_adds_term.
Qed.

Hypothesis data_wf : data_ok data.

(** X5: whenever the accumulation of an output element returns, its
    value is the sum, over the contributing input channels and the kernel
    window, of (filter element - filterOffset) * (input element -
    inputOffset), the second factor being zero in the padding. *)
Theorem accumulate_is_sum_of_products (depthwise : bool) (b c y x s : Z) :
  0 <= c < channelsOutput data depthwise ->
  accumulate' depthwise b c y x = Ok s ->
  s = accumulatorSum' depthwise b c y x.
Proof.
  intros Hc Hrun. unfold accumulatorSum. destruct depthwise.
  - rewrite accumulate_depthwise in Hrun by assumption.
    apply windowLoop_adds_sum in Hrun. lia.
  - rewrite accumulate_standard in Hrun by assumption.
    apply (for_loop_sum _ _ (fun cInput => windowSum' false b c y x cInput 0)) in Hrun;
      [lia|].
    intros cInput s0 s1 _. apply windowLoop_adds_sum.
Qed.

End AccumulatorSum.

(** ** No overflow and no wild read on quantized tensors *)

Lemma for_from_sum_total (k : nat) (lo : Z) (body : Z -> Z -> outcome Z) (f : Z -> Z)
    (B s : Z) :
  0 <= B ->
  (forall i, lo <= i < lo + Z.of_nat k -> - B <= f i <= B) ->
  (forall i s0, lo <= i < lo + Z.of_nat k ->
                INT32_MIN <= s0 - B -> s0 + B <= INT32_MAX ->
                body i s0 = Ok (s0 + f i)) ->
  INT32_MIN <= s - B * Z.of_nat k -> s + B * Z.of_nat k <= INT32_MAX ->
  for_from k lo body s = Ok (s + sum_from k lo f) /\
  - (B * Z.of_nat k) <= sum_from k lo f <= B * Z.of_nat k.
Proof.
  intros HB. revert lo s. induction k as [|k IH]; intros lo s Hf Hbody Hlow Hhigh.
  - cbn. rewrite Z.add_0_r. split; [reflexivity|lia].
  - rewrite Nat2Z.inj_succ in *.
    pose proof (Hf lo ltac:(lia)) as Hf0.
    assert (HBk : 0 <= B * Z.of_nat k) by (apply Z.mul_nonneg_nonneg; lia).
    rewrite Z.mul_succ_r in Hlow, Hhigh.
    cbn [for_from sum_from]. rewrite (Hbody lo s) by lia. rewrite bind_Ok.
    destruct (IH (lo + 1) (s + f lo)) as [Hrun Hsum].
    + intros i Hi. apply Hf. lia.
    + intros i s0 Hi. apply Hbody. lia.
    + lia.
    + lia.
    + rewrite Hrun. split; [f_equal; lia|]. rewrite Z.mul_succ_r. lia.
Qed.

Lemma for_loop_sum_total (n : Z) (body : Z -> Z -> outcome Z) (f : Z -> Z) (B s : Z) :
  0 <= B -> 0 <= n ->
  (forall i, 0 <= i < n -> - B <= f i <= B) ->
  (forall i s0, 0 <= i < n -> INT32_MIN <= s0 - B -> s0 + B <= INT32_MAX ->
                body i s0 = Ok (s0 + f i)) ->
  INT32_MIN <= s - B * n -> s + B * n <= INT32_MAX ->
  for_loop n body s = Ok (s + sumZ n f).
Proof.
  intros HB Hn Hf Hbody Hlow Hhigh. unfold for_loop, sumZ.
  destruct (for_from_sum_total (Z.to_nat n) 0 body f B s HB) as [Hrun Hsum].
  - intros i Hi. apply Hf. lia.
  - intros i s0 Hi. apply Hbody. lia.
  - rewrite Z2Nat.id by exact Hn. exact Hlow.
  - rewrite Z2Nat.id by exact Hn. exact Hhigh.
  - exact Hrun.
Qed.

Lemma sum_from_bound (k : nat) (lo : Z) (f : Z -> Z) (B : Z) :
  (forall i, lo <= i < lo + Z.of_nat k -> - B <= f i <= B) ->
  - (B * Z.of_nat k) <= sum_from k lo f <= B * Z.of_nat k.
Proof.
  revert lo. induction k as [|k IH]; intros lo Hf; [cbn; lia|].
  rewrite Nat2Z.inj_succ, Z.mul_succ_r. cbn [sum_from].
  pose proof (Hf lo ltac:(lia)). pose proof (IH (lo + 1) ltac:(intros i Hi; apply Hf; lia)).
  lia.
Qed.

Lemma sumZ_bound (n : Z) (f : Z -> Z) (B : Z) :
  0 <= n -> (forall i, 0 <= i < n -> - B <= f i <= B) ->
  - (B * n) <= sumZ n f <= B * n.
Proof.
  intros Hn Hf. unfold sumZ.
  pose proof (sum_from_bound (Z.to_nat n) 0 f B ltac:(intros i Hi; apply Hf; lia)) as H.
  rewrite Z2Nat.id in H by exact Hn. exact H.
Qed.

Lemma int32_result_in_range (z : Z) :
  INT32_MIN <= z <= INT32_MAX -> int32_result z = Ok z.
Proof.
  intros H. apply int32_result_Ok. unfold in_int32.
  apply andb_true_iff. rewrite !Z.leb_le. exact H.
Qed.

Lemma read_lookup (buf : list Z) (i v : Z) :
  buf !! Z.to_nat i = Some v -> read buf i = Ok v.
Proof. unfold read. now intros ->. Qed.

Lemma product_bound (a b : Z) :
  -255 <= a <= 255 -> -255 <= b <= 255 -> -65025 <= a * b <= 65025.
Proof. intros Ha Hb. nia. Qed.

Section QuantizedTensors.

Variable data : ConvData.
Variable inputData : list Z.
Variable inputOffset : Z.
Variable filterData : list Z.
Variable filterOffset : Z.

Local Abbreviation macStep' := (macStep data inputData inputOffset filterData filterOffset).
Local Abbreviation windowLoop' := (windowLoop data inputData inputOffset filterData filterOffset).
Local Abbreviation accumulate' := (accumulate data inputData inputOffset filterData filterOffset).
Local Abbreviation macTerm' := (macTerm data inputData inputOffset filterData filterOffset).
Local Abbreviation windowSum' := (windowSum data inputData inputOffset filterData filterOffset).
Local Abbreviation accumulatorSum' :=
  (accumulatorSum data inputData inputOffset filterData filterOffset).

Hypothesis data_wf : data_ok data.
Hypothesis fit : buffersFit data inputData filterData.
Hypothesis input_q : quantizedTensor inputData.
Hypothesis filter_q : quantizedTensor filterData.
Hypothesis inputOffset_q : 0 <= inputOffset <= 255.
Hypothesis filterOffset_q : 0 <= filterOffset <= 255.

Local Abbreviation filterLeadOk := (filterLeadOk data).

Lemma filter_lookup (depthwise : bool) (c cIn dm yF xF : Z) :
  filterLeadOk depthwise c dm ->
  0 <= cIn < channelsInput data ->
  0 <= yF < heightFilter data -> 0 <= xF < widthFilter data ->
  exists fe,
    filterData !! Z.to_nat (filterIndex data depthwise c cIn dm yF xF) = Some fe /\
    0 <= fe <= 255.
Proof.
  intros Hlead Hc Hy Hx. destruct fit as (_ & _ & _ & _ & Hfits & Hlen).
  assert (Hidx : 0 <= filterIndex data depthwise c cIn dm yF xF < numElements (filterInfo data)).
  { unfold filterLeadOk in Hlead. destruct depthwise.
    - rewrite filterIndex_depthwise.
      pose proof (nchw_bound _ _ _ _ _ _ _ _ Hlead Hc Hy Hx) as Hb.
      change (_ * _ * _ * _) with (numElements (filterInfo data)) in Hb.
      rewrite u32_small by (unfold is_uint; lia). exact Hb.
    - rewrite filterIndex_standard.
      pose proof (nchw_bound _ _ _ _ _ _ _ _ Hlead Hc Hy Hx) as Hb.
      change (_ * _ * _ * _) with (numElements (filterInfo data)) in Hb.
      rewrite u32_small by (unfold is_uint; lia). exact Hb. }
  destruct (lookup_lt_is_Some_2 filterData
              (Z.to_nat (filterIndex data depthwise c cIn dm yF xF)) ltac:(lia)) as [fe Hfe].
  exists fe. split; [exact Hfe|].
  exact (Forall_lookup_1 _ _ _ _ filter_q Hfe).
Qed.

Lemma input_lookup (b cIn yIn xIn : Z) :
  0 <= b < batchSize data -> 0 <= cIn < channelsInput data ->
  inPadding data yIn xIn = false ->
  exists v,
    inputData !! Z.to_nat (inputIndex data b cIn yIn xIn) = Some v /\ 0 <= v <= 255.
Proof.
  intros Hb Hc Hpad. destruct fit as (HC & HN & Hfits & Hlen & _).
  apply (inPadding_false_inside data data_wf) in Hpad as [Hy Hx].
  pose proof (nchw_bound (dim0 (inputInfo0 data)) (channelsInput data)
                (heightInput data) (widthInput data) b cIn
                (yIn - paddingTop data) (xIn - paddingLeft data)
                ltac:(lia) Hc Hy Hx) as Hbound.
  assert (Hnum : dim0 (inputInfo0 data) * channelsInput data *
                 heightInput data * widthInput data = numElements (inputInfo0 data)).
  { unfold numElements. rewrite HC. reflexivity. }
  rewrite Hnum in Hbound.
  assert (Hidx : inputIndex data b cIn yIn xIn =
                 nchw (channelsInput data) (heightInput data) (widthInput data) b cIn
                   (yIn - paddingTop data) (xIn - paddingLeft data)).
  { rewrite inputIndex_nchw. apply u32_small. unfold is_uint. lia. }
  destruct (lookup_lt_is_Some_2 inputData
              (Z.to_nat (inputIndex data b cIn yIn xIn)) ltac:(lia)) as [v Hv].
  exists v. split; [exact Hv|].
  exact (Forall_lookup_1 _ _ _ _ input_q Hv).
Qed.

Lemma macStep_total (depthwise : bool) (b c y x cIn dm yF xF s : Z) :
  filterLeadOk depthwise c dm ->
  0 <= b < batchSize data -> 0 <= cIn < channelsInput data ->
  0 <= yF < heightFilter data -> 0 <= xF < widthFilter data ->
  - 65025 <= macTerm' depthwise b c y x cIn dm yF xF <= 65025 /\
  (INT32_MIN <= s - 65025 -> s + 65025 <= INT32_MAX ->
   macStep' depthwise b c y x cIn dm yF xF s =
   Ok (s + macTerm' depthwise b c y x cIn dm yF xF)).
Proof.
  intros Hlead Hb Hc Hy Hx.
  destruct (filter_lookup depthwise c cIn dm yF xF Hlead Hc Hy Hx) as (fe & Hfe & Hfeq).
  unfold macStep, macTerm, filterOperand, inputOperand, inputValueAt.
  rewrite Hfe, (read_lookup _ _ _ Hfe), bind_Ok.
  change (default 0 (Some fe)) with fe.
  assert (Hfv : -255 <= fe - filterOffset <= 255) by lia.
  rewrite int32_result_in_range, bind_Ok by (unfold INT32_MIN, INT32_MAX; lia).
  destruct (inPadding data (y *u hStride data +u yF) (x *u xStride data +u xF)) eqn:Hpad.
  - rewrite bind_Ok, Z.mul_0_r. split; [lia|]. intros Hlow Hhigh.
    rewrite int32_result_in_range, bind_Ok by (unfold INT32_MIN, INT32_MAX; lia).
    apply int32_result_in_range. lia.
  - destruct (input_lookup b cIn _ _ Hb Hc Hpad) as (v & Hv & Hvq).
    rewrite Hv, (read_lookup _ _ _ Hv), bind_Ok.
    change (default 0 (Some v)) with v.
    assert (Hiv : -255 <= v - inputOffset <= 255) by lia.
    pose proof (product_bound _ _ Hfv Hiv) as Hp.
    rewrite int32_result_in_range, bind_Ok by (unfold INT32_MIN, INT32_MAX; lia).
    split; [exact Hp|]. intros Hlow Hhigh.
    rewrite int32_result_in_range, bind_Ok by (unfold INT32_MIN, INT32_MAX; lia).
    apply int32_result_in_range. lia.
Qed.

Lemma filter_size_nonneg : 0 <= heightFilter data /\ 0 <= widthFilter data.
Proof. destruct (filter_dims_uint data data_wf) as (_ & _ & [H _] & [W _]). tauto. Qed.

Lemma windowLoop_total (depthwise : bool) (b c y x cIn dm s : Z) :
  filterLeadOk depthwise c dm ->
  0 <= b < batchSize data -> 0 <= cIn < channelsInput data ->
  - (65025 * (heightFilter data * widthFilter data)) <=
    windowSum' depthwise b c y x cIn dm <=
    65025 * (heightFilter data * widthFilter data) /\
  (INT32_MIN <= s - 65025 * (heightFilter data * widthFilter data) ->
   s + 65025 * (heightFilter data * widthFilter data) <= INT32_MAX ->
   windowLoop' depthwise b c y x cIn dm s =
   Ok (s + windowSum' depthwise b c y x cIn dm)).
Proof.
  intros Hlead Hb Hc. set (B := 65025 * (heightFilter data * widthFilter data)).
  destruct filter_size_nonneg as [HH HW].
  assert (Hrow : forall yF s0, 0 <= yF < heightFilter data ->
            - (65025 * widthFilter data) <=
              sumZ (widthFilter data) (fun xF => macTerm' depthwise b c y x cIn dm yF xF) <=
              65025 * widthFilter data /\
            (INT32_MIN <= s0 - 65025 * widthFilter data ->
             s0 + 65025 * widthFilter data <= INT32_MAX ->
             for_loop (widthFilter data)
               (fun xF sum => macStep' depthwise b c y x cIn dm yF xF sum) s0 =
             Ok (s0 + sumZ (widthFilter data)
                        (fun xF => macTerm' depthwise b c y x cIn dm yF xF)))).
  { intros yF s0 Hy.
    assert (Hterm : forall xF, 0 <= xF < widthFilter data ->
              - 65025 <= macTerm' depthwise b c y x cIn dm yF xF <= 65025).
    { intros xF Hx. apply (macStep_total depthwise b c y x cIn dm yF xF 0); assumption. }
    split.
    - apply sumZ_bound; assumption.
    - intros Hlow Hhigh.
      apply (for_loop_sum_total _ _ _ 65025); try assumption; try lia.
      intros xF s1 Hx. apply macStep_total; assumption. }
  unfold windowLoop, windowSum.
  assert (HB : B = 65025 * widthFilter data * heightFilter data) by (unfold B; ring).
  rewrite HB. split.
  - apply sumZ_bound; [assumption|]. intros yF Hy. apply (Hrow yF 0 Hy).
  - intros Hlow Hhigh.
    apply (for_loop_sum_total _ _ _ (65025 * widthFilter data)); try assumption; try lia.
    + intros yF Hy. apply (Hrow yF 0 Hy).
    + intros yF s0 Hy. apply (Hrow yF s0 Hy).
Qed.

Lemma accumulate_quantized (depthwise : bool) (b c y x : Z) :
  0 <= b < batchSize data -> 0 <= c < channelsOutput data depthwise ->
  65025 * macCount data depthwise <= INT32_MAX ->
  accumulate' depthwise b c y x = Ok (accumulatorSum' depthwise b c y x) /\
  - (65025 * macCount data depthwise) <= accumulatorSum' depthwise b c y x
    <= 65025 * macCount data depthwise.
Proof.
  intros Hb Hc Hcount. unfold accumulatorSum, macCount in *.
  destruct filter_size_nonneg as [HH HW].
  pose proof (Z.mul_nonneg_nonneg _ _ HH HW) as HHW.
  destruct depthwise.
  - destruct (depthwise_mapping_bounds data data_wf _ Hc) as [Hin Hm].
    rewrite accumulate_depthwise by assumption.
    destruct (windowLoop_total true b c y x _ _ 0 Hm Hb Hin) as [Hbound Hrun].
    rewrite Hrun by (unfold INT32_MIN, INT32_MAX in *; lia).
    split; [reflexivity|lia].
  - rewrite accumulate_standard by assumption.
    pose proof (channelsInput_uint data data_wf) as [HC _].
    assert (Hwin : forall cIn, 0 <= cIn < channelsInput data ->
              - (65025 * (heightFilter data * widthFilter data)) <=
                windowSum' false b c y x cIn 0 <=
                65025 * (heightFilter data * widthFilter data)).
    { intros cIn HcIn. exact (proj1 (windowLoop_total false b c y x cIn 0 0 Hc Hb HcIn)). }
    assert (E : 65025 * (heightFilter data * widthFilter data) * channelsInput data =
                65025 * (channelsInput data * (heightFilter data * widthFilter data)))
      by ring.
    split.
    + rewrite <- (Z.add_0_l (sumZ _ _)).
      apply (for_loop_sum_total _ _
               (fun cIn => windowSum' false b c y x cIn 0)
               (65025 * (heightFilter data * widthFilter data)));
        try assumption; try (unfold INT32_MIN, INT32_MAX in *; lia).
      intros cIn s0 HcIn. exact (proj2 (windowLoop_total false b c y x cIn 0 s0 Hc Hb HcIn)).
    + pose proof (sumZ_bound _ _ _ HC Hwin). lia.
Qed.

(** X6: on unsigned 8-bit input and filter tensors that fill their
    shapes, with zero points in [0, 255] and at most INT32_MAX / 65025
    products per output element, the accumulation of every output element
    returns: no read leaves a buffer, no int32 operation overflows, and the
    result is the sum of the products, of magnitude at most 65025 per
    product. *)
Theorem quantized_accumulate_safe (depthwise : bool) (b c y x : Z) :
  0 <= b < batchSize data -> 0 <= c < channelsOutput data depthwise ->
  65025 * macCount data depthwise <= INT32_MAX ->
  accumulate' depthwise b c y x = Ok (accumulatorSum' depthwise b c y x) /\
  - (65025 * macCount data depthwise) <= accumulatorSum' depthwise b c y x
    <= 65025 * macCount data depthwise.
Proof. apply accumulate_quantized. Qed.

End QuantizedTensors.

(** ** The whole kernel on quantized tensors *)

Section QuantizedKernel.

Variable float : Type.
Variable float_mul : float -> float -> float.
Variable float_div : float -> float -> float.
Variable float_nonzero : float -> bool.
Variable QuantizedMultiplierSmallerThanOne_new :
  float -> outcome QuantizedMultiplierSmallerThanOne.

Variable data : ConvData.
Variable inputData : list Z.
Variable inputScale : float.
Variable inputOffset : Z.
Variable filterData : list Z.
Variable filterScale : float.
Variable filterOffset : Z.
Variable biasData : option (list Z).
Variable outputScale : float.
Variable outputOffset : Z.
Variable depthwise : bool.

Local Abbreviation outputElement' :=
  (outputElement float float_mul float_div float_nonzero
     QuantizedMultiplierSmallerThanOne_new data inputData inputScale inputOffset
     filterData filterScale filterOffset biasData outputScale outputOffset depthwise).
Local Abbreviation ConvImpl' :=
  (ConvImpl float float_mul float_div float_nonzero
     QuantizedMultiplierSmallerThanOne_new data inputData inputScale inputOffset
     filterData filterScale filterOffset biasData outputScale outputOffset depthwise).

Variable q : QuantizedMultiplierSmallerThanOne.
Variable biasBound : Z.

Hypothesis data_wf : data_ok data.
Hypothesis fit : buffersFit data inputData filterData.
Hypothesis input_q : quantizedTensor inputData.
Hypothesis filter_q : quantizedTensor filterData.
Hypothesis inputOffset_q : 0 <= inputOffset <= 255.
Hypothesis filterOffset_q : 0 <= filterOffset <= 255.
Hypothesis outputOffset_q : 0 <= outputOffset <= 255.
Hypothesis scale_nonzero : float_nonzero outputScale = true.
Hypothesis multiplier_built :
  QuantizedMultiplierSmallerThanOne_new
    (float_div (float_mul inputScale filterScale) outputScale) = Ok q.
Hypothesis multiplier_sane : 0 <= m_Multiplier q <= INT32_MAX /\ 0 <= m_RightShift q.
Hypothesis bias_fits :
  m_BiasEnabled (m_Parameters data) = true ->
  exists bias,
    biasData = Some bias /\
    channelsOutput data depthwise <= Z.of_nat (length bias) /\
    Forall (fun v => - biasBound <= v <= biasBound) bias.
Hypothesis biasBound_nonneg : 0 <= biasBound.
Hypothesis accumulator_fits :
  65025 * macCount data depthwise + biasBound <= INT32_MAX - 255.

Lemma outputElement_quantized (b c y x : Z) :
  inOutput data depthwise b c y x ->
  exists v, outputElement' b c y x = Ok v /\ 0 <= v <= 255.
Proof.
  intros (Hb & Hc & _ & _).
  destruct (accumulate_quantized data inputData inputOffset filterData filterOffset
              data_wf fit input_q filter_q inputOffset_q filterOffset_q
              depthwise b c y x Hb Hc) as [Hacc Hbound].
  { unfold INT32_MAX in *. lia. }
  unfold outputElement. rewrite Hacc, bind_Ok.
  set (acc := accumulatorSum data inputData inputOffset filterData filterOffset
                depthwise b c y x) in *.
  assert (Hbias : exists acc', addBias data biasData c acc = Ok acc' /\
                               INT32_MIN + 255 <= acc' <= INT32_MAX - 255).
  { unfold addBias. destruct (m_BiasEnabled (m_Parameters data)) eqn:Hen.
    - destruct (bias_fits eq_refl) as (bias & Hsome & Hlen & Hall). rewrite Hsome.
      destruct (lookup_lt_is_Some_2 bias (Z.to_nat c) ltac:(lia)) as [bv Hbv].
      pose proof (Forall_lookup_1 _ _ _ _ Hall Hbv) as Hbvq. cbv beta in Hbvq.
      rewrite (read_lookup _ _ _ Hbv), bind_Ok.
      exists (acc + bv).
      split; [apply int32_result_in_range|]; unfold INT32_MIN, INT32_MAX in *; lia.
    - exists acc. split; [reflexivity|]. unfold INT32_MIN, INT32_MAX in *. lia. }
  destruct Hbias as (acc' & -> & Hacc'). rewrite bind_Ok.
  destruct multiplier_sane as [Hm Hs].
  pose proof (multiplier_shrinks q acc' Hm Hs) as Hshrink.
  unfold requantize. rewrite scale_nonzero, multiplier_built, bind_Ok.
  rewrite int32_result_in_range, !bind_Ok by (unfold INT32_MIN, INT32_MAX in *; lia).
  eexists. split; [apply numeric_cast_uint8_Ok|]; lia.
Qed.

(** X7: on unsigned 8-bit input and filter tensors that fill their
    shapes, with zero points in [0, 255], a bias bounded so that
    65025 * products + bias stays 255 below INT32_MAX, a multiplier with a
    significand in [0, INT32_MAX] and a shift that is not negative, and an
    output buffer that holds the output tensor, the kernel returns, and every
    element of the output tensor it leaves is in [0, 255].  The product with
    the multiplier is the operator as it is modelled above, whose body is not
    among the sources. *)
Theorem quantized_ConvImpl_returns (out : list Z) :
  outputCount data depthwise < UINT_MODULUS ->
  outputCount data depthwise <= Z.of_nat (length out) ->
  exists out',
    ConvImpl' out = Ok out' /\
    forall i : nat,
      Z.of_nat i < outputCount data depthwise ->
      exists v, out' !! i = Some v /\ 0 <= v <= 255.
Proof.
  intros Hfits Hlen.
  assert (Hguard : ConvImpl' out =
                   convLoops float float_mul float_div float_nonzero
                     QuantizedMultiplierSmallerThanOne_new data inputData inputScale
                     inputOffset filterData filterScale filterOffset biasData outputScale
                     outputOffset depthwise out).
  { unfold ConvImpl. destruct (m_BiasEnabled (m_Parameters data)) eqn:Hen; [|reflexivity].
    destruct (bias_fits eq_refl) as (bias & Hsome & _). rewrite Hsome. reflexivity. }
  destruct (convLoops_total float float_mul float_div float_nonzero
              QuantizedMultiplierSmallerThanOne_new data inputData inputScale inputOffset
              filterData filterScale filterOffset biasData outputScale outputOffset
              depthwise Hfits out) as [out' Hrun].
  { intros b c y x Hc. destruct (outputElement_quantized b c y x Hc) as (v & Hv & _). eauto. }
  { exact Hlen. }
  exists out'. split; [rewrite Hguard; exact Hrun|].
  apply convLoops_Wrote in Hrun as (_ & Hin & _); [|exact Hfits].
  intros i Hi.
  destruct (outputIndex_onto data depthwise data_wf Hfits i Hi) as (b & c & y & x & Hc & <-).
  destruct (Hin b c y x Hc) as (v & Hv & Hlook).
  destruct (outputElement_quantized b c y x Hc) as (v' & Hv' & Hrange).
  exists v. split; [exact Hlook|]. congruence.
Qed.

End QuantizedKernel.

(** ** Moving a zero point *)

Lemma read_shifted (buf : list Z) (k i : Z) :
  read ((fun v => v + k) <$> buf) i = (v ← read buf i; Ok (v + k)).
Proof.
  unfold read. rewrite list_lookup_fmap.
  destruct (buf !! Z.to_nat i); reflexivity.
Qed.

Section ZeroPointShift.

Variable float : Type.
Variable float_mul : float -> float -> float.
Variable float_div : float -> float -> float.
Variable float_nonzero : float -> bool.
Variable QuantizedMultiplierSmallerThanOne_new :
  float -> outcome QuantizedMultiplierSmallerThanOne.

Variable data : ConvData.
Variable inputData : list Z.
Variable inputScale : float.
Variable inputOffset : Z.
Variable filterData : list Z.
Variable filterScale : float.
Variable filterOffset : Z.
Variable biasData : option (list Z).
Variable outputScale : float.
Variable outputOffset : Z.
Variable depthwise : bool.

(** The shifts of the input's and the filter's zero points. *)
Variable ki kf : Z.

Local Abbreviation inputData' := ((fun v => v + ki) <$> inputData).
Local Abbreviation filterData' := ((fun v => v + kf) <$> filterData).

Lemma macStep_shifted (b c y x cIn dm yF xF s : Z) :
  macStep data inputData' (inputOffset + ki) filterData' (filterOffset + kf) depthwise
    b c y x cIn dm yF xF s =
  macStep data inputData inputOffset filterData filterOffset depthwise
    b c y x cIn dm yF xF s.
Proof.
  unfold macStep, inputValueAt. rewrite !read_shifted.
  destruct (read filterData _) as [f|e]; [|reflexivity]. rewrite !bind_Ok.
  replace (f + kf - (filterOffset + kf)) with (f - filterOffset) by ring.
  destruct (int32_result (f - filterOffset)) as [fv|e]; [|reflexivity]. rewrite !bind_Ok.
  destruct (inPadding data _ _); [reflexivity|].
  destruct (read inputData _) as [v|e]; [|reflexivity]. rewrite !bind_Ok.
  replace (v + ki - (inputOffset + ki)) with (v - inputOffset) by ring. reflexivity.
Qed.

Lemma windowLoop_shifted (b c y x cIn dm s : Z) :
  windowLoop data inputData' (inputOffset + ki) filterData' (filterOffset + kf) depthwise
    b c y x cIn dm s =
  windowLoop data inputData inputOffset filterData filterOffset depthwise
    b c y x cIn dm s.
Proof.
  unfold windowLoop. apply for_loop_ext. intros yF s0 _.
  apply for_loop_ext. intros xF s1 _. apply macStep_shifted.
Qed.

Lemma cInputLoop_shifted (fuel : nat) (b c y x cIn s : Z) :
  cInputLoop data inputData' (inputOffset + ki) filterData' (filterOffset + kf) depthwise
    fuel b c y x cIn s =
  cInputLoop data inputData inputOffset filterData filterOffset depthwise
    fuel b c y x cIn s.
Proof.
  revert cIn s. induction fuel as [|fuel IH]; intros cIn s; [reflexivity|].
  rewrite !cInputLoop_S.
  destruct (cIn <? (if depthwise then 1 else channelsInput data)); [|reflexivity].
  destruct (if depthwise
            then if depthMult data depthwise =? 0
                 then Err UndefinedBehaviour
                 else Ok (c / depthMult data depthwise, c mod depthMult data depthwise)
            else Ok (cIn, 0)) as [[cIn' dm]|e]; [|reflexivity].
  rewrite !bind_Ok. cbv beta iota. rewrite windowLoop_shifted.
  destruct (windowLoop data inputData inputOffset filterData filterOffset depthwise
              b c y x cIn' dm s) as [s'|e]; [|reflexivity].
  rewrite !bind_Ok. apply IH.
Qed.

(** X8: the kernel sees its operands only through (value - zero point):
    adding [ki] to every input element and to [inputOffset], and [kf] to every
    filter element and to [filterOffset], changes nothing in what a run
    returns, padding included. *)
Theorem ConvImpl_zero_point_shift (outputData : list Z) :
  ConvImpl float float_mul float_div float_nonzero QuantizedMultiplierSmallerThanOne_new
    data inputData' inputScale (inputOffset + ki) filterData' filterScale (filterOffset + kf)
    biasData outputScale outputOffset depthwise outputData =
  ConvImpl float float_mul float_div float_nonzero QuantizedMultiplierSmallerThanOne_new
    data inputData inputScale inputOffset filterData filterScale filterOffset
    biasData outputScale outputOffset depthwise outputData.
Proof.
  unfold ConvImpl.
  destruct (negb (m_BiasEnabled (m_Parameters data)) || bool_decide (biasData <> None));
    [|reflexivity].
  unfold convLoops.
  apply for_loop_ext. intros b o0 _. apply for_loop_ext. intros c o1 _.
  apply for_loop_ext. intros y o2 _. apply for_loop_ext. intros x o3 _.
  unfold outputElement, accumulate. rewrite cInputLoop_shifted. reflexivity.
Qed.

End ZeroPointShift.

(** * Properties of the classifier test case *)

(** ** The prediction *)

Section Prediction.

Variable DataType : Type.
Variable less : DataType -> DataType -> bool.

(** [operator<] is a strict weak ordering, as [std::max_element] and
    [std::map] ask. *)
Hypothesis less_irrefl : forall a, less a a = false.
Hypothesis less_trans : forall a b c, less a b = true -> less b c = true -> less a c = true.
Hypothesis less_cotrans :
  forall a b c, less a b = true -> less a c = true \/ less c b = true.

Lemma max_element_from_first_maximum (range pre : list DataType) (largest : nat)
    (v : DataType) :
  pre !! largest = Some v ->
  (forall j x, pre !! j = Some x -> less v x = false) ->
  (forall j x, (j < largest)%nat -> pre !! j = Some x -> less x v = true) ->
  let p := max_element_from DataType less largest v (length pre) range in
  exists w,
    (pre ++ range) !! p = Some w /\
    (forall j x, (pre ++ range) !! j = Some x -> less w x = false) /\
    (forall j x, (j < p)%nat -> (pre ++ range) !! j = Some x -> less x w = true).
Proof.
  revert pre largest v. induction range as [|o range IH]; intros pre largest v Hv Hmax Hfirst.
  - cbn. rewrite app_nil_r. eauto.
  - cbn [max_element_from].
    replace (pre ++ o :: range) with ((pre ++ [o]) ++ range) by (rewrite <- app_assoc; reflexivity).
    replace (S (length pre)) with (length (pre ++ [o])) by (rewrite length_app; cbn; lia).
    pose proof (lookup_lt_Some _ _ _ Hv) as Hlt.
    destruct (less v o) eqn:Hvo.
    + replace (length pre) with (length pre + 0)%nat at 1 by lia.
      replace (max_element_from DataType less (length pre + 0) o (length (pre ++ [o])) range)
        with (max_element_from DataType less (length pre) o (length (pre ++ [o])) range)
        by (f_equal; lia).
      apply IH.
      * rewrite lookup_app_r by lia. rewrite Nat.sub_diag. reflexivity.
      * intros j x Hx. apply lookup_app_Some in Hx as [Hx|[Hj Hx]].
        -- destruct (less o x) eqn:Hox; [|reflexivity].
           pose proof (Hmax j x Hx) as Hc. rewrite (less_trans _ _ _ Hvo Hox) in Hc.
           discriminate.
        -- destruct (j - length pre)%nat; [|destruct n; discriminate].
           injection Hx as <-. apply less_irrefl.
      * intros j x Hj Hx. rewrite lookup_app_l in Hx by exact Hj.
        destruct (less_cotrans _ _ x Hvo) as [Hc|Hc]; [|exact Hc].
        rewrite (Hmax j x Hx) in Hc. discriminate.
    + apply IH.
      * rewrite lookup_app_l by exact Hlt. exact Hv.
      * intros j x Hx. apply lookup_app_Some in Hx as [Hx|[Hj Hx]]; [eauto|].
        destruct (j - length pre)%nat; [|destruct n; discriminate].
        injection Hx as <-. exact Hvo.
      * intros j x Hj Hx. rewrite lookup_app_l in Hx by lia. eauto.
Qed.

(** X9: on a non-empty output the prediction is the index of a greatest
    element, and the first such index: no element is greater than the one
    predicted, and every element before it is less. *)
Theorem prediction_is_first_maximum (output : list DataType) :
  output <> [] ->
  let p := max_element_distance DataType less output in
  exists w,
    output !! p = Some w /\
    (forall j x, output !! j = Some x -> less w x = false) /\
    (forall j x, (j < p)%nat -> output !! j = Some x -> less x w = true).
Proof.
  destruct output as [|o range]; [congruence|]. intros _.
  apply (max_element_from_first_maximum range [o] 0 o).
  - reflexivity.
  - intros j x Hx. destruct j; [|discriminate]. injection Hx as <-. apply less_irrefl.
  - intros j x Hj. lia.
Qed.

End Prediction.

(** ** The result map *)

Section ResultMap.

Variable DataType : Type.
Variable less : DataType -> DataType -> bool.

Hypothesis less_irrefl : forall a, less a a = false.
Hypothesis less_trans : forall a b c, less a b = true -> less b c = true -> less a c = true.
Hypothesis less_cotrans :
  forall a b c, less a b = true -> less a c = true \/ less c b = true.

Local Abbreviation eqv := (equivalent less).

Lemma equivalent_refl (a : DataType) : eqv a a.
Proof. split; apply less_irrefl. Qed.

Lemma equivalent_sym (a b : DataType) : eqv a b -> eqv b a.
Proof. intros [H1 H2]. split; assumption. Qed.

Lemma less_equivalent_l (a b c : DataType) :
  eqv a b -> less a c = true -> less b c = true.
Proof.
  intros [Hab Hba] Hac. destruct (less_cotrans a c b Hac) as [H|H]; [congruence|exact H].
Qed.

Lemma less_equivalent_r (a b c : DataType) :
  eqv a b -> less c a = true -> less c b = true.
Proof.
  intros [Hab Hba] Hca. destruct (less_cotrans c a b Hca) as [H|H]; [exact H|congruence].
Qed.

Lemma equivalent_trans (a b c : DataType) : eqv a b -> eqv b c -> eqv a c.
Proof.
  intros Hab Hbc. split.
  - destruct (less a c) eqn:H; [|reflexivity].
    pose proof (less_equivalent_l a b c Hab H) as H'. destruct Hbc. congruence.
  - destruct (less c a) eqn:H; [|reflexivity].
    pose proof (less_equivalent_r a b c Hab H) as H'. destruct Hbc. congruence.
Qed.

Lemma less_not_equivalent (a b : DataType) : less a b = true -> ~ eqv a b.
Proof. intros H [H1 _]. congruence. Qed.

Lemma less_not_equivalent' (a b : DataType) : less a b = true -> ~ eqv b a.
Proof. intros H [_ H1]. congruence. Qed.

Lemma map_assign_elem (key : DataType) (index : Z) (m : list (DataType * Z)) k v :
  keys_ascending less m ->
  (k, v) ∈ map_assign DataType less key index m ->
  (eqv key k /\ v = index) \/ (~ eqv key k /\ (k, v) ∈ m).
Proof.
  induction m as [|[k0 v0] m IH]; cbn [map_assign keys_ascending].
  - intros _ Hin. apply list_elem_of_singleton in Hin. injection Hin as -> ->.
    left. split; [apply equivalent_refl|reflexivity].
  - intros [Hall Hasc]. rewrite list.Forall_forall in Hall.
    destruct (less key k0) eqn:H1; [|destruct (less k0 key) eqn:H2].
    + intros Hin. apply elem_of_cons in Hin as [Hin|Hin].
      * injection Hin as -> ->. left. split; [apply equivalent_refl|reflexivity].
      * right. split; [|exact Hin]. apply less_not_equivalent.
        apply elem_of_cons in Hin as [Hin|Hin].
        -- injection Hin as -> ->. exact H1.
        -- apply (less_trans _ _ _ H1). exact (Hall _ Hin).
    + intros Hin. apply elem_of_cons in Hin as [Hin|Hin].
      * injection Hin as -> ->. right. split; [|left].
        apply less_not_equivalent'. exact H2.
      * destruct (IH Hasc Hin) as [Hl|[Hn Hr]]; [left; exact Hl|right].
        split; [exact Hn|right; exact Hr].
    + intros Hin. apply elem_of_cons in Hin as [Hin|Hin].
      * injection Hin as -> ->. left. split; [split; assumption|reflexivity].
      * right. split; [|right; exact Hin]. apply less_not_equivalent.
        apply (less_equivalent_l k0 key k); [split; assumption|]. exact (Hall _ Hin).
Qed.

Lemma map_assign_other (key : DataType) (index : Z) (m : list (DataType * Z)) k v :
  (k, v) ∈ m -> ~ eqv key k -> (k, v) ∈ map_assign DataType less key index m.
Proof.
  induction m as [|[k0 v0] m IH]; cbn [map_assign]; intros Hin Hn.
  - apply elem_of_nil in Hin. contradiction.
  - destruct (less key k0) eqn:H1; [|destruct (less k0 key) eqn:H2].
    + right. exact Hin.
    + apply elem_of_cons in Hin as [Hin|Hin]; [rewrite Hin; left|right; auto].
    + apply elem_of_cons in Hin as [Hin|Hin]; [|right; exact Hin].
      injection Hin as -> ->. exfalso. apply Hn. split; assumption.
Qed.

Lemma map_assign_key (key : DataType) (index : Z) (m : list (DataType * Z)) :
  exists k, (k, index) ∈ map_assign DataType less key index m /\ eqv key k.
Proof.
  induction m as [|[k0 v0] m IH]; cbn [map_assign].
  - exists key. split; [left|apply equivalent_refl].
  - destruct (less key k0) eqn:H1; [|destruct (less k0 key) eqn:H2].
    + exists key. split; [left|apply equivalent_refl].
    + destruct IH as (k & Hin & He). exists k. split; [right; exact Hin|exact He].
    + exists k0. split; [left|split; assumption].
Qed.

Lemma map_assign_keys (key : DataType) (index : Z) (m : list (DataType * Z)) e :
  e ∈ map_assign DataType less key index m ->
  fst e = key \/ exists e', e' ∈ m /\ fst e' = fst e.
Proof.
  induction m as [|[k0 v0] m IH]; cbn [map_assign]; intros Hin.
  - apply list_elem_of_singleton in Hin. subst e. left. reflexivity.
  - destruct (less key k0) eqn:H1; [|destruct (less k0 key) eqn:H2].
    + apply elem_of_cons in Hin as [->|Hin]; [left; reflexivity|right; eauto].
    + apply elem_of_cons in Hin as [->|Hin].
      * right. exists (k0, v0). split; [left|reflexivity].
      * destruct (IH Hin) as [Hl|(e' & He' & Hf)]; [left; exact Hl|right].
        exists e'. split; [right; exact He'|exact Hf].
    + apply elem_of_cons in Hin as [->|Hin].
      * right. exists (k0, v0). split; [left|reflexivity].
      * right. exists e. split; [right; exact Hin|reflexivity].
Qed.

Lemma map_assign_ascending (key : DataType) (index : Z) (m : list (DataType * Z)) :
  keys_ascending less m -> keys_ascending less (map_assign DataType less key index m).
Proof.
  induction m as [|[k0 v0] m IH]; cbn [map_assign keys_ascending].
  - intros _. split; [constructor|exact I].
  - intros [Hall Hasc].
    destruct (less key k0) eqn:H1; [|destruct (less k0 key) eqn:H2];
      cbn [keys_ascending].
    + split; [|split; assumption]. constructor; [exact H1|].
      rewrite list.Forall_forall in Hall |- *. intros e He.
      apply (less_trans _ _ _ H1). exact (Hall _ He).
    + split; [|exact (IH Hasc)].
      rewrite list.Forall_forall in Hall |- *. intros e He.
      destruct (map_assign_keys _ _ _ _ He) as [->|(e' & He' & <-)]; [exact H2|].
      exact (Hall _ He').
    + split; assumption.
Qed.

Lemma resultMap_of_step (pre : list DataType) (o : DataType) (m : list (DataType * Z)) :
  resultMap_of less pre m ->
  resultMap_of less (pre ++ [o])
    (map_assign DataType less o (Z.of_nat (length pre)) m).
Proof.
  intros (Hasc & Hent & Hcov). split; [|split].
  - apply map_assign_ascending. exact Hasc.
  - intros k v Hin.
    destruct (map_assign_elem _ _ _ _ _ Hasc Hin) as [[He ->]|[Hn Hold]].
    + split; [lia|]. rewrite Nat2Z.id. split.
      * exists o. split; [|exact He].
        rewrite lookup_app_r by lia. rewrite Nat.sub_diag. reflexivity.
      * intros j x Hj Hx. apply lookup_lt_Some in Hx.
        rewrite length_app in Hx. cbn in Hx. lia.
    + destruct (Hent _ _ Hold) as (Hv & (x & Hx & He) & Hlast).
      split; [exact Hv|]. split.
      * exists x. split; [|exact He].
        rewrite lookup_app_l by (apply lookup_lt_Some in Hx; exact Hx). exact Hx.
      * intros j x' Hj Hx'. apply lookup_app_Some in Hx' as [Hx'|[Hge Hx']].
        -- exact (Hlast _ _ Hj Hx').
        -- destruct (j - length pre)%nat; [|destruct n; discriminate].
           injection Hx' as <-. exact Hn.
  - intros j x Hx. apply lookup_app_Some in Hx as [Hx|[Hge Hx]].
    + destruct (Hcov _ _ Hx) as (k & v & Hin & He).
      destruct (map_assign_key o (Z.of_nat (length pre)) m) as (k' & Hin' & He').
      destruct (less o k) eqn:H1; [|destruct (less k o) eqn:H2].
      * exists k, v. split; [|exact He].
        apply map_assign_other; [exact Hin|]. apply less_not_equivalent. exact H1.
      * exists k, v. split; [|exact He].
        apply map_assign_other; [exact Hin|]. apply less_not_equivalent'. exact H2.
      * exists k', (Z.of_nat (length pre)). split; [exact Hin'|].
        apply (equivalent_trans x k k' He).
        apply (equivalent_trans k o k'); [split; assumption|exact He'].
    + destruct (j - length pre)%nat; [|destruct n; discriminate].
      injection Hx as <-.
      destruct (map_assign_key o (Z.of_nat (length pre)) m) as (k' & Hin' & He').
      exists k', (Z.of_nat (length pre)). split; assumption.
Qed.

Lemma fill_resultMap_of (range pre : list DataType) (m m' : list (DataType * Z)) :
  resultMap_of less pre m ->
  fill_resultMap DataType less range (Z.of_nat (length pre)) m = Ok m' ->
  resultMap_of less (pre ++ range) m'.
Proof.
  revert pre m. induction range as [|o range IH]; intros pre m Hinv Hrun.
  - cbn in Hrun. injection Hrun as <-. rewrite app_nil_r. exact Hinv.
  - cbn [fill_resultMap] in Hrun. unfold int32_result in Hrun.
    destruct (in_int32 (Z.of_nat (length pre) + 1)); [|discriminate].
    cbn in Hrun.
    replace (pre ++ o :: range) with ((pre ++ [o]) ++ range)
      by (rewrite <- app_assoc; reflexivity).
    apply (IH (pre ++ [o]) (map_assign DataType less o (Z.of_nat (length pre)) m)).
    + apply resultMap_of_step. exact Hinv.
    + rewrite length_app. cbn [length].
      replace (Z.of_nat (length pre + 1)) with (Z.of_nat (length pre) + 1) by lia.
      exact Hrun.
Qed.

Lemma resultMap_of_nil : resultMap_of less [] [].
Proof.
  split; [exact I|]. split.
  - intros k v Hin. apply elem_of_nil in Hin. contradiction.
  - intros j x Hx. discriminate.
Qed.

Lemma keys_ascending_last (m : list (DataType * Z)) (kmax : DataType) (vmax : Z) :
  keys_ascending less (m ++ [(kmax, vmax)]) ->
  forall e, e ∈ m -> less (fst e) kmax = true.
Proof.
  induction m as [|[k0 v0] m IH]; cbn [keys_ascending app].
  - intros _ e He. apply elem_of_nil in He. contradiction.
  - intros [Hall Hasc] e He. apply elem_of_cons in He as [->|He].
    + rewrite list.Forall_forall in Hall. apply (Hall (kmax, vmax)).
      apply elem_of_app. right. left.
    + exact (IH Hasc e He).
Qed.

(** The entry of the greatest key: its index is the last position of a
    greatest element. *)
Lemma resultMap_of_greatest (output : list DataType) (m : list (DataType * Z))
    (kmax : DataType) (vmax : Z) :
  resultMap_of less output (m ++ [(kmax, vmax)]) ->
  0 <= vmax /\
  exists w,
    output !! Z.to_nat vmax = Some w /\
    equivalent less w kmax /\
    (forall j x, output !! j = Some x -> less w x = false) /\
    (forall j x, (Z.to_nat vmax < j)%nat -> output !! j = Some x -> less x w = true).
Proof.
  intros (Hasc & Hent & Hcov).
  destruct (Hent kmax vmax) as (Hv & (w & Hw & He) & Hlast).
  { apply elem_of_app. right. left. }
  assert (Hmax : forall j x, output !! j = Some x -> less kmax x = false).
  { intros j x Hx. destruct (Hcov _ _ Hx) as (k & v & Hin & Hxk).
    destruct (less kmax x) eqn:Hlt; [|reflexivity].
    apply elem_of_app in Hin as [Hin|Hin].
    - pose proof (keys_ascending_last _ _ _ Hasc _ Hin) as Hk. cbn in Hk.
      pose proof (less_equivalent_r x k kmax Hxk Hlt) as Hkk.
      pose proof (less_trans _ _ _ Hk Hkk) as Hc. rewrite less_irrefl in Hc.
      discriminate.
    - apply list_elem_of_singleton in Hin. injection Hin as -> ->.
      destruct Hxk. congruence. }
  split; [exact Hv|]. exists w. split; [exact Hw|]. split; [exact He|]. split.
  - intros j x Hx. destruct (less w x) eqn:Hlt; [|reflexivity].
    pose proof (less_equivalent_l w kmax x He Hlt) as Hc.
    rewrite (Hmax j x Hx) in Hc. discriminate.
  - intros j x Hj Hx.
    destruct (less x w) eqn:Hlt; [reflexivity|]. exfalso.
    apply (Hlast j x Hj Hx). split.
    + destruct (less x kmax) eqn:Hxk; [|reflexivity].
      pose proof (less_equivalent_r kmax w x (equivalent_sym _ _ He) Hxk) as Hc.
      congruence.
    + exact (Hmax j x Hx).
Qed.

End ResultMap.

(** ** Processing a result *)

Lemma int32_result_inv (z r : Z) :
  int32_result z = Ok r -> r = z /\ INT32_MIN <= z <= INT32_MAX.
Proof.
  unfold int32_result, in_int32.
  destruct (Z.leb_spec INT32_MIN z); [|discriminate].
  destruct (Z.leb_spec z INT32_MAX); [|discriminate].
  intros [= <-]. lia.
Qed.

Lemma numeric_cast_uint_Ok (z : Z) :
  0 <= z < UINT_MODULUS -> numeric_cast_uint z = Ok z.
Proof.
  intros H. unfold numeric_cast_uint.
  destruct (Z.leb_spec 0 z); [|lia]. destruct (Z.ltb_spec z UINT_MODULUS); [reflexivity|lia].
Qed.

Lemma numeric_cast_uint_inv (z r : Z) :
  numeric_cast_uint z = Ok r -> r = z /\ 0 <= z < UINT_MODULUS.
Proof.
  unfold numeric_cast_uint.
  destruct (Z.leb_spec 0 z); [|discriminate].
  destruct (Z.ltb_spec z UINT_MODULUS); [|discriminate].
  intros [= <-]. lia.
Qed.

Lemma read_Ok_lookup (buf : list Z) (i v : Z) :
  read buf i = Ok v -> buf !! Z.to_nat i = Some v.
Proof.
  unfold read. destruct (buf !! Z.to_nat i) as [w|]; [|discriminate].
  intros [= <-]. reflexivity.
Qed.

Lemma vector_empty_nil {A : Type} (v : list A) : vector_empty v = true <-> v = [].
Proof. destruct v; cbn; split; congruence. Qed.

Section ProcessResult.

Variable DataType : Type.
Variable less : DataType -> DataType -> bool.
Variable InputType : Type.

Local Abbreviation TestCase := (ClassifierTestCase InputType).
Local Abbreviation ProcessResult' := (ProcessResult DataType less InputType).
Local Abbreviation GetTestCase' := (GetTestCase InputType).
Local Abbreviation prediction_of :=
  (fun output : list DataType => Z.of_nat (max_element_distance DataType less output)).

Lemma max_element_from_bound (range : list DataType) (largest : nat) (v : DataType)
    (first : nat) :
  (largest < first)%nat ->
  (max_element_from DataType less largest v first range < first + length range)%nat.
Proof.
  revert largest v first. induction range as [|o range IH]; intros largest v first Hlt.
  - cbn. lia.
  - cbn [max_element_from length]. destruct (less v o).
    + specialize (IH first o (S first)). lia.
    + specialize (IH largest v (S first)). lia.
Qed.

Lemma max_element_distance_bound (output : list DataType) :
  (max_element_distance DataType less output <= length output)%nat /\
  (output <> [] -> (max_element_distance DataType less output < length output)%nat).
Proof.
  destruct output as [|o range]; cbn [max_element_distance length].
  - split; [lia|congruence].
  - pose proof (max_element_from_bound range 0 o 1). split; [|intros _]; lia.
Qed.

Lemma fill_resultMap_total (output : list DataType) (index : Z)
    (m : list (DataType * Z)) :
  INT32_MIN <= index -> index + Z.of_nat (length output) <= INT32_MAX ->
  exists m', fill_resultMap DataType less output index m = Ok m'.
Proof.
  revert index m. induction output as [|o output IH]; intros index m Hlo Hhi.
  - eexists. reflexivity.
  - cbn [fill_resultMap]. cbn [length] in Hhi.
    rewrite int32_result_in_range, bind_Ok by lia.
    apply IH; lia.
Qed.

(** What a run of [ProcessResult] that returns has done. *)
Lemma ProcessResult_inv (this : TestCase) (m_IterationCount : Z)
    (output : list DataType) (provider : ClassifierTestCaseProvider)
    (r : TestCaseResult.t) (provider' : ClassifierTestCaseProvider)
    (log : list (LogRecord DataType)) :
  ProcessResult' this m_IterationCount output provider = Ok (r, provider', log) ->
  let prediction := prediction_of output in
  exists resultMap tail,
    fill_resultMap DataType less output 0 [] = Ok resultMap /\
    log = LogPredictionValues DataType (m_TestCaseId _ this)
            :: log_top DataType resultMap ++ tail /\
    prediction < UINT_MODULUS /\
    ((r = TestCaseResult.Failed /\ provider' = provider /\
      m_IterationCount = 0 /\ prediction <> m_Label _ this) \/
     (r = TestCaseResult.Failed /\ provider' = provider /\
      (m_IterationCount = 0 -> prediction = m_Label _ this) /\
      m_ValidationPredictions provider <> [] /\
      exists expected,
        m_ValidationPredictions provider !! Z.to_nat (m_TestCaseId _ this) = Some expected /\
        prediction <> expected) \/
     (r = TestCaseResult.Ok /\ tail = [] /\
      (m_IterationCount = 0 -> prediction = m_Label _ this) /\
      (m_ValidationPredictions provider <> [] ->
       m_ValidationPredictions provider !! Z.to_nat (m_TestCaseId _ this) = Some prediction) /\
      m_NumInferences provider + 1 <= INT32_MAX /\
      provider' =
        {| m_NumInferences := m_NumInferences provider + 1;
           m_NumCorrectInferences :=
             m_NumCorrectInferences provider +
             (if prediction =? m_Label _ this then 1 else 0);
           m_ValidationPredictions := m_ValidationPredictions provider;
           m_ValidationPredictionsOut :=
             if m_ValidationPredictionsOutSet _ this
             then m_ValidationPredictionsOut provider ++ [prediction]
             else m_ValidationPredictionsOut provider;
           m_ValidationFileOut := m_ValidationFileOut provider |})).
Proof.
  intros Hrun prediction. unfold ProcessResult in Hrun.
  apply bind_Ok_inv in Hrun as (resultMap & Hfill & Hrun).
  apply bind_Ok_inv in Hrun as (p & Hcast & Hrun).
  apply numeric_cast_uint_inv in Hcast as [-> Hp]. fold prediction in Hrun, Hp.
  exists resultMap.
  destruct (Z.eqb_spec m_IterationCount 0) as [Hit|Hit];
    destruct (Z.eqb_spec prediction (m_Label _ this)) as [Hlab|Hlab];
    cbn [andb negb] in Hrun.
  2:{ injection Hrun as <- <- <-. eexists. split; [exact Hfill|].
      split; [reflexivity|]. split; [lia|]. left. auto. }
  all: apply bind_Ok_inv in Hrun as (mismatch & Hmis & Hrun).
  all: assert (Hval :
      match mismatch with
      | Some expected =>
        m_ValidationPredictions provider <> [] /\
        m_ValidationPredictions provider !! Z.to_nat (m_TestCaseId _ this) = Some expected /\
        prediction <> expected
      | None =>
        m_ValidationPredictions provider <> [] ->
        m_ValidationPredictions provider !! Z.to_nat (m_TestCaseId _ this) = Some prediction
      end).
  1,3,5:
    destruct (vector_empty (m_ValidationPredictions provider)) eqn:Hemp;
    [ apply vector_empty_nil in Hemp; injection Hmis as <-; intros Hne; contradiction
    | assert (Hne : m_ValidationPredictions provider <> [])
        by (intros Hnil; apply vector_empty_nil in Hnil; congruence);
      apply bind_Ok_inv in Hmis as (expected & Hread & Hmis);
      apply read_Ok_lookup in Hread;
      destruct (Z.eqb_spec prediction expected) as [He|He]; cbn [negb] in Hmis;
      injection Hmis as <-;
      [ intros _; rewrite He; exact Hread | auto ] ].
  all: destruct mismatch as [expected|].
  1,3,5: destruct Hval as (Hne & Hlook & Hneq); injection Hrun as <- <- <-;
    eexists; split; [exact Hfill|]; split; [reflexivity|]; split; [lia|];
    right; left; repeat split; try assumption; try (intros; congruence); eauto.
  all: apply bind_Ok_inv in Hrun as (ni & Hni & Hrun);
    apply int32_result_inv in Hni as [-> Hni];
    apply bind_Ok_inv in Hrun as (nc & Hnc & Hrun);
    injection Hrun as <- <- <-;
    exists []; split; [exact Hfill|]; split; [rewrite app_nil_r; reflexivity|];
    split; [lia|]; right; right;
    split; [reflexivity|]; split; [reflexivity|];
    split; [intros; congruence|]; split; [exact Hval|]; split; [lia|].
  1,2: apply int32_result_inv in Hnc as [-> _]; reflexivity.
  injection Hnc as <-. rewrite Z.add_0_r. reflexivity.
Qed.

(** X10: a [Failed] result of [ProcessResult] leaves the provider's
    statistics and stored predictions as they were: nothing is counted and
    no prediction is kept for a test case that fails a check. *)
Theorem failed_test_case_leaves_statistics (this : TestCase) (m_IterationCount : Z)
    (output : list DataType) (provider provider' : ClassifierTestCaseProvider)
    (log : list (LogRecord DataType)) :
  ProcessResult' this m_IterationCount output provider
  = Ok (TestCaseResult.Failed, provider', log) ->
  provider' = provider.
Proof.
  intros Hrun. destruct (ProcessResult_inv _ _ _ _ _ _ _ Hrun)
    as (resultMap & tail & _ & _ & _ & [H|[H|H]]).
  - destruct H as (_ & -> & _). reflexivity.
  - destruct H as (_ & -> & _). reflexivity.
  - destruct H as (H & _). discriminate.
Qed.

(** X11: a run that returns gives [Ok] exactly when both checks pass: with
    an iteration count of zero the prediction is the label, and with
    validation predictions read in, the one of this test case is the
    prediction. *)
Theorem ok_iff_checks_pass (this : TestCase) (m_IterationCount : Z)
    (output : list DataType) (provider : ClassifierTestCaseProvider)
    (r : TestCaseResult.t) (provider' : ClassifierTestCaseProvider)
    (log : list (LogRecord DataType)) :
  ProcessResult' this m_IterationCount output provider = Ok (r, provider', log) ->
  r = TestCaseResult.Ok <->
  (m_IterationCount = 0 -> prediction_of output = m_Label _ this) /\
  (m_ValidationPredictions provider <> [] ->
   m_ValidationPredictions provider !! Z.to_nat (m_TestCaseId _ this)
   = Some (prediction_of output)).
Proof.
  intros Hrun. destruct (ProcessResult_inv _ _ _ _ _ _ _ Hrun)
    as (resultMap & tail & _ & _ & _ & [H|[H|H]]).
  - destruct H as (-> & _ & Hit & Hne). split; [discriminate|].
    intros [Hlab _]. exfalso. exact (Hne (Hlab Hit)).
  - destruct H as (-> & _ & _ & Hvp & expected & Hlook & Hne).
    split; [discriminate|]. intros [_ Hval]. exfalso.
    specialize (Hval Hvp). rewrite Hlook in Hval. injection Hval as Heq.
    apply Hne. symmetry. exact Heq.
  - destruct H as (-> & _ & Hlab & Hval & _). split; [auto|reflexivity].
Qed.

(** X12: a test case built by [GetTestCase] and processed on the provider it
    came from keeps the statistics consistent: the correct inferences stay
    among the inferences, the predictions kept for the validation file stay
    one per inference when such a file was asked for and none otherwise; the
    file name and the validation predictions read in are not touched. *)
Theorem statistics_stay_consistent
    (GetTestCaseData : Z -> option (Z * list InputType))
    (provider : ClassifierTestCaseProvider) (testCaseId : Z) (testCase : TestCase)
    (m_IterationCount : Z) (output : list DataType)
    (r : TestCaseResult.t) (provider' : ClassifierTestCaseProvider)
    (log : list (LogRecord DataType)) :
  stats_consistent provider ->
  GetTestCase' GetTestCaseData provider testCaseId = Some testCase ->
  ProcessResult' testCase m_IterationCount output provider = Ok (r, provider', log) ->
  stats_consistent provider' /\
  m_ValidationFileOut provider' = m_ValidationFileOut provider /\
  m_ValidationPredictions provider' = m_ValidationPredictions provider.
Proof.
  intros Hcons Hget Hrun. unfold GetTestCase in Hget.
  destruct (GetTestCaseData testCaseId) as [[label inputImage]|]; [|discriminate].
  injection Hget as <-.
  destruct (ProcessResult_inv _ _ _ _ _ _ _ Hrun)
    as (resultMap & tail & _ & _ & _ & [H|[H|H]]).
  - destruct H as (_ & -> & _). auto.
  - destruct H as (_ & -> & _). auto.
  - destruct H as (_ & _ & _ & _ & _ & ->). cbn.
    split; [|split; reflexivity].
    destruct Hcons as [Hc Hout]. unfold stats_consistent. cbn. split.
    + destruct (_ =? _); lia.
    + destruct (string_empty (m_ValidationFileOut provider)); cbn [negb].
      * exact Hout.
      * rewrite length_app. cbn [length]. lia.
Qed.

(** X13: an [Ok] result of a test case built by [GetTestCase] counts one
    more inference, counts it as correct exactly when the prediction is the
    label, and appends the prediction to the predictions kept for the
    validation file exactly when the name of that file is not empty. *)
Theorem ok_test_case_is_counted
    (GetTestCaseData : Z -> option (Z * list InputType))
    (provider : ClassifierTestCaseProvider) (testCaseId : Z) (testCase : TestCase)
    (m_IterationCount : Z) (output : list DataType)
    (provider' : ClassifierTestCaseProvider) (log : list (LogRecord DataType)) :
  GetTestCase' GetTestCaseData provider testCaseId = Some testCase ->
  ProcessResult' testCase m_IterationCount output provider
  = Ok (TestCaseResult.Ok, provider', log) ->
  m_NumInferences provider' = m_NumInferences provider + 1 /\
  m_NumCorrectInferences provider' =
    m_NumCorrectInferences provider +
    (if prediction_of output =? m_Label _ testCase then 1 else 0) /\
  m_ValidationPredictionsOut provider' =
    (if string_empty (m_ValidationFileOut provider)
     then m_ValidationPredictionsOut provider
     else m_ValidationPredictionsOut provider ++ [prediction_of output]).
Proof.
  intros Hget Hrun. unfold GetTestCase in Hget.
  destruct (GetTestCaseData testCaseId) as [[label inputImage]|]; [|discriminate].
  injection Hget as <-.
  destruct (ProcessResult_inv _ _ _ _ _ _ _ Hrun)
    as (resultMap & tail & _ & _ & _ & [H|[H|H]]).
  - destruct H as (H & _). discriminate.
  - destruct H as (H & _). discriminate.
  - destruct H as (_ & _ & _ & _ & _ & ->). cbn.
    split; [reflexivity|]. split; [reflexivity|].
    destruct (string_empty (m_ValidationFileOut provider)); reflexivity.
Qed.

(** X14: [ProcessResult] returns a result when the output has at most
    INT32_MAX elements, both counters are below INT32_MAX, and the test case
    id is an index into the validation predictions if there are any. *)
Theorem ProcessResult_returns (this : TestCase) (m_IterationCount : Z)
    (output : list DataType) (provider : ClassifierTestCaseProvider) :
  Z.of_nat (length output) <= INT32_MAX ->
  INT32_MIN <= m_NumInferences provider < INT32_MAX ->
  INT32_MIN <= m_NumCorrectInferences provider < INT32_MAX ->
  (m_ValidationPredictions provider = [] \/
   0 <= m_TestCaseId _ this < Z.of_nat (length (m_ValidationPredictions provider))) ->
  exists r provider' log,
    ProcessResult' this m_IterationCount output provider = Ok (r, provider', log).
Proof.
  intros Hlen Hni Hnc Hvp. unfold ProcessResult.
  destruct (fill_resultMap_total output 0 []) as [resultMap ->];
    [unfold INT32_MIN; lia|lia|].
  rewrite bind_Ok.
  pose proof (max_element_distance_bound output) as [Hp _].
  rewrite numeric_cast_uint_Ok, bind_Ok
    by (unfold UINT_MODULUS, INT32_MAX in *; lia).
  destruct (_ && _); [eauto|].
  assert (Hmis : exists mismatch,
    (if vector_empty (m_ValidationPredictions provider) then Ok None
     else expected ← read (m_ValidationPredictions provider) (m_TestCaseId _ this);
          Ok (if negb (prediction_of output =? expected) then Some expected else None))
    = Ok mismatch).
  { destruct Hvp as [->|Hid]; [eauto|].
    destruct (vector_empty _); [eauto|].
    destruct (lookup_lt_is_Some_2 (m_ValidationPredictions provider)
                (Z.to_nat (m_TestCaseId _ this))) as [expected Hlook]; [lia|].
    rewrite (read_lookup _ _ _ Hlook), bind_Ok. eauto. }
  destruct Hmis as [mismatch ->]. rewrite bind_Ok.
  destruct mismatch; [eauto|].
  rewrite (int32_result_in_range (m_NumInferences provider + 1)), bind_Ok by lia.
  destruct (_ =? _).
  - rewrite int32_result_in_range, bind_Ok by lia. eauto.
  - rewrite bind_Ok. eauto.
Qed.

(** X15: with validation predictions read in, a test case whose id is not
    an index into them and that passes the label check reads outside the
    vector: the run has no defined result. *)
Theorem validation_index_out_of_range (this : TestCase) (m_IterationCount : Z)
    (output : list DataType) (provider : ClassifierTestCaseProvider) :
  Z.of_nat (length output) <= INT32_MAX ->
  m_ValidationPredictions provider <> [] ->
  Z.of_nat (length (m_ValidationPredictions provider)) <= m_TestCaseId _ this ->
  (m_IterationCount = 0 -> prediction_of output = m_Label _ this) ->
  ProcessResult' this m_IterationCount output provider = Err UndefinedBehaviour.
Proof.
  intros Hlen Hne Hid Hlab. unfold ProcessResult.
  destruct (fill_resultMap_total output 0 []) as [resultMap ->];
    [unfold INT32_MIN; lia|lia|].
  rewrite bind_Ok.
  pose proof (max_element_distance_bound output) as [Hp _].
  rewrite numeric_cast_uint_Ok, bind_Ok
    by (unfold UINT_MODULUS, INT32_MAX in *; lia).
  destruct (Z.eqb_spec m_IterationCount 0) as [Hit|Hit];
    [rewrite (Hlab Hit), Z.eqb_refl|]; cbn [andb negb].
  all: destruct (vector_empty _) eqn:Hemp;
    [apply vector_empty_nil in Hemp; contradiction|].
  all: unfold read; rewrite lookup_ge_None_2 by lia; reflexivity.
Qed.

(** X16: an empty output is classified as class 0: a test case with label 0
    and no validation predictions passes on it, and is counted as a correct
    inference. *)
Theorem empty_output_is_class_zero (this : TestCase) (m_IterationCount : Z)
    (provider : ClassifierTestCaseProvider) :
  m_Label _ this = 0 ->
  m_ValidationPredictions provider = [] ->
  INT32_MIN <= m_NumInferences provider < INT32_MAX ->
  INT32_MIN <= m_NumCorrectInferences provider < INT32_MAX ->
  ProcessResult' this m_IterationCount [] provider
  = Ok (TestCaseResult.Ok,
        {| m_NumInferences := m_NumInferences provider + 1;
           m_NumCorrectInferences := m_NumCorrectInferences provider + 1;
           m_ValidationPredictions := [];
           m_ValidationPredictionsOut :=
             if m_ValidationPredictionsOutSet _ this
             then m_ValidationPredictionsOut provider ++ [0]
             else m_ValidationPredictionsOut provider;
           m_ValidationFileOut := m_ValidationFileOut provider |},
        [LogPredictionValues DataType (m_TestCaseId _ this)]).
Proof.
  intros Hlab Hvp Hni Hnc. unfold ProcessResult.
  cbn [fill_resultMap max_element_distance]. rewrite bind_Ok.
  change (numeric_cast_uint (Z.of_nat 0)) with (@Ok Z 0). rewrite bind_Ok.
  rewrite Hlab, Hvp. cbn [Z.eqb negb vector_empty].
  rewrite andb_false_r, bind_Ok.
  rewrite (int32_result_in_range (m_NumInferences provider + 1)), bind_Ok by lia.
  rewrite int32_result_in_range, bind_Ok by lia.
  reflexivity.
Qed.

End ProcessResult.

(** ** The logged top prediction *)

Section TopLog.

Variable DataType : Type.
Variable less : DataType -> DataType -> bool.
Variable InputType : Type.

Hypothesis less_irrefl : forall a, less a a = false.
Hypothesis less_trans : forall a b c, less a b = true -> less b c = true -> less a c = true.
Hypothesis less_cotrans :
  forall a b c, less a b = true -> less a c = true \/ less c b = true.

Local Abbreviation TestCase := (ClassifierTestCase InputType).
Local Abbreviation ProcessResult' := (ProcessResult DataType less InputType).
Local Abbreviation prediction_of :=
  (fun output : list DataType => Z.of_nat (max_element_distance DataType less output)).

Lemma top_log_record (this : TestCase) (m_IterationCount : Z)
    (output : list DataType) (provider : ClassifierTestCaseProvider)
    (r : TestCaseResult.t) (provider' : ClassifierTestCaseProvider)
    (log : list (LogRecord DataType)) :
  output <> [] ->
  ProcessResult' this m_IterationCount output provider = Ok (r, provider', log) ->
  exists top conf rest w,
    log = LogPredictionValues DataType (m_TestCaseId _ this)
            :: LogTop DataType 1 top conf :: rest /\
    0 <= top /\
    output !! Z.to_nat top = Some w /\
    equivalent less w conf /\
    (forall j x, output !! j = Some x -> less w x = false) /\
    (forall j x, (Z.to_nat top < j)%nat -> output !! j = Some x -> less x w = true).
Proof.
  intros Hne Hrun.
  destruct (ProcessResult_inv _ _ _ _ _ _ _ _ _ _ Hrun)
    as (resultMap & tail & Hfill & -> & _).
  pose proof (fill_resultMap_of DataType less less_irrefl less_trans less_cotrans
                output [] [] resultMap
                (resultMap_of_nil DataType less) Hfill) as Hinv.
  cbn [app] in Hinv.
  induction resultMap as [|[kmax vmax] m _] using rev_ind.
  - exfalso. destruct output as [|o range]; [congruence|].
    destruct Hinv as (_ & _ & Hcov).
    destruct (Hcov 0%nat o eq_refl) as (k & v & Hin & _).
    apply elem_of_nil in Hin. exact Hin.
  - destruct (resultMap_of_greatest DataType less less_irrefl less_trans less_cotrans
                output m kmax vmax Hinv)
      as (Hv & w & Hw & He & Hmax & Hlast).
    exists vmax, kmax. eexists. exists w.
    split; [|split; [exact Hv|]; split; [exact Hw|]; split; [exact He|];
             split; [exact Hmax|exact Hlast]].
    unfold log_top. rewrite reverse_app. cbn. reflexivity.
Qed.

(** X17: on a non-empty output the first [Top] record that is logged has
    rank 1, a confidence equivalent to a greatest element, and the index of
    the last greatest element: no element is greater than the one at that
    index, and every element after it is less. *)
Theorem top_log_is_last_maximum (this : TestCase) (m_IterationCount : Z)
    (output : list DataType) (provider : ClassifierTestCaseProvider)
    (r : TestCaseResult.t) (provider' : ClassifierTestCaseProvider)
    (log : list (LogRecord DataType)) :
  output <> [] ->
  ProcessResult' this m_IterationCount output provider = Ok (r, provider', log) ->
  exists top conf rest w,
    log = LogPredictionValues DataType (m_TestCaseId _ this)
            :: LogTop DataType 1 top conf :: rest /\
    0 <= top /\
    output !! Z.to_nat top = Some w /\
    equivalent less w conf /\
    (forall j x, output !! j = Some x -> less w x = false) /\
    (forall j x, (Z.to_nat top < j)%nat -> output !! j = Some x -> less x w = true).
Proof. apply top_log_record. Qed.

(** X18: when two elements of the output at different positions are both
    greatest, the index logged as the top prediction is not the prediction
    that is checked and counted: the prediction is at or before the first of
    the two, the logged index at or after the second. *)
Theorem tie_logs_another_index (this : TestCase) (m_IterationCount : Z)
    (output : list DataType) (provider : ClassifierTestCaseProvider)
    (r : TestCaseResult.t) (provider' : ClassifierTestCaseProvider)
    (log : list (LogRecord DataType)) (i j : nat) (xi xj : DataType) :
  ProcessResult' this m_IterationCount output provider = Ok (r, provider', log) ->
  (i < j)%nat ->
  output !! i = Some xi -> output !! j = Some xj ->
  (forall n x, output !! n = Some x -> less xi x = false) ->
  (forall n x, output !! n = Some x -> less xj x = false) ->
  exists top conf rest,
    log = LogPredictionValues DataType (m_TestCaseId _ this)
            :: LogTop DataType 1 top conf :: rest /\
    prediction_of output <= Z.of_nat i /\ Z.of_nat j <= top.
Proof.
  intros Hrun Hij Hi Hj Hmi Hmj.
  assert (Hne : output <> []) by (intros ->; discriminate).
  destruct (top_log_record _ _ _ _ _ _ _ Hne Hrun)
    as (top & conf & rest & w & Hlog & Htop & Hw & _ & Hmax & Hlast).
  exists top, conf, rest. split; [exact Hlog|]. split.
  - destruct output as [|o range]; [congruence|].
    destruct (max_element_from_first_maximum DataType less less_irrefl less_trans
                less_cotrans range [o] 0 o eq_refl) as (wp & Hwp & _ & Hfirst).
    + intros n x Hx. destruct n; [|discriminate]. injection Hx as <-. apply less_irrefl.
    + intros n x Hn. lia.
    + cbn [max_element_distance].
      change (length [o]) with 1%nat in Hwp, Hfirst. cbn [app] in Hwp, Hfirst.
      destruct (Nat.le_gt_cases (max_element_from DataType less 0 o 1 range) i)
        as [Hle|Hgt]; [lia|].
      pose proof (Hfirst i xi Hgt Hi) as Hc.
      rewrite (Hmi _ _ Hwp) in Hc. discriminate.
  - destruct (Z.le_gt_cases (Z.of_nat j) top) as [Hle|Hgt]; [exact Hle|].
    assert (Hlt : (Z.to_nat top < j)%nat) by lia.
    pose proof (Hlast j xj Hlt Hj) as Hc.
    rewrite (Hmj _ _ Hw) in Hc. discriminate.
Qed.

End TopLog.

(** * Sample runs of the further properties *)

Lemma paddedJob_output_fits (depthwise : bool) :
  outputCount paddedJob depthwise < UINT_MODULUS.
Proof. destruct depthwise; reflexivity. Qed.

Lemma paddedJob_buffersFit : buffersFit paddedJob paddedInput paddedFilter.
Proof.
  unfold buffersFit. cbn.
  repeat split; try reflexivity; vm_compute; discriminate.
Qed.

Lemma paddedInput_quantized : quantizedTensor paddedInput.
Proof.
  unfold quantizedTensor, paddedInput.
  repeat (apply List.Forall_cons; [lia|]). apply List.Forall_nil.
Qed.

Lemma paddedFilter_quantized : quantizedTensor paddedFilter.
Proof.
  unfold quantizedTensor, paddedFilter.
  repeat (apply List.Forall_cons; [lia|]). apply List.Forall_nil.
Qed.

Lemma offset_zero_quantized : 0 <= 0 <= 255.
Proof. lia. Qed.

Lemma paddedJob_run :
  ConvImplQ paddedJob paddedInput 1 0 paddedFilter 1 0 (Some paddedBias) (10 # 9) 0 true
    (replicate 50 0)
  = Ok [255; 255; 255; 255; 255; 255; 255; 255; 255; 255; 255; 255; 255;
        255; 255; 255; 255; 255; 255; 255; 255; 255; 255; 255; 255; 0; 0;
        0; 0; 0; 0; 115; 255; 103; 0; 0; 243; 255; 214; 0; 0; 88; 197; 72;
        0; 0; 0; 0; 0; 0].
Proof. vm_compute. reflexivity. Qed.

Lemma ConvImpl_returns_iff_elements_witness :
  data_ok paddedJob /\
  outputCount paddedJob true < UINT_MODULUS /\
  exists out',
    ConvImplQ paddedJob paddedInput 1 0 paddedFilter 1 0 (Some paddedBias) (10 # 9) 0 true
      (replicate 50 0) = Ok out' /\
    outputCount paddedJob true <= Z.of_nat (length (replicate 50 0)) /\
    exists v,
      outputElementQ paddedJob paddedInput 1 0 paddedFilter 1 0 (Some paddedBias)
        (10 # 9) 0 true 0 1 2 2 = Ok v /\
      out' !! 37%nat = Some v.
Proof.
  split; [exact paddedJob_ok|]. split; [exact (paddedJob_output_fits true)|].
  eexists. split; [exact paddedJob_run|].
  destruct (proj1 (ConvImpl_returns_iff_elements Q Qmult Qdiv Q_nonzero
                     Q_QuantizedMultiplierSmallerThanOne_new paddedJob paddedInput 1%Q 0
                     paddedFilter 1%Q 0 (Some paddedBias) (10 # 9)%Q 0 true
                     paddedJob_ok (paddedJob_output_fits true) (replicate 50 0))
                  _ paddedJob_run) as [Hlen Hel].
  split; [exact Hlen|].
  assert (Hc : inOutput paddedJob true 0 1 2 2)
    by (unfold inOutput; repeat split; vm_compute; try discriminate; reflexivity).
  exact (Hel 0 1 2 2 Hc).
Defined.

Lemma paddedJob_run_long :
  ConvImplQ paddedJob paddedInput 1 0 paddedFilter 1 0 (Some paddedBias) (10 # 9) 0 true
    (replicate 52 9)
  = Ok [255; 255; 255; 255; 255; 255; 255; 255; 255; 255; 255; 255; 255;
        255; 255; 255; 255; 255; 255; 255; 255; 255; 255; 255; 255; 0; 0;
        0; 0; 0; 0; 115; 255; 103; 0; 0; 243; 255; 214; 0; 0; 88; 197; 72;
        0; 0; 0; 0; 0; 0; 9; 9].
Proof. vm_compute. reflexivity. Qed.

Lemma ConvImpl_writes_only_the_output_witness :
  outputCount paddedJob true < UINT_MODULUS /\
  exists out',
    ConvImplQ paddedJob paddedInput 1 0 paddedFilter 1 0 (Some paddedBias) (10 # 9) 0 true
      (replicate 52 9) = Ok out' /\
    length out' = length (replicate 52 9) /\
    forall i : nat, outputCount paddedJob true <= Z.of_nat i ->
                    out' !! i = replicate 52 9 !! i.
Proof.
  split; [exact (paddedJob_output_fits true)|].
  eexists. split; [exact paddedJob_run_long|].
  exact (ConvImpl_writes_only_the_output Q Qmult Qdiv Q_nonzero
           Q_QuantizedMultiplierSmallerThanOne_new paddedJob paddedInput 1%Q 0
           paddedFilter 1%Q 0 (Some paddedBias) (10 # 9)%Q 0 true
           (paddedJob_output_fits true) (replicate 52 9) _ paddedJob_run_long).
Defined.

Lemma replicate_same_frame (i : nat) :
  outputCount paddedJob true <= Z.of_nat i ->
  replicate 50 0 !! i = replicate 50 7 !! i.
Proof.
  change (outputCount paddedJob true) with 50. intros Hi.
  rewrite !lookup_ge_None_2; [reflexivity| |]; rewrite length_replicate; lia.
Qed.

Lemma ConvImpl_ignores_old_output_witness :
  data_ok paddedJob /\
  outputCount paddedJob true < UINT_MODULUS /\
  length (replicate 50 0) = length (replicate 50 7) /\
  exists r,
    ConvImplQ paddedJob paddedInput 1 0 paddedFilter 1 0 (Some paddedBias) (10 # 9) 0 true
      (replicate 50 0) = Ok r /\
    ConvImplQ paddedJob paddedInput 1 0 paddedFilter 1 0 (Some paddedBias) (10 # 9) 0 true
      (replicate 50 7) = Ok r.
Proof.
  split; [exact paddedJob_ok|]. split; [exact (paddedJob_output_fits true)|].
  split; [reflexivity|].
  eexists. split; [exact paddedJob_run|].
  exact (ConvImpl_ignores_old_output Q Qmult Qdiv Q_nonzero
           Q_QuantizedMultiplierSmallerThanOne_new paddedJob paddedInput 1%Q 0
           paddedFilter 1%Q 0 (Some paddedBias) (10 # 9)%Q 0 true
           paddedJob_ok (paddedJob_output_fits true) (replicate 50 0) (replicate 50 7) _
           eq_refl replicate_same_frame paddedJob_run).
Defined.

Lemma paddedBias_given :
  m_BiasEnabled (m_Parameters emptyJob) = true -> Some paddedBias <> None.
Proof. intros _. discriminate. Qed.

Lemma ConvImpl_empty_output_witness :
  outputCount emptyJob true < UINT_MODULUS /\
  outputCount emptyJob true = 0 /\
  ConvImplQ emptyJob paddedInput 1 0 paddedFilter 1 0 (Some paddedBias) (10 # 9) 0 true
    [5; 6] = Ok [5; 6].
Proof.
  split; [reflexivity|]. split; [reflexivity|].
  exact (ConvImpl_empty_output Q Qmult Qdiv Q_nonzero
           Q_QuantizedMultiplierSmallerThanOne_new emptyJob paddedInput 1%Q 0
           paddedFilter 1%Q 0 (Some paddedBias) (10 # 9)%Q 0 true
           eq_refl [5; 6] eq_refl paddedBias_given).
Defined.

Lemma paddedJob_channel_one : 0 <= 1 < channelsOutput paddedJob true.
Proof. vm_compute. split; [discriminate|reflexivity]. Qed.

Lemma paddedJob_batch_zero : 0 <= 0 < batchSize paddedJob.
Proof. vm_compute. split; [discriminate|reflexivity]. Qed.

Lemma accumulate_is_sum_of_products_witness :
  data_ok paddedJob /\
  0 <= 1 < channelsOutput paddedJob true /\
  accumulate paddedJob paddedInput 0 paddedFilter 0 true 0 1 2 2 = Ok 590 /\
  590 = accumulatorSum paddedJob paddedInput 0 paddedFilter 0 true 0 1 2 2.
Proof.
  split; [exact paddedJob_ok|]. split; [exact paddedJob_channel_one|].
  split; [reflexivity|].
  exact (accumulate_is_sum_of_products paddedJob paddedInput 0 paddedFilter 0
           paddedJob_ok true 0 1 2 2 590 paddedJob_channel_one eq_refl).
Defined.

Lemma paddedJob_accumulator_fits : 65025 * macCount paddedJob true <= INT32_MAX.
Proof. vm_compute. discriminate. Qed.

Lemma quantized_accumulate_safe_witness :
  data_ok paddedJob /\
  buffersFit paddedJob paddedInput paddedFilter /\
  quantizedTensor paddedInput /\ quantizedTensor paddedFilter /\
  0 <= 0 < batchSize paddedJob /\
  0 <= 1 < channelsOutput paddedJob true /\
  65025 * macCount paddedJob true <= INT32_MAX /\
  accumulate paddedJob paddedInput 0 paddedFilter 0 true 0 1 2 2 =
  Ok (accumulatorSum paddedJob paddedInput 0 paddedFilter 0 true 0 1 2 2) /\
  - (65025 * macCount paddedJob true) <=
  accumulatorSum paddedJob paddedInput 0 paddedFilter 0 true 0 1 2 2 <=
  65025 * macCount paddedJob true.
Proof.
  split; [exact paddedJob_ok|]. split; [exact paddedJob_buffersFit|].
  split; [exact paddedInput_quantized|]. split; [exact paddedFilter_quantized|].
  split; [exact paddedJob_batch_zero|]. split; [exact paddedJob_channel_one|].
  split; [exact paddedJob_accumulator_fits|].
  exact (quantized_accumulate_safe paddedJob paddedInput 0 paddedFilter 0
           paddedJob_ok paddedJob_buffersFit paddedInput_quantized paddedFilter_quantized
           offset_zero_quantized offset_zero_quantized true 0 1 2 2
           paddedJob_batch_zero paddedJob_channel_one paddedJob_accumulator_fits).
Defined.

Lemma paddedBias_fits :
  m_BiasEnabled (m_Parameters paddedJob) = true ->
  exists bias : list Z,
    Some paddedBias = Some bias /\
    channelsOutput paddedJob true <= Z.of_nat (length bias) /\
    Forall (fun v : Z => - 300 <= v <= 300) bias.
Proof.
  intros _. exists paddedBias. split; [reflexivity|]. split.
  - vm_compute. discriminate.
  - unfold paddedBias. repeat (apply List.Forall_cons; [lia|]). apply List.Forall_nil.
Qed.

Lemma sample_multiplier_sane :
  0 <= m_Multiplier {| m_Multiplier := 1932735283; m_RightShift := 0 |} <= INT32_MAX /\
  0 <= m_RightShift {| m_Multiplier := 1932735283; m_RightShift := 0 |}.
Proof. cbn. unfold INT32_MAX. lia. Qed.

Lemma paddedJob_accumulator_and_bias_fit :
  65025 * macCount paddedJob true + 300 <= INT32_MAX - 255.
Proof. vm_compute. discriminate. Qed.

Lemma quantized_ConvImpl_returns_witness :
  data_ok paddedJob /\
  buffersFit paddedJob paddedInput paddedFilter /\
  quantizedTensor paddedInput /\ quantizedTensor paddedFilter /\
  Q_nonzero (10 # 9) = true /\
  Q_QuantizedMultiplierSmallerThanOne_new (Qdiv (Qmult 1 1) (10 # 9)) =
    Ok {| m_Multiplier := 1932735283; m_RightShift := 0 |} /\
  65025 * macCount paddedJob true + 300 <= INT32_MAX - 255 /\
  outputCount paddedJob true <= Z.of_nat (length (replicate 50 0)) /\
  exists out',
    ConvImplQ paddedJob paddedInput 1 0 paddedFilter 1 0 (Some paddedBias) (10 # 9) 0 true
      (replicate 50 0) = Ok out' /\
    forall i : nat, Z.of_nat i < outputCount paddedJob true ->
                    exists v, out' !! i = Some v /\ 0 <= v <= 255.
Proof.
  assert (Hlen : outputCount paddedJob true <= Z.of_nat (length (replicate 50 0)))
    by (vm_compute; discriminate).
  split; [exact paddedJob_ok|]. split; [exact paddedJob_buffersFit|].
  split; [exact paddedInput_quantized|]. split; [exact paddedFilter_quantized|].
  split; [reflexivity|]. split; [reflexivity|].
  split; [exact paddedJob_accumulator_and_bias_fit|]. split; [exact Hlen|].
  exact (quantized_ConvImpl_returns Q Qmult Qdiv Q_nonzero
           Q_QuantizedMultiplierSmallerThanOne_new paddedJob paddedInput 1%Q 0
           paddedFilter 1%Q 0 (Some paddedBias) (10 # 9)%Q 0 true
           {| m_Multiplier := 1932735283; m_RightShift := 0 |} 300
           paddedJob_ok paddedJob_buffersFit paddedInput_quantized paddedFilter_quantized
           offset_zero_quantized offset_zero_quantized offset_zero_quantized
           eq_refl eq_refl sample_multiplier_sane paddedBias_fits ltac:(lia)
           paddedJob_accumulator_and_bias_fit (replicate 50 0)
           (paddedJob_output_fits true) Hlen).
Defined.

(** ** Sample runs of the classifier test case, on integers *)

Lemma Zltb_trans (a b c : Z) : (a <? b) = true -> (b <? c) = true -> (a <? c) = true.
Proof. rewrite !Z.ltb_lt. lia. Qed.

Lemma Zltb_cotrans (a b c : Z) :
  (a <? b) = true -> (a <? c) = true \/ (c <? b) = true.
Proof. rewrite !Z.ltb_lt. lia. Qed.

Lemma sampleOutput_not_empty : sampleOutput <> [].
Proof. discriminate. Qed.

Lemma sample_run :
  ProcessResult Z Z.ltb Z sampleTestCase 0 sampleOutput sampleProvider
  = Ok (TestCaseResult.Ok,
        {| m_NumInferences := 4;
           m_NumCorrectInferences := 3;
           m_ValidationPredictions := [0; 4; 1];
           m_ValidationPredictionsOut := [0; 4; 1; 1];
           m_ValidationFileOut := sampleFileName |},
        [LogPredictionValues Z 2; LogTop Z 1 2 7; LogTop Z 2 0 3; LogTop Z 3 3 1]).
Proof. vm_compute. reflexivity. Qed.

Lemma wrong_run :
  ProcessResult Z Z.ltb Z wrongTestCase 0 sampleOutput sampleProvider
  = Ok (TestCaseResult.Failed, sampleProvider,
        [LogPredictionValues Z 2; LogTop Z 1 2 7; LogTop Z 2 0 3; LogTop Z 3 3 1;
         LogIncorrect Z 2 1 2]).
Proof. vm_compute. reflexivity. Qed.

Lemma sample_GetTestCase :
  GetTestCase Z sampleDatabase sampleProvider 2 = Some sampleTestCase.
Proof. reflexivity. Qed.

Lemma sampleProvider_consistent : stats_consistent sampleProvider.
Proof. unfold stats_consistent. cbn. lia. Qed.

Lemma prediction_is_first_maximum_witness :
  sampleOutput <> [] /\
  max_element_distance Z Z.ltb sampleOutput = 1%nat /\
  exists w,
    sampleOutput !! 1%nat = Some w /\
    (forall j x, sampleOutput !! j = Some x -> (w <? x) = false) /\
    (forall j x, (j < 1)%nat -> sampleOutput !! j = Some x -> (x <? w) = true).
Proof.
  split; [exact sampleOutput_not_empty|]. split; [reflexivity|].
  exact (prediction_is_first_maximum Z Z.ltb Z.ltb_irrefl Zltb_trans Zltb_cotrans
           sampleOutput sampleOutput_not_empty).
Defined.

Lemma failed_test_case_leaves_statistics_witness :
  ProcessResult Z Z.ltb Z wrongTestCase 0 sampleOutput sampleProvider
  = Ok (TestCaseResult.Failed, sampleProvider,
        [LogPredictionValues Z 2; LogTop Z 1 2 7; LogTop Z 2 0 3; LogTop Z 3 3 1;
         LogIncorrect Z 2 1 2]) /\
  sampleProvider = sampleProvider.
Proof.
  split; [exact wrong_run|].
  exact (failed_test_case_leaves_statistics Z Z.ltb Z wrongTestCase 0 sampleOutput
           sampleProvider _ _ wrong_run).
Defined.

Lemma ok_iff_checks_pass_witness :
  ProcessResult Z Z.ltb Z wrongTestCase 0 sampleOutput sampleProvider
  = Ok (TestCaseResult.Failed, sampleProvider,
        [LogPredictionValues Z 2; LogTop Z 1 2 7; LogTop Z 2 0 3; LogTop Z 3 3 1;
         LogIncorrect Z 2 1 2]) /\
  (TestCaseResult.Failed = TestCaseResult.Ok <->
   (0 = 0 -> Z.of_nat (max_element_distance Z Z.ltb sampleOutput) = m_Label Z wrongTestCase) /\
   (m_ValidationPredictions sampleProvider <> [] ->
    m_ValidationPredictions sampleProvider !! Z.to_nat (m_TestCaseId Z wrongTestCase)
    = Some (Z.of_nat (max_element_distance Z Z.ltb sampleOutput)))).
Proof.
  split; [exact wrong_run|].
  exact (ok_iff_checks_pass Z Z.ltb Z wrongTestCase 0 sampleOutput
           sampleProvider _ _ _ wrong_run).
Defined.

Lemma statistics_stay_consistent_witness :
  stats_consistent sampleProvider /\
  GetTestCase Z sampleDatabase sampleProvider 2 = Some sampleTestCase /\
  stats_consistent
    {| m_NumInferences := 4;
       m_NumCorrectInferences := 3;
       m_ValidationPredictions := [0; 4; 1];
       m_ValidationPredictionsOut := [0; 4; 1; 1];
       m_ValidationFileOut := sampleFileName |}.
Proof.
  split; [exact sampleProvider_consistent|]. split; [exact sample_GetTestCase|].
  exact (proj1 (statistics_stay_consistent Z Z.ltb Z sampleDatabase sampleProvider 2
                  sampleTestCase 0 sampleOutput _ _ _
                  sampleProvider_consistent sample_GetTestCase sample_run)).
Defined.

Lemma ok_test_case_is_counted_witness :
  GetTestCase Z sampleDatabase sampleProvider 2 = Some sampleTestCase /\
  ProcessResult Z Z.ltb Z sampleTestCase 0 sampleOutput sampleProvider
  = Ok (TestCaseResult.Ok,
        {| m_NumInferences := 4;
           m_NumCorrectInferences := 3;
           m_ValidationPredictions := [0; 4; 1];
           m_ValidationPredictionsOut := [0; 4; 1; 1];
           m_ValidationFileOut := sampleFileName |},
        [LogPredictionValues Z 2; LogTop Z 1 2 7; LogTop Z 2 0 3; LogTop Z 3 3 1]) /\
  4 = m_NumInferences sampleProvider + 1 /\
  3 = m_NumCorrectInferences sampleProvider + 1 /\
  [0; 4; 1; 1] = m_ValidationPredictionsOut sampleProvider ++ [1].
Proof.
  split; [exact sample_GetTestCase|]. split; [exact sample_run|].
  exact (ok_test_case_is_counted Z Z.ltb Z sampleDatabase sampleProvider 2
           sampleTestCase 0 sampleOutput _ _ sample_GetTestCase sample_run).
Defined.

Lemma sampleOutput_short : Z.of_nat (length sampleOutput) <= INT32_MAX.
Proof. vm_compute. discriminate. Qed.

Lemma sampleProvider_inferences : INT32_MIN <= m_NumInferences sampleProvider < INT32_MAX.
Proof. vm_compute. split; [discriminate|reflexivity]. Qed.

Lemma sampleProvider_correct :
  INT32_MIN <= m_NumCorrectInferences sampleProvider < INT32_MAX.
Proof. vm_compute. split; [discriminate|reflexivity]. Qed.

Lemma sampleTestCase_validated :
  m_ValidationPredictions sampleProvider = [] \/
  0 <= m_TestCaseId Z sampleTestCase
    < Z.of_nat (length (m_ValidationPredictions sampleProvider)).
Proof. right. vm_compute. split; [discriminate|reflexivity]. Qed.

Lemma ProcessResult_returns_witness :
  Z.of_nat (length sampleOutput) <= INT32_MAX /\
  INT32_MIN <= m_NumInferences sampleProvider < INT32_MAX /\
  INT32_MIN <= m_NumCorrectInferences sampleProvider < INT32_MAX /\
  0 <= m_TestCaseId Z sampleTestCase
    < Z.of_nat (length (m_ValidationPredictions sampleProvider)) /\
  exists r provider' log,
    ProcessResult Z Z.ltb Z sampleTestCase 7 sampleOutput sampleProvider
    = Ok (r, provider', log).
Proof.
  split; [exact sampleOutput_short|]. split; [exact sampleProvider_inferences|].
  split; [exact sampleProvider_correct|].
  split; [vm_compute; split; [discriminate|reflexivity]|].
  exact (ProcessResult_returns Z Z.ltb Z sampleTestCase 7 sampleOutput sampleProvider
           sampleOutput_short sampleProvider_inferences sampleProvider_correct
           sampleTestCase_validated).
Defined.

Lemma sampleProvider_validates : m_ValidationPredictions sampleProvider <> [].
Proof. discriminate. Qed.

Lemma strayTestCase_out_of_range :
  Z.of_nat (length (m_ValidationPredictions sampleProvider)) <= m_TestCaseId Z strayTestCase.
Proof. vm_compute. discriminate. Qed.

Lemma strayTestCase_label :
  0 = 0 -> Z.of_nat (max_element_distance Z Z.ltb sampleOutput) = m_Label Z strayTestCase.
Proof. intros _. reflexivity. Qed.

Lemma validation_index_out_of_range_witness :
  Z.of_nat (length sampleOutput) <= INT32_MAX /\
  m_ValidationPredictions sampleProvider <> [] /\
  Z.of_nat (length (m_ValidationPredictions sampleProvider)) <= m_TestCaseId Z strayTestCase /\
  Z.of_nat (max_element_distance Z Z.ltb sampleOutput) = m_Label Z strayTestCase /\
  ProcessResult Z Z.ltb Z strayTestCase 0 sampleOutput sampleProvider
  = Err UndefinedBehaviour.
Proof.
  split; [exact sampleOutput_short|]. split; [exact sampleProvider_validates|].
  split; [exact strayTestCase_out_of_range|]. split; [reflexivity|].
  exact (validation_index_out_of_range Z Z.ltb Z strayTestCase 0 sampleOutput
           sampleProvider sampleOutput_short sampleProvider_validates
           strayTestCase_out_of_range strayTestCase_label).
Defined.

Lemma new_provider_counter :
  INT32_MIN <= 0 < INT32_MAX.
Proof. vm_compute. split; [discriminate|reflexivity]. Qed.

Lemma empty_output_is_class_zero_witness :
  m_Label Z zeroTestCase = 0 /\
  m_ValidationPredictions ClassifierTestCaseProvider_new = [] /\
  ProcessResult Z Z.ltb Z zeroTestCase 0 [] ClassifierTestCaseProvider_new
  = Ok (TestCaseResult.Ok,
        {| m_NumInferences := 1;
           m_NumCorrectInferences := 1;
           m_ValidationPredictions := [];
           m_ValidationPredictionsOut := [];
           m_ValidationFileOut := String.EmptyString |},
        [LogPredictionValues Z 2]).
Proof.
  split; [reflexivity|]. split; [reflexivity|].
  exact (empty_output_is_class_zero Z Z.ltb Z zeroTestCase 0
           ClassifierTestCaseProvider_new eq_refl eq_refl
           new_provider_counter new_provider_counter).
Defined.

Lemma top_log_is_last_maximum_witness :
  sampleOutput <> [] /\
  exists top conf rest w,
    [LogPredictionValues Z 2; LogTop Z 1 2 7; LogTop Z 2 0 3; LogTop Z 3 3 1]
    = LogPredictionValues Z (m_TestCaseId Z sampleTestCase)
        :: LogTop Z 1 top conf :: rest /\
    0 <= top /\
    sampleOutput !! Z.to_nat top = Some w /\
    equivalent Z.ltb w conf /\
    (forall j x, sampleOutput !! j = Some x -> (w <? x) = false) /\
    (forall j x, (Z.to_nat top < j)%nat -> sampleOutput !! j = Some x -> (x <? w) = true).
Proof.
  split; [exact sampleOutput_not_empty|].
  exact (top_log_is_last_maximum Z Z.ltb Z Z.ltb_irrefl Zltb_trans Zltb_cotrans
           sampleTestCase 0 sampleOutput sampleProvider _ _ _
           sampleOutput_not_empty sample_run).
Defined.

Lemma sampleOutput_greatest (n : nat) (x : Z) :
  sampleOutput !! n = Some x -> (7 <? x) = false.
Proof.
  destruct n as [|[|[|[|n]]]]; cbn; intros [= <-]; reflexivity.
Qed.

Lemma tie_logs_another_index_witness :
  (1 < 2)%nat /\
  sampleOutput !! 1%nat = Some 7 /\ sampleOutput !! 2%nat = Some 7 /\
  exists top conf rest,
    [LogPredictionValues Z 2; LogTop Z 1 2 7; LogTop Z 2 0 3; LogTop Z 3 3 1]
    = LogPredictionValues Z (m_TestCaseId Z sampleTestCase)
        :: LogTop Z 1 top conf :: rest /\
    Z.of_nat (max_element_distance Z Z.ltb sampleOutput) <= Z.of_nat 1 /\
    Z.of_nat 2 <= top.
Proof.
  split; [lia|]. split; [reflexivity|]. split; [reflexivity|].
  exact (tie_logs_another_index Z Z.ltb Z Z.ltb_irrefl Zltb_trans Zltb_cotrans
           sampleTestCase 0 sampleOutput sampleProvider _ _ _ 1%nat 2%nat 7 7
           sample_run ltac:(lia) eq_refl eq_refl
           sampleOutput_greatest sampleOutput_greatest).
Defined.

(** * Channel mapping, requantization and passthrough on a whole run *)

Lemma sum_from_ext (k : nat) (lo : Z) (f g : Z -> Z) :
  (forall i, lo <= i < lo + Z.of_nat k -> f i = g i) ->
  sum_from k lo f = sum_from k lo g.
Proof.
  revert lo. induction k as [|k IH]; intros lo Hfg; [reflexivity|].
  cbn [sum_from]. rewrite Hfg by lia. rewrite (IH (lo + 1)); [reflexivity|].
  intros i Hi. apply Hfg. lia.
Qed.

Lemma sumZ_ext (n : Z) (f g : Z -> Z) :
  (forall i, 0 <= i < n -> f i = g i) -> sumZ n f = sumZ n g.
Proof. intros Hfg. apply sum_from_ext. intros i Hi. apply Hfg. lia. Qed.

(** A loop that returns has run its body at every index. *)
Lemma for_from_Ok_each {S : Type} (k : nat) (lo : Z) (body : Z -> S -> outcome S)
    (s s' : S) :
  for_from k lo body s = Ok s' ->
  forall i, lo <= i < lo + Z.of_nat k -> exists s0 s1, body i s0 = Ok s1.
Proof.
  revert lo s. induction k as [|k IH]; intros lo s Hrun i Hi; [lia|].
  apply for_from_Ok_inv in Hrun as (s1 & Hfirst & Hrest).
  destruct (Z.eq_dec i lo) as [->|Hne]; [eauto|].
  apply (IH _ _ Hrest). lia.
Qed.

Lemma for_loop_Ok_each {S : Type} (n : Z) (body : Z -> S -> outcome S) (s s' : S) :
  for_loop n body s = Ok s' ->
  forall i, 0 <= i < n -> exists s0 s1, body i s0 = Ok s1.
Proof. intros Hrun i Hi. apply (for_from_Ok_each _ _ _ _ _ Hrun). lia. Qed.

Section ChannelMapping.

Variable data : ConvData.
Variable inputData : list Z.
Variable inputOffset : Z.
Variable filterData : list Z.
Variable filterOffset : Z.

Local Abbreviation macStep' := (macStep data inputData inputOffset filterData filterOffset).
Local Abbreviation windowLoop' := (windowLoop data inputData inputOffset filterData filterOffset).
Local Abbreviation accumulate' := (accumulate data inputData inputOffset filterData filterOffset).
Local Abbreviation windowSum' := (windowSum data inputData inputOffset filterData filterOffset).
Local Abbreviation windowProducts' :=
  (windowProducts data inputData inputOffset filterData filterOffset).

Lemma macStep_reads_filter (depthwise : bool)
    (b c y x cInput dmIdx yFilter xFilter s s' : Z) :
  macStep' depthwise b c y x cInput dmIdx yFilter xFilter s = Ok s' ->
  exists f,
    filterData !! Z.to_nat (filterIndex data depthwise c cInput dmIdx yFilter xFilter) = Some f.
Proof.
  unfold macStep. intros H. apply bind_Ok_inv in H as (f & Hf & _).
  exists f. apply read_Ok_lookup. exact Hf.
Qed.

Lemma windowLoop_reads_filter (depthwise : bool) (b c y x cInput dmIdx s s' : Z) :
  windowLoop' depthwise b c y x cInput dmIdx s = Ok s' ->
  forall yFilter xFilter,
    0 <= yFilter < heightFilter data -> 0 <= xFilter < widthFilter data ->
    exists f,
      filterData !! Z.to_nat (filterIndex data depthwise c cInput dmIdx yFilter xFilter) = Some f.
Proof.
  unfold windowLoop. intros Hrun yFilter xFilter Hy Hx.
  destruct (for_loop_Ok_each _ _ _ _ Hrun yFilter Hy) as (s0 & s1 & Hrow).
  destruct (for_loop_Ok_each _ _ _ _ Hrow xFilter Hx) as (s2 & s3 & Hstep).
  exact (macStep_reads_filter _ _ _ _ _ _ _ _ _ _ _ Hstep).
Qed.

Lemma macStep_filter_ext (filterData2 : list Z) (depthwise : bool)
    (b c y x cInput dmIdx yFilter xFilter s : Z) :
  filterData2 !! Z.to_nat (filterIndex data depthwise c cInput dmIdx yFilter xFilter) =
  filterData !! Z.to_nat (filterIndex data depthwise c cInput dmIdx yFilter xFilter) ->
  macStep data inputData inputOffset filterData2 filterOffset
    depthwise b c y x cInput dmIdx yFilter xFilter s =
  macStep' depthwise b c y x cInput dmIdx yFilter xFilter s.
Proof. unfold macStep, read. intros ->. reflexivity. Qed.

Lemma windowLoop_filter_ext (filterData2 : list Z) (depthwise : bool)
    (b c y x cInput dmIdx s : Z) :
  (forall yFilter xFilter,
      0 <= yFilter < heightFilter data -> 0 <= xFilter < widthFilter data ->
      filterData2 !! Z.to_nat (filterIndex data depthwise c cInput dmIdx yFilter xFilter) =
      filterData !! Z.to_nat (filterIndex data depthwise c cInput dmIdx yFilter xFilter)) ->
  windowLoop data inputData inputOffset filterData2 filterOffset
    depthwise b c y x cInput dmIdx s =
  windowLoop' depthwise b c y x cInput dmIdx s.
Proof.
  intros Hsame. unfold windowLoop.
  apply for_loop_ext. intros yFilter s0 Hy.
  apply for_loop_ext. intros xFilter s1 Hx.
  apply macStep_filter_ext, Hsame; assumption.
Qed.

Lemma windowSum_products (depthwise : bool) (b c y x cInput dmIdx : Z)
    (index : Z -> Z -> Z) :
  (forall yFilter xFilter,
      0 <= yFilter < heightFilter data -> 0 <= xFilter < widthFilter data ->
      filterIndex data depthwise c cInput dmIdx yFilter xFilter = index yFilter xFilter) ->
  windowSum' depthwise b c y x cInput dmIdx = windowProducts' index b cInput y x.
Proof.
  intros Hindex. unfold windowSum, windowProducts.
  apply sumZ_ext. intros yFilter Hy. apply sumZ_ext. intros xFilter Hx.
  unfold macTerm, filterOperand. rewrite (Hindex _ _ Hy Hx). reflexivity.
Qed.

Hypothesis data_wf : data_ok data.

(** C3: in depthwise mode the one input channel
    [inChannel = outChannel / depthMultiplier] contributes to an output
    element, with the multiplier index [outChannel % depthMultiplier]: an
    accumulator that is returned is the sum over the kernel window of
    (filter element - filterOffset) times the input operand of that channel,
    the filter element being the one at
    [multiplierIdx*kW*kH*Cin + inChannel*kW*kH + filterRow*kW + filterCol];
    each of these filter elements is read (it lies in the buffer), and no
    other is: a filter buffer that agrees at these indices gives the same
    outcome.  In standard mode the same holds with the sum running over all
    input channels and the index
    [outChannel*kW*kH*Cin + inChannel*kW*kH + filterRow*kW + filterCol]. *)
Theorem channel_mapping_and_filter_index (batchIdx cOutput yOutput xOutput : Z) :
  numElements (filterInfo data) < UINT_MODULUS ->
  (0 <= cOutput < channelsOutput data true ->
   let inChannel := cOutput / depthMult data true in
   let multiplierIdx := cOutput mod depthMult data true in
   let index := fun yFilter xFilter =>
     multiplierIdx * widthFilter data * heightFilter data * channelsInput data +
     inChannel * widthFilter data * heightFilter data +
     yFilter * widthFilter data + xFilter in
   0 <= inChannel < channelsInput data /\
   accumulate' true batchIdx cOutput yOutput xOutput =
     windowLoop' true batchIdx cOutput yOutput xOutput inChannel multiplierIdx 0 /\
   (forall yFilter xFilter,
       0 <= yFilter < heightFilter data -> 0 <= xFilter < widthFilter data ->
       filterIndex data true cOutput inChannel multiplierIdx yFilter xFilter =
       index yFilter xFilter) /\
   (forall s,
       accumulate' true batchIdx cOutput yOutput xOutput = Ok s ->
       s = windowProducts' index batchIdx inChannel yOutput xOutput /\
       forall yFilter xFilter,
         0 <= yFilter < heightFilter data -> 0 <= xFilter < widthFilter data ->
         exists f, filterData !! Z.to_nat (index yFilter xFilter) = Some f) /\
   (forall filterData2,
       (forall yFilter xFilter,
           0 <= yFilter < heightFilter data -> 0 <= xFilter < widthFilter data ->
           filterData2 !! Z.to_nat (index yFilter xFilter) =
           filterData !! Z.to_nat (index yFilter xFilter)) ->
       accumulate data inputData inputOffset filterData2 filterOffset
         true batchIdx cOutput yOutput xOutput =
       accumulate' true batchIdx cOutput yOutput xOutput)) /\
  (0 <= cOutput < channelsOutput data false ->
   let index := fun inChannel yFilter xFilter =>
     cOutput * widthFilter data * heightFilter data * channelsInput data +
     inChannel * widthFilter data * heightFilter data +
     yFilter * widthFilter data + xFilter in
   accumulate' false batchIdx cOutput yOutput xOutput =
     for_loop (channelsInput data)
       (fun inChannel sum =>
          windowLoop' false batchIdx cOutput yOutput xOutput inChannel 0 sum) 0 /\
   (forall inChannel yFilter xFilter,
       0 <= inChannel < channelsInput data ->
       0 <= yFilter < heightFilter data -> 0 <= xFilter < widthFilter data ->
       filterIndex data false cOutput inChannel 0 yFilter xFilter =
       index inChannel yFilter xFilter) /\
   (forall s,
       accumulate' false batchIdx cOutput yOutput xOutput = Ok s ->
       s = sumZ (channelsInput data) (fun inChannel =>
             windowProducts' (index inChannel) batchIdx inChannel yOutput xOutput) /\
       forall inChannel yFilter xFilter,
         0 <= inChannel < channelsInput data ->
         0 <= yFilter < heightFilter data -> 0 <= xFilter < widthFilter data ->
         exists f, filterData !! Z.to_nat (index inChannel yFilter xFilter) = Some f) /\
   (forall filterData2,
       (forall inChannel yFilter xFilter,
           0 <= inChannel < channelsInput data ->
           0 <= yFilter < heightFilter data -> 0 <= xFilter < widthFilter data ->
           filterData2 !! Z.to_nat (index inChannel yFilter xFilter) =
           filterData !! Z.to_nat (index inChannel yFilter xFilter)) ->
       accumulate data inputData inputOffset filterData2 filterOffset
         false batchIdx cOutput yOutput xOutput =
       accumulate' false batchIdx cOutput yOutput xOutput)).
Proof.
  intros Hfit.
  destruct (channel_mapping_steps data inputData inputOffset filterData filterOffset
              data_wf batchIdx cOutput yOutput xOutput Hfit) as [Hdw Hstd].
  split.
  - intros Hc inChannel multiplierIdx index.
    destruct (Hdw Hc) as (Hacc & Hin & Hsteps).
    fold inChannel multiplierIdx in Hacc, Hin, Hsteps.
    assert (Hindex : forall yFilter xFilter,
               0 <= yFilter < heightFilter data -> 0 <= xFilter < widthFilter data ->
               filterIndex data true cOutput inChannel multiplierIdx yFilter xFilter =
               index yFilter xFilter).
    { intros yFilter xFilter Hy Hx. exact (proj1 (Hsteps yFilter xFilter 0 Hy Hx)). }
    split; [exact Hin|]. split; [exact Hacc|]. split; [exact Hindex|]. split.
    + intros s Hrun. rewrite Hacc in Hrun. split.
      * apply windowLoop_adds_sum in Hrun.
        rewrite (windowSum_products _ _ _ _ _ _ _ index Hindex) in Hrun. lia.
      * intros yFilter xFilter Hy Hx. rewrite <- (Hindex _ _ Hy Hx).
        exact (windowLoop_reads_filter _ _ _ _ _ _ _ _ _ Hrun _ _ Hy Hx).
    + intros filterData2 Hsame.
      rewrite !accumulate_depthwise by assumption.
      apply windowLoop_filter_ext. intros yFilter xFilter Hy Hx.
      fold inChannel multiplierIdx. rewrite (Hindex _ _ Hy Hx). apply Hsame; assumption.
  - intros Hc index.
    destruct (Hstd Hc) as (Hacc & Hsteps).
    assert (Hindex : forall inChannel yFilter xFilter,
               0 <= inChannel < channelsInput data ->
               0 <= yFilter < heightFilter data -> 0 <= xFilter < widthFilter data ->
               filterIndex data false cOutput inChannel 0 yFilter xFilter =
               index inChannel yFilter xFilter).
    { intros inChannel yFilter xFilter Hin Hy Hx.
      exact (proj1 (Hsteps inChannel yFilter xFilter 0 Hin Hy Hx)). }
    split; [exact Hacc|]. split; [exact Hindex|]. split.
    + intros s Hrun. rewrite Hacc in Hrun. split.
      * apply (for_loop_sum _ _ (fun inChannel =>
                 windowSum' false batchIdx cOutput yOutput xOutput inChannel 0)) in Hrun.
        -- rewrite Hrun, Z.add_0_l. apply sumZ_ext. intros inChannel Hin.
           apply windowSum_products. intros yFilter xFilter Hy Hx.
           apply Hindex; assumption.
        -- intros inChannel s0 s1 _. apply windowLoop_adds_sum.
      * intros inChannel yFilter xFilter Hin Hy Hx.
        destruct (for_loop_Ok_each _ _ _ _ Hrun inChannel Hin) as (s0 & s1 & Hwin).
        rewrite <- (Hindex _ _ _ Hin Hy Hx).
        exact (windowLoop_reads_filter _ _ _ _ _ _ _ _ _ Hwin _ _ Hy Hx).
    + intros filterData2 Hsame.
      rewrite !accumulate_standard by assumption.
      apply for_loop_ext. intros inChannel s0 Hin.
      apply windowLoop_filter_ext. intros yFilter xFilter Hy Hx.
      rewrite (Hindex _ _ _ Hin Hy Hx). apply Hsame; assumption.
Qed.

End ChannelMapping.

Lemma paddedJob_filter_fits : numElements (filterInfo paddedJob) < UINT_MODULUS.
Proof. reflexivity. Qed.

Lemma paddedJob_standard_channel_zero : 0 <= 0 < channelsOutput paddedJob false.
Proof. vm_compute. split; [discriminate|reflexivity]. Qed.

Lemma paddedJob_window_position : 0 <= 1 < 2.
Proof. lia. Qed.

Lemma channel_mapping_and_filter_index_witness :
  data_ok paddedJob /\
  numElements (filterInfo paddedJob) < UINT_MODULUS /\
  0 <= 1 < channelsOutput paddedJob true /\
  0 <= 0 < channelsOutput paddedJob false /\
  accumulate paddedJob paddedInput 0 paddedFilter 0 true 0 1 2 2 = Ok 590 /\
  590 = windowProducts paddedJob paddedInput 0 paddedFilter 0
          (fun yFilter xFilter => 0 * 2 * 2 * 2 + 1 * 2 * 2 + yFilter * 2 + xFilter)
          0 1 2 2 /\
  filterIndex paddedJob true 1 1 0 1 1 = 7 /\
  (exists f, paddedFilter !! 7%nat = Some f) /\
  accumulate paddedJob paddedInput 0 paddedFilter 0 false 0 0 2 2 = Ok 720 /\
  720 = sumZ 2 (fun inChannel =>
          windowProducts paddedJob paddedInput 0 paddedFilter 0
            (fun yFilter xFilter =>
               0 * 2 * 2 * 2 + inChannel * 2 * 2 + yFilter * 2 + xFilter)
            0 inChannel 2 2) /\
  filterIndex paddedJob false 0 1 0 1 1 = 7.
Proof.
  destruct (channel_mapping_and_filter_index paddedJob paddedInput 0 paddedFilter 0
              paddedJob_ok 0 1 2 2 paddedJob_filter_fits) as [Hdw _].
  destruct (channel_mapping_and_filter_index paddedJob paddedInput 0 paddedFilter 0
              paddedJob_ok 0 0 2 2 paddedJob_filter_fits) as [_ Hstd].
  specialize (Hdw paddedJob_channel_one). cbv zeta in Hdw.
  destruct Hdw as (_ & _ & Hi & Hsum & _).
  destruct (Hsum 590 eq_refl) as [Hs Hread].
  specialize (Hstd paddedJob_standard_channel_zero). cbv zeta in Hstd.
  destruct Hstd as (_ & Hi' & Hsum' & _).
  destruct (Hsum' 720 eq_refl) as [Hs' _].
  split; [exact paddedJob_ok|]. split; [exact paddedJob_filter_fits|].
  split; [exact paddedJob_channel_one|]. split; [exact paddedJob_standard_channel_zero|].
  split; [reflexivity|]. split; [exact Hs|].
  split; [exact (Hi 1 1 paddedJob_window_position paddedJob_window_position)|].
  split; [exact (Hread 1 1 paddedJob_window_position paddedJob_window_position)|].
  split; [reflexivity|]. split; [exact Hs'|].
  exact (Hi' 1 1 1 paddedJob_window_position paddedJob_window_position
           paddedJob_window_position).
Defined.

Section KernelRun.

Variable float : Type.
Variable float_mul : float -> float -> float.
Variable float_div : float -> float -> float.
Variable float_nonzero : float -> bool.
Variable QuantizedMultiplierSmallerThanOne_new :
  float -> outcome QuantizedMultiplierSmallerThanOne.

Variable data : ConvData.
Variable inputData : list Z.
Variable inputScale : float.
Variable inputOffset : Z.
Variable filterData : list Z.
Variable filterScale : float.
Variable filterOffset : Z.
Variable biasData : option (list Z).
Variable outputScale : float.
Variable outputOffset : Z.
Variable depthwise : bool.

Local Abbreviation rawAccumulator' :=
  (rawAccumulator data inputData inputOffset filterData filterOffset biasData depthwise).
Local Abbreviation outputElement' :=
  (outputElement float float_mul float_div float_nonzero
     QuantizedMultiplierSmallerThanOne_new data inputData inputScale inputOffset
     filterData filterScale filterOffset biasData outputScale outputOffset depthwise).
Local Abbreviation convLoops' :=
  (convLoops float float_mul float_div float_nonzero
     QuantizedMultiplierSmallerThanOne_new data inputData inputScale inputOffset
     filterData filterScale filterOffset biasData outputScale outputOffset depthwise).
Local Abbreviation ConvImpl' :=
  (ConvImpl float float_mul float_div float_nonzero
     QuantizedMultiplierSmallerThanOne_new data inputData inputScale inputOffset
     filterData filterScale filterOffset biasData outputScale outputOffset depthwise).
Local Abbreviation multiplier' :=
  (QuantizedMultiplierSmallerThanOne_new
     (float_div (float_mul inputScale filterScale) outputScale)).

Hypothesis output_fits : outputCount data depthwise < UINT_MODULUS.

(** What a run that returns has left in the buffer for an output element. *)
Lemma ConvImpl_stored (out out' : list Z) (b c y x : Z) :
  ConvImpl' out = Ok out' ->
  inOutput data depthwise b c y x ->
  exists v,
    outputElement' b c y x = Ok v /\
    out' !! Z.to_nat (b * widthOutput data * heightOutput data * channelsOutput data depthwise +
                       c * widthOutput data * heightOutput data +
                       y * widthOutput data + x) = Some v.
Proof.
  intros Hrun Hc.
  assert (Hloops : convLoops' out = Ok out').
  { unfold ConvImpl in Hrun.
    destruct (negb (m_BiasEnabled (m_Parameters data)) || bool_decide (biasData <> None));
      [exact Hrun|discriminate]. }
  apply convLoops_Wrote in Hloops as (_ & Hin & _); [|exact output_fits].
  destruct (Hin b c y x Hc) as (v & Hv & Hlook).
  exists v. split; [exact Hv|].
  destruct (outputIndex_exact _ _ output_fits _ _ _ _ Hc) as [E _].
  rewrite E in Hlook. exact Hlook.
Qed.

(** A run returns when the assertion passes, every output element has a
    value and the buffer holds the output tensor. *)
Lemma ConvImpl_runs (out : list Z) :
  (m_BiasEnabled (m_Parameters data) = true -> biasData <> None) ->
  (forall b c y x, inOutput data depthwise b c y x ->
                   exists v, outputElement' b c y x = Ok v) ->
  outputCount data depthwise <= Z.of_nat (length out) ->
  exists out', ConvImpl' out = Ok out'.
Proof.
  intros Hguard Helem Hlen. unfold ConvImpl.
  destruct (m_BiasEnabled (m_Parameters data)) eqn:Hen.
  - rewrite bool_decide_eq_true_2 by (now apply Hguard). cbn [negb orb].
    apply convLoops_total; assumption.
  - cbn [negb orb]. apply convLoops_total; assumption.
Qed.

(** C5: with [outputScale == 0] a run that returns has written, for every
    output element, the raw accumulator itself (window sum, plus the bias
    when enabled) at the element's place in the output buffer: the value is
    not rescaled, [outputOffset] is not added and nothing is clamped, so the
    accumulator is in the range [0, 255] of the output element type; and the
    run does return when the assertion passes, every accumulator is a value
    in that range and the buffer holds the output tensor.  The value of an
    element is the narrowing cast of its accumulator, whatever the scales
    and [outputOffset] are. *)
Theorem passthrough_stores_raw_accumulator (out : list Z) :
  float_nonzero outputScale = false ->
  (forall out',
      ConvImpl' out = Ok out' ->
      forall b c y x,
        inOutput data depthwise b c y x ->
        exists acc,
          rawAccumulator data inputData inputOffset filterData filterOffset biasData
            depthwise b c y x = Ok acc /\
          0 <= acc <= 255 /\
          out' !! Z.to_nat (b * widthOutput data * heightOutput data *
                              channelsOutput data depthwise +
                            c * widthOutput data * heightOutput data +
                            y * widthOutput data + x) = Some acc) /\
  ((m_BiasEnabled (m_Parameters data) = true -> biasData <> None) ->
   (forall b c y x,
       inOutput data depthwise b c y x ->
       exists acc,
         rawAccumulator data inputData inputOffset filterData filterOffset biasData
           depthwise b c y x = Ok acc /\
         0 <= acc <= 255) ->
   outputCount data depthwise <= Z.of_nat (length out) ->
   exists out', ConvImpl' out = Ok out') /\
  (forall b c y x,
      outputElement' b c y x =
      (sum ← rawAccumulator data inputData inputOffset filterData filterOffset biasData
               depthwise b c y x;
       numeric_cast_uint8 sum)).
Proof.
  intros Hzero. split; [|split].
  - intros out' Hrun b c y x Hc.
    destruct (ConvImpl_stored _ _ _ _ _ _ Hrun Hc) as (v & Hv & Hlook).
    destruct (passthrough_element float float_mul float_div float_nonzero
                QuantizedMultiplierSmallerThanOne_new data inputData inputScale inputOffset
                filterData filterScale filterOffset biasData outputScale outputOffset
                depthwise b c y x Hzero) as (Heq & Hraw & _).
    pose proof (Hraw v Hv) as Hacc.
    exists v. split; [exact Hacc|]. split; [|exact Hlook].
    rewrite Heq, Hacc, bind_Ok in Hv.
    apply numeric_cast_uint8_inv in Hv as [_ Hv]. exact Hv.
  - intros Hguard Helem Hlen. apply ConvImpl_runs; [exact Hguard| |exact Hlen].
    intros b c y x Hc. destruct (Helem b c y x Hc) as (acc & Hacc & Hrange).
    exists acc.
    exact (proj2 (proj2 (passthrough_element float float_mul float_div float_nonzero
                           QuantizedMultiplierSmallerThanOne_new data inputData inputScale
                           inputOffset filterData filterScale filterOffset biasData
                           outputScale outputOffset depthwise b c y x Hzero))
             acc Hacc Hrange).
  - intros b c y x.
    exact (proj1 (passthrough_element float float_mul float_div float_nonzero
                    QuantizedMultiplierSmallerThanOne_new data inputData inputScale
                    inputOffset filterData filterScale filterOffset biasData
                    outputScale outputOffset depthwise b c y x Hzero)).
Qed.

(** C2: with [outputScale != 0] a run that returns has written, for every
    output element, a value in [0, 255], the range of the unsigned 8-bit
    output: the rescaled accumulator plus [outputOffset], an int32 sum,
    clamped to that range before it is narrowed; the run does return when the
    assertion passes, the multiplier is built, the int32 sum is defined for
    every element and the buffer holds the output tensor.  With an offset in
    [0, 255] and a multiplier below one the int32 sum is defined for every
    accumulator from INT32_MIN up to INT32_MAX - 255. *)
Theorem quantized_output_clamped (out : list Z) :
  float_nonzero outputScale = true ->
  (forall out',
      ConvImpl' out = Ok out' ->
      forall b c y x,
        inOutput data depthwise b c y x ->
        exists acc q,
          rawAccumulator data inputData inputOffset filterData filterOffset biasData
            depthwise b c y x = Ok acc /\
          multiplier' = Ok q /\
          in_int32 (QuantizedMultiplierSmallerThanOne_mul q acc + outputOffset) = true /\
          out' !! Z.to_nat (b * widthOutput data * heightOutput data *
                              channelsOutput data depthwise +
                            c * widthOutput data * heightOutput data +
                            y * widthOutput data + x)
          = Some (Z.min (Z.max (QuantizedMultiplierSmallerThanOne_mul q acc + outputOffset) 0)
                        255) /\
          0 <= Z.min (Z.max (QuantizedMultiplierSmallerThanOne_mul q acc + outputOffset) 0) 255
            <= 255) /\
  (forall q,
      multiplier' = Ok q ->
      (m_BiasEnabled (m_Parameters data) = true -> biasData <> None) ->
      (forall b c y x,
          inOutput data depthwise b c y x ->
          exists acc,
            rawAccumulator data inputData inputOffset filterData filterOffset biasData
              depthwise b c y x = Ok acc /\
            in_int32 (QuantizedMultiplierSmallerThanOne_mul q acc + outputOffset) = true) ->
      outputCount data depthwise <= Z.of_nat (length out) ->
      exists out', ConvImpl' out = Ok out') /\
  (forall acc q,
      0 <= m_Multiplier q <= INT32_MAX -> 0 <= m_RightShift q ->
      0 <= outputOffset <= 255 ->
      INT32_MIN <= acc <= INT32_MAX - 255 ->
      in_int32 (QuantizedMultiplierSmallerThanOne_mul q acc + outputOffset) = true).
Proof.
  intros Hnz. split; [|split].
  - intros out' Hrun b c y x Hc.
    destruct (ConvImpl_stored _ _ _ _ _ _ Hrun Hc) as (v & Hv & Hlook).
    rewrite outputElement_raw in Hv.
    apply bind_Ok_inv in Hv as (acc & Hacc & Hv).
    apply bind_Ok_inv in Hv as (r & Hr & Hv).
    apply numeric_cast_uint8_inv in Hv as [-> _].
    unfold requantize in Hr. rewrite Hnz in Hr.
    apply bind_Ok_inv in Hr as (q & Hq & Hr).
    apply bind_Ok_inv in Hr as (s & Hs & Hr).
    apply int32_result_inv in Hs as [-> Hs]. injection Hr as <-.
    exists acc, q. split; [exact Hacc|]. split; [exact Hq|]. split.
    + unfold in_int32. apply andb_true_iff. rewrite !Z.leb_le. exact Hs.
    + split; [exact Hlook|lia].
  - intros q Hq Hguard Helem Hlen. apply ConvImpl_runs; [exact Hguard| |exact Hlen].
    intros b c y x Hc. destruct (Helem b c y x Hc) as (acc & Hacc & Hin).
    eexists.
    exact (proj1 (proj2 (quantized_element_clamped float float_mul float_div float_nonzero
                           QuantizedMultiplierSmallerThanOne_new data inputData inputScale
                           inputOffset filterData filterScale filterOffset biasData
                           outputScale outputOffset depthwise b c y x Hnz))
             acc q Hacc Hq Hin).
  - intros acc q Hm Hs Hoff Hacc.
    pose proof (multiplier_shrinks q acc Hm Hs) as Hshrink.
    unfold in_int32. apply andb_true_iff. rewrite !Z.leb_le.
    unfold INT32_MIN, INT32_MAX in *. lia.
Qed.

End KernelRun.

Lemma biasedJob_output_fits : outputCount biasedJob false < UINT_MODULUS.
Proof. reflexivity. Qed.

Lemma biasedJob_run :
  ConvImplQ biasedJob [1; 2; 3; 4] 1 0 [1] 1 0 (Some [10]) 0 7 false [9; 9; 9; 9]
  = Ok [11; 12; 13; 14].
Proof. vm_compute. reflexivity. Qed.

Lemma biasedJob_element : inOutput biasedJob false 0 0 1 0.
Proof. unfold inOutput. repeat split; vm_compute; try discriminate; reflexivity. Qed.

Lemma passthrough_stores_raw_accumulator_witness :
  outputCount biasedJob false < UINT_MODULUS /\
  Q_nonzero 0 = false /\
  ConvImplQ biasedJob [1; 2; 3; 4] 1 0 [1] 1 0 (Some [10]) 0 7 false [9; 9; 9; 9]
  = Ok [11; 12; 13; 14] /\
  inOutput biasedJob false 0 0 1 0 /\
  exists acc,
    rawAccumulator biasedJob [1; 2; 3; 4] 0 [1] 0 (Some [10]) false 0 0 1 0 = Ok acc /\
    0 <= acc <= 255 /\
    [11; 12; 13; 14] !! 2%nat = Some acc.
Proof.
  split; [exact biasedJob_output_fits|]. split; [reflexivity|].
  split; [exact biasedJob_run|]. split; [exact biasedJob_element|].
  exact (proj1 (passthrough_stores_raw_accumulator Q Qmult Qdiv Q_nonzero
                  Q_QuantizedMultiplierSmallerThanOne_new biasedJob [1; 2; 3; 4] 1%Q 0
                  [1] 1%Q 0 (Some [10]) 0%Q 7 false biasedJob_output_fits
                  [9; 9; 9; 9] eq_refl)
           [11; 12; 13; 14] biasedJob_run 0 0 1 0 biasedJob_element).
Defined.

Lemma paddedJob_run_half :
  ConvImplQ paddedJob paddedInput 1 0 paddedFilter 1 0 (Some paddedBias) 2 0 true
    (replicate 50 0)
  = Ok [150; 150; 150; 150; 150; 150; 172; 191; 168; 150; 150; 187; 215;
        177; 150; 150; 163; 171; 157; 150; 150; 150; 150; 150; 150; 0; 0;
        0; 0; 0; 0; 64; 142; 57; 0; 0; 135; 255; 119; 0; 0; 49; 110; 40; 0;
        0; 0; 0; 0; 0].
Proof. vm_compute. reflexivity. Qed.

Lemma paddedJob_element : inOutput paddedJob true 0 0 2 2.
Proof. unfold inOutput. repeat split; vm_compute; try discriminate; reflexivity. Qed.

Lemma quantized_output_clamped_witness :
  outputCount paddedJob true < UINT_MODULUS /\
  Q_nonzero 2 = true /\
  inOutput paddedJob true 0 0 2 2 /\
  exists out',
    ConvImplQ paddedJob paddedInput 1 0 paddedFilter 1 0 (Some paddedBias) 2 0 true
      (replicate 50 0) = Ok out' /\
    exists acc q,
      rawAccumulator paddedJob paddedInput 0 paddedFilter 0 (Some paddedBias) true 0 0 2 2
      = Ok acc /\
      Q_QuantizedMultiplierSmallerThanOne_new (Qdiv (Qmult 1 1) 2) = Ok q /\
      in_int32 (QuantizedMultiplierSmallerThanOne_mul q acc + 0) = true /\
      out' !! 12%nat
      = Some (Z.min (Z.max (QuantizedMultiplierSmallerThanOne_mul q acc + 0) 0) 255) /\
      0 <= Z.min (Z.max (QuantizedMultiplierSmallerThanOne_mul q acc + 0) 0) 255 <= 255.
Proof.
  split; [exact (paddedJob_output_fits true)|]. split; [reflexivity|].
  split; [exact paddedJob_element|].
  eexists. split; [exact paddedJob_run_half|].
  exact (proj1 (quantized_output_clamped Q Qmult Qdiv Q_nonzero
                  Q_QuantizedMultiplierSmallerThanOne_new paddedJob paddedInput 1%Q 0
                  paddedFilter 1%Q 0 (Some paddedBias) 2%Q 0 true
                  (paddedJob_output_fits true) (replicate 50 0) eq_refl)
           _ paddedJob_run_half 0 0 2 2 paddedJob_element).
Defined.

(** C2 does not hold as first stated, for every accumulator however
    large: with the bias INT32_MAX the accumulator of output element
    (0,0,0,0) of channel 0, whose window lies in the padding, is INT32_MAX;
    with the scales 16777215/16777216, 1 and 1 the multiplier is
    2147483520 / 2^31 and the rescaled accumulator is 2147483519; adding the
    output offset 255 leaves the range of int32, before the clamp, and the
    run has no defined result. *)
Lemma accumulator_near_int32_max_overflows :
  Q_nonzero 1 = true /\
  rawAccumulator paddedJob paddedInput 0 paddedFilter 0 (Some overflowBias) true 0 0 0 0
  = Ok INT32_MAX /\
  Q_QuantizedMultiplierSmallerThanOne_new (Qdiv (Qmult (16777215 # 16777216) 1) 1)
  = Ok {| m_Multiplier := 2147483520; m_RightShift := 0 |} /\
  QuantizedMultiplierSmallerThanOne_mul
    {| m_Multiplier := 2147483520; m_RightShift := 0 |} INT32_MAX = 2147483519 /\
  in_int32 (2147483519 + 255) = false /\
  outputElementQ paddedJob paddedInput (16777215 # 16777216) 0 paddedFilter 1 0
    (Some overflowBias) 1 255 true 0 0 0 0 = Err UndefinedBehaviour /\
  ConvImplQ paddedJob paddedInput (16777215 # 16777216) 0 paddedFilter 1 0
    (Some overflowBias) 1 255 true (replicate 50 0) = Err UndefinedBehaviour.
Proof. repeat split; vm_compute; reflexivity. Qed.
